(** * PdfCreator: a shallow embedding of packages/pdf-creator/src/PdfCreator.ts

    The development follows the TypeScript class member by member.

    - A JavaScript string is the list of its UTF-16 code units
      ([jsstring = list Z]); [s.length] is [length s].
    - A JavaScript number that the program only uses as a counter, an
      index or a length (object ids, offsets, page numbers) is a [nat];
      the other numbers (coordinates, sizes, colour channels) are
      doubles, kept as the rationals [Q] they are.  Where a sum or a
      difference decides a branch or is handed back to the caller (the
      overflow test, the [y] of a page break) its rounding to a double
      is written out ([double]); a value that only goes into the text of
      the output is handed to the printing of numbers by a template
      literal, which is left abstract ([numberToString]) and stands for
      rounding and printing.
    - The host services the class calls ([processImage]'s fetch and canvas
      work, [atob]) are parameters of the model. *)

From Stdlib Require Import ZArith QArith Qminmax Ascii String List Lia.
From Stdlib Require Import DecimalString.
From Stdlib Require DecimalNat DecimalFacts.
From stdpp Require Import base option list gmap.

Local Open Scope list_scope.

(** ** Strings as sequences of code units *)

Definition jsstring := list Z.

Definition unit_of_ascii (c : ascii) : Z := Z.of_N (N_of_ascii c).

Fixpoint lit (s : string) : jsstring :=
  match s with
  | EmptyString => []
  | String c r => unit_of_ascii c :: lit r
  end.

(** The line feed of the template literals ([\n]). *)
Definition nl : jsstring := [10%Z].

(** [`${n}`] for a non-negative integer [n] (ids, offsets, lengths). *)
Definition natToString (n : nat) : jsstring :=
  lit (NilZero.string_of_uint (Nat.to_uint n)).

(** [s.padStart(10, '0')]. *)
Definition padStart10 (s : jsstring) : jsstring :=
  replicate (10 - length s) 48%Z ++ s.

(** [parts.join(sep)]. *)
Fixpoint join (sep : jsstring) (parts : list jsstring) : jsstring :=
  match parts with
  | [] => []
  | [p] => p
  | p :: rest => p ++ sep ++ join sep rest
  end.

(** [s.startsWith(p)]. *)
Fixpoint startsWith (p s : jsstring) : bool :=
  match p, s with
  | [], _ => true
  | a :: p', b :: s' => if decide (a = b) then startsWith p' s' else false
  | _ :: _, [] => false
  end.

(** [String.prototype.toLowerCase], as far as the font lookup can tell:
    the letters [A-Z] are lowered, the other code units are kept.  (The
    full Unicode mapping differs on non-ASCII letters only, and the one
    such letter it sends to an ASCII string is the Kelvin sign, to [k];
    no property name the lookup can hit contains a [k].) *)
Definition lowerUnit (c : Z) : Z :=
  if (65 <=? c)%Z && (c <=? 90)%Z then (c + 32)%Z else c.

Definition toLowerCase (s : jsstring) : jsstring := map lowerUnit s.

(** ** hexToRgb *)

Module Rgb.
Record t := mk { r : Q; g : Q; b : Q }.
End Rgb.

(** The character class [[a-f\d]] under the [i] flag, with the value
    [parseInt] gives the digit in radix 16. *)
Definition hexDigit (c : Z) : option Z :=
  if (48 <=? c)%Z && (c <=? 57)%Z then Some (c - 48)%Z
  else if (97 <=? c)%Z && (c <=? 102)%Z then Some (c - 87)%Z
  else if (65 <=? c)%Z && (c <=? 70)%Z then Some (c - 55)%Z
  else None.

(** [parseInt(s, 16)] on a string of hexadecimal digits. *)
Fixpoint parseInt16_from (acc : Z) (s : jsstring) : option Z :=
  match s with
  | [] => Some acc
  | c :: rest =>
      match hexDigit c with
      | Some d => parseInt16_from (16 * acc + d)%Z rest
      | None => None
      end
  end.

Definition parseInt16 (s : jsstring) : option Z :=
  match s with
  | [] => None
  | _ => parseInt16_from 0%Z s
  end.

(** [([a-f\d]{2})([a-f\d]{2})([a-f\d]{2})$] matched against the whole
    of [s]: the three groups, each as [parseInt(_, 16)] reads it. *)
Definition matchGroups (s : jsstring) : option (Z * Z * Z) :=
  match s with
  | [r1; r2; g1; g2; b1; b2] =>
      match parseInt16 [r1; r2], parseInt16 [g1; g2], parseInt16 [b1; b2] with
      | Some vr, Some vg, Some vb => Some (vr, vg, vb)
      | _, _, _ => None
      end
  | _ => None
  end.

(** What follows a leading [#], if there is one. *)
Definition afterHash (s : jsstring) : option jsstring :=
  match s with
  | c :: rest => if (c =? 35)%Z then Some rest else None
  | [] => None
  end.

(** [/^#?([a-f\d]{2})([a-f\d]{2})([a-f\d]{2})$/i.exec(hex)]: the optional
    [#] is tried first, then the match without it. *)
Definition hexRegexExec (hex : jsstring) : option (Z * Z * Z) :=
  match afterHash hex with
  | Some rest =>
      match matchGroups rest with
      | Some gs => Some gs
      | None => matchGroups hex
      end
  | None => matchGroups hex
  end.

Definition hexToRgb (hex : jsstring) : Rgb.t :=
  match hexRegexExec hex with
  | Some (vr, vg, vb) =>
      Rgb.mk (inject_Z vr / 255)%Q (inject_Z vg / 255)%Q (inject_Z vb / 255)%Q
  | None => Rgb.mk 0%Q 0%Q 0%Q
  end.

(** A hexadecimal digit, in either case. *)
Definition isHexUnit (c : Z) : bool :=
  ((48 <=? c) && (c <=? 57) || (97 <=? c) && (c <=? 102) || (65 <=? c) && (c <=? 70))%Z.

(** The shape [#RRGGBB] as the specification words it: a number sign
    followed by exactly six hexadecimal digits. *)
Definition matchesHashRRGGBB (s : jsstring) : bool :=
  match afterHash s with
  | Some body => (length body =? 6)%nat && forallb isHexUnit body
  | None => false
  end.

(** The shape the regular expression accepts: six hexadecimal digits,
    with or without the leading number sign. *)
Definition matchesOptHashRRGGBB (s : jsstring) : bool :=
  match afterHash s with
  | Some body => (length body =? 6)%nat && forallb isHexUnit body
  | None => (length s =? 6)%nat && forallb isHexUnit s
  end.

(** The value of a hexadecimal digit, read off the digit's code. *)
Definition hexValue (c : Z) : Z :=
  if (c <=? 57)%Z then (c - 48)%Z
  else if (c <=? 70)%Z then (c - 55)%Z
  else (c - 87)%Z.

(** The value of a two-digit component. *)
Definition componentValue (hi lo : Z) : Z := (16 * hexValue hi + hexValue lo)%Z.

(** The digits of a colour string, without the number sign. *)
Definition hexBody (s : jsstring) : jsstring :=
  match afterHash s with
  | Some body => body
  | None => s
  end.

Definition isBlack (c : Rgb.t) : Prop :=
  (Rgb.r c == 0 /\ Rgb.g c == 0 /\ Rgb.b c == 0)%Q.

Definition inUnit (q : Q) : Prop := (0 <= q /\ q <= 1)%Q.

(** ** Options, configuration and document state *)

(** ['left' | 'center' | 'right'], which the code only tests against
    ['center'] and ['right']. *)
Inductive Align := AlignLeft | AlignCenter | AlignRight.

Module TextOptions.
Record t := mk {
  size : option Q;
  font : option jsstring;
  style : option jsstring;
  color : option jsstring;
  align : option Align
}.
(** [options = {}]. *)
Definition none : t := mk None None None None None.
End TextOptions.

Module ImageOptions.
Record t := mk { width : Q; height : Q; format : option jsstring }.
End ImageOptions.

Module DefaultHeaderConfig.
Record t := mk {
  text : option jsstring;
  align : option Align;
  color : option jsstring
}.
End DefaultHeaderConfig.

Module DefaultFooterConfig.
Record t := mk {
  text : option jsstring;
  showPageNumbers : option bool;
  align : option Align;
  color : option jsstring
}.
End DefaultFooterConfig.

(** What an [onHeader] / [onFooter] callback does with the document it
    is handed: a sequence of calls of the public drawing methods, after
    which it returns.  A callback that throws, or that calls [setPage] or
    asks for the output from inside the pass, is outside the model; the
    properties that depend on this say so. *)
Inductive Call :=
| CallAddText (text : jsstring) (x y : Q) (options : TextOptions.t)
| CallAddImage (imageData : jsstring) (x y : Q) (options : ImageOptions.t)
| CallAddPage.

(** A callback, as a function of the page number it receives. *)
Definition Callback := nat -> list Call.

Module PdfConfig.
Record t := mk {
  headerHeight : option Q;
  footerHeight : option Q;
  onHeader : option Callback;
  onFooter : option Callback;
  defaultHeader : option DefaultHeaderConfig.t;
  defaultFooter : option DefaultFooterConfig.t
}.
(** [config = {}]. *)
Definition none : t := mk None None None None None None.
End PdfConfig.

Module Resources.
(** The two [Set<string>]s, in insertion order. *)
Record t := mk { fonts : list jsstring; images : list jsstring }.
End Resources.

Module Page.
Record t := mk {
  id : nat;
  contentId : nat;
  content : list jsstring;
  resources : Resources.t
}.
End Page.

Module ImageEntry.
Record t := mk { id : nat; width : Q; height : Q; data : jsstring }.
End ImageEntry.

(** The fields of the class that its methods read or write.  ([objects],
    [fonts] and [canvasContext] are used by none of the methods below.)
    [images] is the [Map] in insertion order. *)
Record PdfCreator := mkPdfCreator {
  config : PdfConfig.t;
  pages : list Page.t;
  currentPageIndex : Z;
  objectCounter : nat;
  images : list (jsstring * ImageEntry.t);
  headerHeight : Q;
  footerHeight : Q;
  isApplyingHeaderFooter : bool
}.

(** ** Numbers

    A number of the program is an IEEE 754 double.  Every finite double
    is a rational, so the values are kept in [Q]; what the arithmetic of
    the program adds to the arithmetic of [Q] is the rounding of each
    result to the nearest double, which [double] writes out: round to
    nearest, ties to even, significands of 53 bits, exponents from -1074
    on (the subnormal range).  A result beyond the largest double stays
    the large rational it is, which compares as [Infinity] does; [NaN] is
    not a value of the model. *)

(** The integer nearest to [n / d], a tie going to the even one. *)
Definition roundHalfEven (n d : Z) : Z :=
  let q := (n / d)%Z in
  match (2 * (n mod d) ?= d)%Z with
  | Lt => q
  | Gt => (q + 1)%Z
  | Eq => if Z.even q then q else (q + 1)%Z
  end.

(** [a / (d * 2^e)] as a numerator and a denominator. *)
Definition scaleBy (a d e : Z) : Z * Z :=
  if (0 <=? e)%Z then (a, d * 2 ^ e)%Z else (a * 2 ^ (- e), d)%Z.

(** The double nearest to [x]: the exponent [e] is the one that puts
    [|x| / 2^e] between [2^52] and [2^53], and not below -1074. *)
Definition double (x : Q) : Q :=
  let a := Z.abs (Qnum x) in
  let d := Z.pos (Qden x) in
  if (a =? 0)%Z then 0%Q
  else
    let e0 := (Z.log2 a - Z.log2 d - 52)%Z in
    let e1 := if (fst (scaleBy a d e0) / snd (scaleBy a d e0) <? 2 ^ 52)%Z
              then (e0 - 1)%Z else e0 in
    let e := Z.max e1 (-1074) in
    let m := (Z.sgn (Qnum x)
              * roundHalfEven (fst (scaleBy a d e)) (snd (scaleBy a d e)))%Z in
    if (0 <=? e)%Z then inject_Z (m * 2 ^ e) else Qmake m (Z.to_pos (2 ^ (- e))).
Arguments double : simpl never.

(** The literals [595.28] and [841.89]. *)
Definition PAGE_WIDTH : Q := double (59528 # 100).
Definition PAGE_HEIGHT : Q := double (84189 # 100).
Definition MAX_HEADER_HEIGHT : Q := 200 # 1.
Definition MAX_FOOTER_HEIGHT : Q := 200 # 1.

Definition with_pages (ps : list Page.t) (d : PdfCreator) : PdfCreator :=
  mkPdfCreator (config d) ps (currentPageIndex d) (objectCounter d) (images d)
    (headerHeight d) (footerHeight d) (isApplyingHeaderFooter d).

Definition with_currentPageIndex (i : Z) (d : PdfCreator) : PdfCreator :=
  mkPdfCreator (config d) (pages d) i (objectCounter d) (images d)
    (headerHeight d) (footerHeight d) (isApplyingHeaderFooter d).

Definition with_objectCounter (n : nat) (d : PdfCreator) : PdfCreator :=
  mkPdfCreator (config d) (pages d) (currentPageIndex d) n (images d)
    (headerHeight d) (footerHeight d) (isApplyingHeaderFooter d).

Definition with_images (m : list (jsstring * ImageEntry.t)) (d : PdfCreator)
  : PdfCreator :=
  mkPdfCreator (config d) (pages d) (currentPageIndex d) (objectCounter d) m
    (headerHeight d) (footerHeight d) (isApplyingHeaderFooter d).

Definition with_isApplyingHeaderFooter (f : bool) (d : PdfCreator) : PdfCreator :=
  mkPdfCreator (config d) (pages d) (currentPageIndex d) (objectCounter d)
    (images d) (headerHeight d) (footerHeight d) f.

(** ** Outcomes of a method call *)

Inductive Error := TypeError | ImageError | InvalidCharacterError.

(** A call returns a value, throws (or rejects) leaving the document as
    it was at the throw, or exhausts the fuel of a loop whose bound the
    callbacks can move. *)
Inductive result (A : Type) :=
| Return (a : A) (d : PdfCreator)
| Throw (e : Error) (d : PdfCreator)
| OutOfFuel.
Arguments Return {A} a d.
Arguments Throw {A} e d.
Arguments OutOfFuel {A}.

Definition M (A : Type) := PdfCreator -> result A.

Definition ret {A} (a : A) : M A := fun d => Return a d.

Definition bind {A B} (m : M A) (f : A -> M B) : M B :=
  fun d =>
    match m d with
    | Return a d' => f a d'
    | Throw e d' => Throw e d'
    | OutOfFuel => OutOfFuel
    end.

Notation "m ;; k" := (bind m (fun _ => k))
  (at level 100, k at level 200, right associativity).

(** A state change that cannot fail. *)
Definition modify (f : PdfCreator -> PdfCreator) : M unit :=
  fun d => Return tt (f d).

(** ** Allocator, pages *)

(** [return this.objectCounter++]. *)
Definition getNextId (d : PdfCreator) : nat * PdfCreator :=
  (objectCounter d, with_objectCounter (S (objectCounter d)) d).

Definition addPage (d : PdfCreator) : PdfCreator :=
  let '(pageId, d1) := getNextId d in
  let '(contentId, d2) := getNextId d1 in
  let ps := pages d2 ++ [Page.mk pageId contentId [] (Resources.mk [] [])] in
  with_currentPageIndex (Z.of_nat (length ps) - 1)%Z (with_pages ps d2).

Definition setPage (index : Z) (d : PdfCreator) : PdfCreator :=
  if (0 <=? index)%Z && (index <? Z.of_nat (length (pages d)))%Z
  then with_currentPageIndex index d
  else d.

(** [this.pages[i]] ([None] for [undefined]). *)
Definition pageAt (ps : list Page.t) (i : Z) : option Page.t :=
  if (i <? 0)%Z then None else ps !! Z.to_nat i.

(** [config.headerHeight || 0]. *)
Definition orZero (o : option Q) : Q :=
  match o with
  | Some v => if Qeq_bool v 0 then 0%Q else v
  | None => 0%Q
  end.

(** [Math.min(a, b)]. *)
Definition mathMin (a b : Q) : Q := if Qle_bool a b then a else b.

(** The field initialisers, then the body of the constructor. *)
Definition fieldInitialisers (cfg : PdfConfig.t) : PdfCreator :=
  mkPdfCreator cfg [] (-1)%Z 1 [] 0%Q 0%Q false.

Definition constructor (cfg : PdfConfig.t) : PdfCreator :=
  let d := fieldInitialisers cfg in
  let d := mkPdfCreator (config d) (pages d) (currentPageIndex d)
             (objectCounter d) (images d)
             (mathMin (orZero (PdfConfig.headerHeight cfg)) MAX_HEADER_HEIGHT)
             (mathMin (orZero (PdfConfig.footerHeight cfg)) MAX_FOOTER_HEIGHT)
             (isApplyingHeaderFooter d) in
  addPage d.

(** ** Host services

    What the class asks of its environment: the printing of a number by
    a template literal, the outcome of [processImage] for a source
    ([None] when the promise rejects: the fetch failed, the image did not
    decode, or no canvas context was available), and [atob] ([None] when
    it throws). *)
Class Host := {
  numberToString : Q -> jsstring;
  processImage : jsstring -> option jsstring;
  atob : jsstring -> option jsstring
}.

(** ** Fonts *)

(** The [standardFonts] table, in the order of the object literal (the
    order [Object.keys] returns). *)
Definition standardFonts : list (jsstring * jsstring) :=
  [ (lit "helvetica", lit "Helvetica");
    (lit "helvetica-bold", lit "Helvetica-Bold");
    (lit "helvetica-italic", lit "Helvetica-Oblique");
    (lit "helvetica-bolditalic", lit "Helvetica-BoldOblique");
    (lit "times", lit "Times-Roman");
    (lit "times-bold", lit "Times-Bold");
    (lit "times-italic", lit "Times-Italic");
    (lit "times-bolditalic", lit "Times-BoldItalic");
    (lit "courier", lit "Courier");
    (lit "courier-bold", lit "Courier-Bold");
    (lit "courier-italic", lit "Courier-Oblique");
    (lit "courier-bolditalic", lit "Courier-BoldOblique") ].

(** The 14 standard Type 1 fonts of the PDF reference. *)
Definition standard14 : list jsstring :=
  [ lit "Times-Roman"; lit "Times-Bold"; lit "Times-Italic"; lit "Times-BoldItalic";
    lit "Helvetica"; lit "Helvetica-Bold"; lit "Helvetica-Oblique";
    lit "Helvetica-BoldOblique";
    lit "Courier"; lit "Courier-Bold"; lit "Courier-Oblique"; lit "Courier-BoldOblique";
    lit "Symbol"; lit "ZapfDingbats" ].

(** [Object.keys(this.standardFonts)]. *)
Definition standardFontKeys : list jsstring := map fst standardFonts.

(** [keys.indexOf(key)] ([None] for [-1]). *)
Fixpoint indexOf (keys : list jsstring) (key : jsstring) : option nat :=
  match keys with
  | [] => None
  | k :: rest =>
      if decide (k = key) then Some 0
      else match indexOf rest key with
           | Some i => Some (S i)
           | None => None
           end
  end.

(** An own property of the table. *)
Fixpoint ownProperty (table : list (jsstring * jsstring)) (key : jsstring)
  : option jsstring :=
  match table with
  | [] => None
  | (k, v) :: rest => if decide (k = key) then Some v else ownProperty rest key
  end.

(** The value of [this.standardFonts[key]]: a font name for an own key,
    a member of [Object.prototype] for the two lower-case names it has,
    [undefined] otherwise. *)
Inductive Property :=
| PString (s : jsstring)
| PInherited
| PUndefined.

Definition standardFontsGet (key : jsstring) : Property :=
  match ownProperty standardFonts key with
  | Some v => PString v
  | None =>
      if decide (key = lit "constructor") then PInherited
      else if decide (key = lit "__proto__") then PInherited
      else PUndefined
  end.

(** [s.replace(/-normal$/, '')]. *)
Definition stripNormal (s : jsstring) : jsstring :=
  let n := (length s - 7)%nat in
  if decide (drop n s = lit "-normal") then take n s else s.

(** [`${font.toLowerCase()}-${style.toLowerCase()}`.replace(/-normal$/, '')]. *)
Definition fontKeyOf (font style : jsstring) : jsstring :=
  stripNormal (toLowerCase font ++ lit "-" ++ toLowerCase style).

(** [this.standardFonts[fontKey] || 'Helvetica'] (every value of the
    table is a non-empty string, hence truthy, and so is an inherited
    member). *)
Definition pdfFontNameOf (fontKey : jsstring) : Property :=
  match standardFontsGet fontKey with
  | PUndefined => PString (lit "Helvetica")
  | v => v
  end.

(** [`F${Object.keys(this.standardFonts).indexOf(fontKey) + 1}`]. *)
Definition fontResourceNameOf (fontKey : jsstring) : jsstring :=
  lit "F" ++ natToString (match indexOf standardFontKeys fontKey with
                          | Some i => S i
                          | None => 0
                          end).

(** [set.add(x)] on a [Set<string>] kept in insertion order. *)
Definition setAdd (x : jsstring) (s : list jsstring) : list jsstring :=
  if decide (x ∈ s) then s else s ++ [x].

(** [text.replace(/\\/g, '\\\\').replace(/\(/g, '\\(').replace(/\)/g, '\\)')]. *)
Definition replaceUnit (c : Z) (by_ : jsstring) (s : jsstring) : jsstring :=
  flat_map (fun u => if decide (u = c) then by_ else [u]) s.

Definition escapeText (text : jsstring) : jsstring :=
  replaceUnit 41%Z [92%Z; 41%Z]
    (replaceUnit 40%Z [92%Z; 40%Z]
       (replaceUnit 92%Z [92%Z; 92%Z] text)).

(** [a > b]. *)
Definition Qgtb (a b : Q) : bool := negb (Qle_bool a b).

(** [pages[i]] replaced by [p] (the page object is mutated in place). *)
Definition storePage (i : Z) (p : Page.t) (d : PdfCreator) : PdfCreator :=
  with_pages (<[Z.to_nat i := p]> (pages d)) d.

Module Ser.
(** The locals of [buildPdf] that [addObject] closes over; [xref] is a
    sparse array. *)
Record t := mk {
  buffer : jsstring;
  currentOffset : nat;
  xref : gmap nat nat
}.
End Ser.

Section Model.
Context {host : Host}.

(** ** Text *)

(** The content-stream fragment [addText] builds. *)
Definition textFragment (fontResourceName : jsstring) (size : Q) (rgb : Rgb.t)
    (xOffset pdfY : Q) (text : jsstring) : jsstring :=
  lit "BT" ++ nl
  ++ lit "/" ++ fontResourceName ++ lit " " ++ numberToString size ++ lit " Tf" ++ nl
  ++ numberToString (Rgb.r rgb) ++ lit " " ++ numberToString (Rgb.g rgb) ++ lit " "
  ++ numberToString (Rgb.b rgb) ++ lit " rg" ++ nl
  ++ numberToString xOffset ++ lit " " ++ numberToString pdfY ++ lit " Td" ++ nl
  ++ lit "(" ++ escapeText text ++ lit ") Tj" ++ nl
  ++ lit "ET" ++ nl.

(** The alignment adjustment of [x]. *)
Definition alignedX (align : Align) (x : Q) (text : jsstring) (size : Q) : Q :=
  match align with
  | AlignCenter => (x - inject_Z (Z.of_nat (length text)) * size * (3 # 10))%Q
  | AlignRight => (x - inject_Z (Z.of_nat (length text)) * size * (6 # 10))%Q
  | AlignLeft => x
  end.

Definition addText (text : jsstring) (x y : Q) (options : TextOptions.t) : M Q :=
  fun d =>
    let size := default (12 # 1) (TextOptions.size options) in
    let font := default (lit "helvetica") (TextOptions.font options) in
    let style := default (lit "normal") (TextOptions.style options) in
    let color := default (lit "#000000") (TextOptions.color options) in
    let align := default AlignLeft (TextOptions.align options) in
    let footerStart := double (PAGE_HEIGHT - footerHeight d) in
    let '(y, d) :=
      if negb (isApplyingHeaderFooter d) && Qgtb (double (y + size)) footerStart
      then (double (headerHeight d + 20), addPage d)
      else (y, d) in
    let pdfY := (PAGE_HEIGHT - y)%Q in
    let fontKey := fontKeyOf font style in
    let pdfFontName := pdfFontNameOf fontKey in
    let fontResourceName := fontResourceNameOf fontKey in
    match pageAt (pages d) (currentPageIndex d) with
    | None => Throw TypeError d
    | Some currentPage =>
        let res := Page.resources currentPage in
        let res := Resources.mk (setAdd fontResourceName (Resources.fonts res))
                     (Resources.images res) in
        let rgb := hexToRgb color in
        let xOffset := alignedX align x text size in
        let content := textFragment fontResourceName size rgb xOffset pdfY text in
        let currentPage :=
          Page.mk (Page.id currentPage) (Page.contentId currentPage)
            (Page.content currentPage ++ [content]) res in
        Return y (storePage (currentPageIndex d) currentPage d)
    end.

(** ** Images *)

(** The units [\w] matches. *)
Definition isWordUnit (c : Z) : bool :=
  ((48 <=? c) && (c <=? 57) || (65 <=? c) && (c <=? 90)
   || (97 <=? c) && (c <=? 122) || (c =? 95))%Z.

Fixpoint dropWhileWord (s : jsstring) : jsstring :=
  match s with
  | c :: rest => if isWordUnit c then dropWhileWord rest else s
  | [] => []
  end.

(** [s.replace(/^data:image\/\w+;base64,/, "")]. *)
Definition stripDataUrlPrefix (s : jsstring) : jsstring :=
  if startsWith (lit "data:image/") s then
    let afterSlash := drop (length (lit "data:image/")) s in
    let afterWord := dropWhileWord afterSlash in
    if negb (length afterWord =? length afterSlash)%nat
       && startsWith (lit ";base64,") afterWord
    then drop (length (lit ";base64,")) afterWord
    else s
  else s.

(** [this.images.get(key)] / [this.images.has(key)]. *)
Fixpoint imagesGet (m : list (jsstring * ImageEntry.t)) (key : jsstring)
  : option ImageEntry.t :=
  match m with
  | [] => None
  | (k, v) :: rest => if decide (k = key) then Some v else imagesGet rest key
  end.

Definition imageFragment (options : ImageOptions.t) (x pdfY : Q)
    (imageKey : jsstring) : jsstring :=
  lit "q " ++ numberToString (ImageOptions.width options) ++ lit " 0 0 "
  ++ numberToString (ImageOptions.height options) ++ lit " "
  ++ numberToString x ++ lit " " ++ numberToString pdfY ++ lit " cm /"
  ++ imageKey ++ lit " Do Q" ++ nl.

(** [addImage] up to its [await]: the overflow check. *)
Definition addImageEnter (y : Q) (options : ImageOptions.t) (d : PdfCreator)
  : Q * PdfCreator :=
  let footerStart := double (PAGE_HEIGHT - footerHeight d) in
  if negb (isApplyingHeaderFooter d)
     && Qgtb (double (y + ImageOptions.height options)) footerStart
  then (double (headerHeight d + 20), addPage d)
  else (y, d).

(** [addImage] from the point where [processImage] has resolved. *)
Definition addImageResume (processedData : jsstring) (x y : Q)
    (options : ImageOptions.t) : M Q :=
  fun d =>
    let base64Data := stripDataUrlPrefix processedData in
    let imageKey := lit "I" ++ natToString (length (images d) + 1) in
    let d :=
      match imagesGet (images d) imageKey with
      | Some _ => d
      | None =>
          let '(id, d1) := getNextId d in
          with_images
            (images d1 ++ [(imageKey,
                            ImageEntry.mk id (ImageOptions.width options)
                              (ImageOptions.height options) base64Data)]) d1
      end in
    match pageAt (pages d) (currentPageIndex d) with
    | None => Throw TypeError d
    | Some currentPage =>
        let res := Page.resources currentPage in
        let res := Resources.mk (Resources.fonts res)
                     (setAdd imageKey (Resources.images res)) in
        let pdfY := (PAGE_HEIGHT - y - ImageOptions.height options)%Q in
        let currentPage :=
          Page.mk (Page.id currentPage) (Page.contentId currentPage)
            (Page.content currentPage ++ [imageFragment options x pdfY imageKey])
            res in
        Return y (storePage (currentPageIndex d) currentPage d)
    end.

(** An awaited [addImage]: the part before the [await], the outcome of
    [processImage], the part after it. *)
Definition addImage (imageData : jsstring) (x y : Q) (options : ImageOptions.t)
  : M Q :=
  fun d =>
    let '(y, d) := addImageEnter y options d in
    match processImage imageData with
    | None => Throw ImageError d
    | Some processedData => addImageResume processedData x y options d
    end.

(** ** Header and footer pass *)

(** One call issued by a callback.  The document is handed over while
    [buildPdf] runs synchronously, so of an [addImage] call only the part
    before its [await] runs inside the pass. *)
Definition runCall (c : Call) : M unit :=
  match c with
  | CallAddText text x y options => addText text x y options ;; ret tt
  | CallAddImage imageData x y options =>
      modify (fun d => snd (addImageEnter y options d))
  | CallAddPage => modify addPage
  end.

Fixpoint runCalls (cs : list Call) : M unit :=
  match cs with
  | [] => ret tt
  | c :: rest => runCall c ;; runCalls rest
  end.

(** [let x = 20; if (align === 'center') ...; if (align === 'right') ...]. *)
Definition anchorX (align : Align) : Q :=
  match align with
  | AlignLeft => 20 # 1
  | AlignCenter => (PAGE_WIDTH / (2 # 1))%Q
  | AlignRight => (PAGE_WIDTH - (20 # 1))%Q
  end.

(** The options object [{ size: 10, align, color }]. *)
Definition bandOptions (align : Align) (color : jsstring) : TextOptions.t :=
  TextOptions.mk (Some (10 # 1)) None None (Some color) (Some align).

Definition headerStep (pageNum : nat) : M unit :=
  fun d =>
    match PdfConfig.onHeader (config d) with
    | Some onHeader => runCalls (onHeader pageNum) d
    | None =>
        match PdfConfig.defaultHeader (config d) with
        | Some h =>
            let text := default [] (DefaultHeaderConfig.text h) in
            let align := default AlignCenter (DefaultHeaderConfig.align h) in
            let color := default (lit "#000000") (DefaultHeaderConfig.color h) in
            match text with
            | [] => Return tt d
            | _ => (addText text (anchorX align) (20 # 1) (bandOptions align color)
                    ;; ret tt) d
            end
        | None => Return tt d
        end
    end.

(** The [footerText] of the default footer on page [pageNum]. *)
Definition footerTextOf (text : jsstring) (showPageNumbers : bool)
    (pageNum : nat) : jsstring :=
  if showPageNumbers then
    match text with
    | [] => lit "Page " ++ natToString pageNum
    | _ => text ++ lit " - Page " ++ natToString pageNum
    end
  else text.

Definition footerStep (pageNum : nat) : M unit :=
  fun d =>
    match PdfConfig.onFooter (config d) with
    | Some onFooter => runCalls (onFooter pageNum) d
    | None =>
        match PdfConfig.defaultFooter (config d) with
        | Some f =>
            let text := default [] (DefaultFooterConfig.text f) in
            let showPageNumbers :=
              default true (DefaultFooterConfig.showPageNumbers f) in
            let align := default AlignCenter (DefaultFooterConfig.align f) in
            let color := default (lit "#000000") (DefaultFooterConfig.color f) in
            let footerText := footerTextOf text showPageNumbers pageNum in
            match footerText with
            | [] => Return tt d
            | _ => (addText footerText (anchorX align) (820 # 1)
                      (bandOptions align color) ;; ret tt) d
            end
        | None => Return tt d
        end
    end.

(** [for (let i = 0; i < this.pages.length; i++) { ... }], the bound
    being read again at every turn. *)
Fixpoint applyLoop (fuel i : nat) (d : PdfCreator) {struct fuel} : result unit :=
  if (i <? length (pages d))%nat then
    match fuel with
    | O => OutOfFuel
    | S fuel' =>
        let pageNum := (i + 1)%nat in
        (modify (setPage (Z.of_nat i)) ;;
         headerStep pageNum ;;
         footerStep pageNum ;;
         applyLoop fuel' (S i)) d
    end
  else Return tt d.

Definition applyHeaderFooter (fuel : nat) : M unit :=
  fun d =>
    let d := with_isApplyingHeaderFooter true d in
    let originalPageIndex := currentPageIndex d in
    (applyLoop fuel 0 ;;
     modify (with_currentPageIndex originalPageIndex) ;;
     modify (with_isApplyingHeaderFooter false)) d.

(** ** Serializer *)

Definition objHeader (id : nat) : jsstring := natToString id ++ lit " 0 obj" ++ nl.

Definition objFooter : jsstring := nl ++ lit "endobj" ++ nl.

Definition fullObj (id : nat) (content : jsstring) : jsstring :=
  objHeader id ++ content ++ objFooter.

Definition addObject (id : nat) (content : jsstring) (s : Ser.t) : Ser.t :=
  Ser.mk (Ser.buffer s ++ fullObj id content)
    (Ser.currentOffset s + length (fullObj id content))
    (<[id := Ser.currentOffset s]> (Ser.xref s)).

Definition digitValue (c : Z) : option nat :=
  if (48 <=? c)%Z && (c <=? 57)%Z then Some (Z.to_nat (c - 48)) else None.

Fixpoint parseDigits (acc : option nat) (s : jsstring) : option nat :=
  match s with
  | [] => acc
  | c :: rest =>
      match digitValue c with
      | Some v => parseDigits (Some (10 * default 0 acc + v)) rest
      | None => acc
      end
  end.

(** [parseInt(s)] on what [addText] stores, a string of decimal digits:
    the value of the leading digits, [None] ([NaN]) when there is none.
    (Signs, leading blanks and the [0x] prefix do not occur in a
    resource name.) *)
Definition parseInt10 (s : jsstring) : option nat := parseDigits None s.

(** [fontName] for the resource name [f]: [standardFonts[keys[index]]],
    printed [undefined] when the index is outside the table. *)
Definition baseFontOf (f : jsstring) : jsstring :=
  match parseInt10 (drop 1 f) with
  | Some (S fontIndex) =>
      match standardFontKeys !! fontIndex with
      | Some fontKey =>
          match ownProperty standardFonts fontKey with
          | Some fontName => fontName
          | None => lit "undefined"
          end
      | None => lit "undefined"
      end
  | _ => lit "undefined"
  end.

Definition fontEntry (f : jsstring) : jsstring :=
  lit "/" ++ f ++ lit " << /Type /Font /Subtype /Type1 /BaseFont /"
  ++ baseFontOf f ++ lit " >> ".

Definition fontRes (page : Page.t) : jsstring :=
  match Resources.fonts (Page.resources page) with
  | [] => []
  | fonts => lit "/Font << " ++ flat_map fontEntry fonts ++ lit ">>"
  end.

(** The entries of the [/XObject] dictionary; [None] when a key has no
    image in the registry ([img.id] of [undefined]). *)
Fixpoint xObjectEntries (m : list (jsstring * ImageEntry.t))
    (keys : list jsstring) : option jsstring :=
  match keys with
  | [] => Some []
  | imgKey :: rest =>
      match imagesGet m imgKey with
      | None => None
      | Some img =>
          match xObjectEntries m rest with
          | None => None
          | Some tail =>
              Some (lit "/" ++ imgKey ++ lit " " ++ natToString (ImageEntry.id img)
                    ++ lit " 0 R " ++ tail)
          end
      end
  end.

Definition xObjectRes (m : list (jsstring * ImageEntry.t)) (page : Page.t)
  : option jsstring :=
  match Resources.images (Page.resources page) with
  | [] => Some []
  | keys =>
      match xObjectEntries m keys with
      | Some entries => Some (lit "/XObject << " ++ entries ++ lit ">>")
      | None => None
      end
  end.

Definition catalogObject (pagesRootId : nat) : jsstring :=
  lit "<< /Type /Catalog /Pages " ++ natToString pagesRootId ++ lit " 0 R >>".

Definition pagesRootObject (ps : list Page.t) : jsstring :=
  lit "<< /Type /Pages /Kids ["
  ++ join (lit " ") (map (fun p => natToString (Page.id p) ++ lit " 0 R") ps)
  ++ lit "] /Count " ++ natToString (length ps) ++ lit " >>".

Definition pageObject (pagesRootId : nat) (resources : jsstring) (page : Page.t)
  : jsstring :=
  lit "<< /Type /Page /Parent " ++ natToString pagesRootId
  ++ lit " 0 R /MediaBox [0 0 595.28 841.89] /Contents "
  ++ natToString (Page.contentId page) ++ lit " 0 R /Resources " ++ resources
  ++ lit " >>".

Definition streamObject (page : Page.t) : jsstring :=
  let streamContent := join nl (Page.content page) in
  lit "<< /Length " ++ natToString (length streamContent) ++ lit " >>" ++ nl
  ++ lit "stream" ++ nl ++ streamContent ++ nl ++ lit "endstream".

(** The body of [this.pages.forEach]. *)
Definition emitPage (pagesRootId : nat) (m : list (jsstring * ImageEntry.t))
    (page : Page.t) (s : Ser.t) : option Ser.t :=
  match xObjectRes m page with
  | None => None
  | Some xObj =>
      let resources := lit "<< " ++ fontRes page ++ lit " " ++ xObj ++ lit " >>" in
      let s := addObject (Page.id page) (pageObject pagesRootId resources page) s in
      Some (addObject (Page.contentId page) (streamObject page) s)
  end.

Fixpoint emitPages (pagesRootId : nat) (m : list (jsstring * ImageEntry.t))
    (ps : list Page.t) (s : Ser.t) : option Ser.t :=
  match ps with
  | [] => Some s
  | page :: rest =>
      match emitPage pagesRootId m page s with
      | None => None
      | Some s' => emitPages pagesRootId m rest s'
      end
  end.

Definition imageObject (img : ImageEntry.t) (binaryString : jsstring) : jsstring :=
  lit "<< /Type /XObject /Subtype /Image /Width "
  ++ numberToString (ImageEntry.width img) ++ lit " /Height "
  ++ numberToString (ImageEntry.height img)
  ++ lit " /ColorSpace /DeviceRGB /BitsPerComponent 8 /Filter /DCTDecode /Length "
  ++ natToString (length binaryString) ++ lit " >>" ++ nl
  ++ lit "stream" ++ nl ++ binaryString ++ nl ++ lit "endstream".

(** [this.images.forEach]; [None] when [atob] throws. *)
Fixpoint emitImages (m : list (jsstring * ImageEntry.t)) (s : Ser.t)
  : option Ser.t :=
  match m with
  | [] => Some s
  | (_, img) :: rest =>
      match atob (ImageEntry.data img) with
      | None => None
      | Some binaryString =>
          emitImages rest (addObject (ImageEntry.id img) (imageObject img binaryString) s)
      end
  end.

Definition xrefLine (offset : nat) : jsstring :=
  padStart10 (natToString offset) ++ lit " 00000 n " ++ nl.

(** The loop over [i = 1 .. objectCounter - 1]; [None] when [xref[i]] is
    [undefined]. *)
Fixpoint xrefLines (xref : gmap nat nat) (ids : list nat) : option jsstring :=
  match ids with
  | [] => Some []
  | i :: rest =>
      match xref !! i with
      | None => None
      | Some offset =>
          match xrefLines xref rest with
          | None => None
          | Some tail => Some (xrefLine offset ++ tail)
          end
      end
  end.

Definition pdfHeader : jsstring := lit "%PDF-1.7" ++ nl.

Definition xrefHead (objectCounter : nat) : jsstring :=
  lit "xref" ++ nl ++ lit "0 " ++ natToString objectCounter ++ nl
  ++ lit "0000000000 65535 f " ++ nl.

Definition trailer (objectCounter catalogId xrefOffset : nat) : jsstring :=
  lit "trailer" ++ nl ++ lit "<< /Size " ++ natToString objectCounter
  ++ lit " /Root " ++ natToString catalogId ++ lit " 0 R >>" ++ nl
  ++ lit "startxref" ++ nl ++ natToString xrefOffset ++ nl ++ lit "%%EOF".

(** [array[i] = buffer.charCodeAt(i) & 0xff]. *)
Definition toBytes (buffer : jsstring) : list Z :=
  map (fun c => Z.land c 255) buffer.

(** Steps 2 to 6 of [buildPdf]: the objects, in the order they are
    added. *)
Definition emitObjects (catalogId pagesRootId : nat) (d : PdfCreator)
  : result Ser.t :=
  let s := Ser.mk pdfHeader (length pdfHeader) {[ 0 := 0 ]} in
  let s := addObject catalogId (catalogObject pagesRootId) s in
  let s := addObject pagesRootId (pagesRootObject (pages d)) s in
  match emitPages pagesRootId (images d) (pages d) s with
  | None => Throw TypeError d
  | Some s =>
      match emitImages (images d) s with
      | None => Throw InvalidCharacterError d
      | Some s => Return s d
      end
  end.

Definition buildPdf (fuel : nat) : M (list Z) :=
  applyHeaderFooter fuel ;;
  fun d =>
    let '(catalogId, d) := getNextId d in
    let '(pagesRootId, d) := getNextId d in
    match emitObjects catalogId pagesRootId d with
    | Return s d =>
        let xrefOffset := Ser.currentOffset s in
        match xrefLines (Ser.xref s) (seq 1 (objectCounter d - 1)) with
        | None => Throw TypeError d
        | Some lines =>
            let buffer :=
              Ser.buffer s ++ xrefHead (objectCounter d) ++ lines
              ++ trailer (objectCounter d) catalogId xrefOffset in
            Return (toBytes buffer) d
        end
    | Throw e d => Throw e d
    | OutOfFuel => OutOfFuel
    end.

End Model.

(** ** Vocabulary of the properties *)

Definition isAddPage (c : Call) : bool :=
  match c with
  | CallAddPage => true
  | _ => false
  end.

(** A callback that places text and images but starts no page. *)
Definition placesOnly (cb : option Callback) : Prop :=
  match cb with
  | Some f => forall n, existsb isAddPage (f n) = false
  | None => True
  end.

Definition callbacksPlaceOnly (cfg : PdfConfig.t) : Prop :=
  placesOnly (PdfConfig.onHeader cfg) /\ placesOnly (PdfConfig.onFooter cfg).

(** The object ids the document holds: a page id and a content-stream
    id per page, then an id per image. *)
Definition pageIds (ps : list Page.t) : list nat :=
  flat_map (fun p => [Page.id p; Page.contentId p]) ps.

Definition imageIds (m : list (jsstring * ImageEntry.t)) : list nat :=
  map (fun kv => ImageEntry.id (snd kv)) m.

Definition entityIds (d : PdfCreator) : list nat :=
  pageIds (pages d) ++ imageIds (images d).

(** The ids of the objects a build writes, given the document it leaves:
    the catalog and the page-tree root got the last two ids issued. *)
Definition catalogIdOf (d : PdfCreator) : nat := objectCounter d - 2.
Definition pagesRootIdOf (d : PdfCreator) : nat := objectCounter d - 1.

Definition emittedIds (d : PdfCreator) : list nat :=
  catalogIdOf d :: pagesRootIdOf d :: entityIds d.

(** [n] successive calls of [getNextId]. *)
Fixpoint allocate (n : nat) (d : PdfCreator) : list nat * PdfCreator :=
  match n with
  | O => ([], d)
  | S n' =>
      let '(id, d1) := getNextId d in
      let '(ids, d2) := allocate n' d1 in
      (id :: ids, d2)
  end.

(** [this.pages[this.currentPageIndex]] is a page. *)
Definition validIndex (d : PdfCreator) : Prop :=
  (0 <= currentPageIndex d < Z.of_nat (length (pages d)))%Z.

(** The bytes [pat] stand in [bytes] from index [off] on. *)
Definition beginsAt (pat : list Z) (off : nat) (bytes : list Z) : Prop :=
  take (length pat) (drop off bytes) = pat.

(** The document a call leaves behind, whether it returned or threw. *)
Definition after {A} (r : result A) : option PdfCreator :=
  match r with
  | Return _ d => Some d
  | Throw _ d => Some d
  | OutOfFuel => None
  end.

(** The public methods, each awaited before the next is called
    ([getOutput] and [save] both run [buildPdf]). *)
Inductive ApiCall :=
| ApiAddPage
| ApiAddText (text : jsstring) (x y : Q) (options : TextOptions.t)
| ApiAddImage (imageData : jsstring) (x y : Q) (options : ImageOptions.t)
| ApiGetOutput (fuel : nat).

Definition isDrawing (c : ApiCall) : bool :=
  match c with
  | ApiGetOutput _ => false
  | _ => true
  end.

Section Sessions.
Context {host : Host}.

Definition perform (c : ApiCall) (d : PdfCreator) : option PdfCreator :=
  match c with
  | ApiAddPage => Some (addPage d)
  | ApiAddText text x y options => after (addText text x y options d)
  | ApiAddImage imageData x y options => after (addImage imageData x y options d)
  | ApiGetOutput fuel => after (buildPdf fuel d)
  end.

(** The documents a client can hold: constructed with [cfg], then
    driven through the public methods. *)
Inductive reachable (cfg : PdfConfig.t) : PdfCreator -> Prop :=
| reachable_new : reachable cfg (constructor cfg)
| reachable_call d c d' :
    reachable cfg d -> perform c d = Some d' -> reachable cfg d'.

(** The documents no output was asked of yet. *)
Inductive drawn (cfg : PdfConfig.t) : PdfCreator -> Prop :=
| drawn_new : drawn cfg (constructor cfg)
| drawn_call d c d' :
    drawn cfg d -> isDrawing c = true -> perform c d = Some d' -> drawn cfg d'.

End Sessions.

(** [d'] is [d] after some calls: same set-up, no page lost, and the ids
    issued in between are the consecutive ones from [objectCounter d]
    on, each held by one entity. *)
Definition extends (d d' : PdfCreator) : Prop :=
  config d' = config d
  /\ headerHeight d' = headerHeight d
  /\ footerHeight d' = footerHeight d
  /\ length (pages d) <= length (pages d')
  /\ exists k, objectCounter d' = objectCounter d + k
              /\ entityIds d' ≡ₚ entityIds d ++ seq (objectCounter d) k.

(** Every id held is one that was issued, and none is held twice. *)
Definition idsDistinct (d : PdfCreator) : Prop :=
  1 <= objectCounter d
  /\ NoDup (entityIds d)
  /\ Forall (fun i => 1 <= i < objectCounter d) (entityIds d).

(** Every id issued is held. *)
Definition idsCovered (d : PdfCreator) : Prop :=
  1 <= objectCounter d
  /\ entityIds d ≡ₚ seq 1 (objectCounter d - 1).

(** [d'] is [d] after some calls, and still has a current page if [d]
    had one. *)
Definition evolves (d d' : PdfCreator) : Prop :=
  extends d d' /\ (validIndex d -> validIndex d').

(** Every document the computation [m] can leave is an evolution of the
    one it started from. *)
Definition evolving {A} (m : M A) : Prop :=
  forall d d', after (m d) = Some d' -> evolves d d'.

Section Shapes.
Context {host : Host}.

(** The test of the overflow rule, for content of height [extent]: the
    sum and the difference are rounded before they are compared. *)
Definition overflows (extent y : Q) (d : PdfCreator) : bool :=
  negb (isApplyingHeaderFooter d)
  && Qgtb (double (y + extent)) (double (PAGE_HEIGHT - footerHeight d)).

(** The page [addText] leaves, for text placed at [y]. *)
Definition pageWithText (text : jsstring) (x y : Q) (options : TextOptions.t)
    (p : Page.t) : Page.t :=
  let size := default (12 # 1) (TextOptions.size options) in
  let fontKey :=
    fontKeyOf (default (lit "helvetica") (TextOptions.font options))
      (default (lit "normal") (TextOptions.style options)) in
  Page.mk (Page.id p) (Page.contentId p)
    (Page.content p
     ++ [textFragment (fontResourceNameOf fontKey) size
           (hexToRgb (default (lit "#000000") (TextOptions.color options)))
           (alignedX (default AlignLeft (TextOptions.align options)) x text size)
           (PAGE_HEIGHT - y)%Q text])
    (Resources.mk
       (setAdd (fontResourceNameOf fontKey) (Resources.fonts (Page.resources p)))
       (Resources.images (Page.resources p))).

(** The page [addImage] leaves, for an image placed at [y] under the
    registry key [imageKey]. *)
Definition pageWithImage (imageKey : jsstring) (x y : Q)
    (options : ImageOptions.t) (p : Page.t) : Page.t :=
  Page.mk (Page.id p) (Page.contentId p)
    (Page.content p
     ++ [imageFragment options x
           (PAGE_HEIGHT - y - ImageOptions.height options)%Q imageKey])
    (Resources.mk (Resources.fonts (Page.resources p))
       (setAdd imageKey (Resources.images (Page.resources p)))).

(** The page [addPage] appends when the counter stands at [n]. *)
Definition blankPage (n : nat) : Page.t :=
  Page.mk n (S n) [] (Resources.mk [] []).

End Shapes.

Section Bands.
Context {host : Host}.

(** What the calls of a callback leave of the page they are issued
    against during the pass: text is added where it is asked, an image
    call is still waiting for its image, no page is started. *)
Fixpoint callsOnPage (cs : list Call) (p : Page.t) : Page.t :=
  match cs with
  | [] => p
  | CallAddText text x y options :: rest =>
      callsOnPage rest (pageWithText text x y options p)
  | _ :: rest => callsOnPage rest p
  end.

Definition headerOnPage (cfg : PdfConfig.t) (pageNum : nat) (p : Page.t)
  : Page.t :=
  match PdfConfig.onHeader cfg with
  | Some onHeader => callsOnPage (onHeader pageNum) p
  | None =>
      match PdfConfig.defaultHeader cfg with
      | Some h =>
          let align := default AlignCenter (DefaultHeaderConfig.align h) in
          let color := default (lit "#000000") (DefaultHeaderConfig.color h) in
          match default [] (DefaultHeaderConfig.text h) with
          | [] => p
          | text =>
              pageWithText text (anchorX align) (20 # 1) (bandOptions align color) p
          end
      | None => p
      end
  end.

Definition footerOnPage (cfg : PdfConfig.t) (pageNum : nat) (p : Page.t)
  : Page.t :=
  match PdfConfig.onFooter cfg with
  | Some onFooter => callsOnPage (onFooter pageNum) p
  | None =>
      match PdfConfig.defaultFooter cfg with
      | Some f =>
          let align := default AlignCenter (DefaultFooterConfig.align f) in
          let color := default (lit "#000000") (DefaultFooterConfig.color f) in
          match footerTextOf (default [] (DefaultFooterConfig.text f))
                  (default true (DefaultFooterConfig.showPageNumbers f)) pageNum with
          | [] => p
          | footerText =>
              pageWithText footerText (anchorX align) (820 # 1)
                (bandOptions align color) p
          end
      | None => p
      end
  end.

(** Page number [pageNum] after its turn of the pass. *)
Definition decorate (cfg : PdfConfig.t) (pageNum : nat) (p : Page.t) : Page.t :=
  footerOnPage cfg pageNum (headerOnPage cfg pageNum p).

(** The document after the pass, when the callbacks start no page. *)
Definition decorated (d : PdfCreator) : PdfCreator :=
  mkPdfCreator (config d)
    (imap (fun i p => decorate (config d) (i + 1) p) (pages d))
    (currentPageIndex d) (objectCounter d) (images d)
    (headerHeight d) (footerHeight d) false.


End Bands.

Section Layout.
Context {host : Host}.

(** The objects [buildPdf] adds, as [(id, content)] pairs in the order
    they are added, read off the document the build leaves.  [None] when
    the build throws among them. *)
Definition pageObjects (pagesRootId : nat) (m : list (jsstring * ImageEntry.t))
    (page : Page.t) : option (list (nat * jsstring)) :=
  match xObjectRes m page with
  | Some xObj =>
      Some [ (Page.id page,
              pageObject pagesRootId
                (lit "<< " ++ fontRes page ++ lit " " ++ xObj ++ lit " >>") page);
             (Page.contentId page, streamObject page) ]
  | None => None
  end.

Fixpoint pagesObjects (pagesRootId : nat) (m : list (jsstring * ImageEntry.t))
    (ps : list Page.t) : option (list (nat * jsstring)) :=
  match ps with
  | [] => Some []
  | page :: rest =>
      match pageObjects pagesRootId m page, pagesObjects pagesRootId m rest with
      | Some a, Some b => Some (a ++ b)
      | _, _ => None
      end
  end.

Fixpoint imagesObjects (m : list (jsstring * ImageEntry.t))
  : option (list (nat * jsstring)) :=
  match m with
  | [] => Some []
  | (_, img) :: rest =>
      match atob (ImageEntry.data img), imagesObjects rest with
      | Some binaryString, Some tail =>
          Some ((ImageEntry.id img, imageObject img binaryString) :: tail)
      | _, _ => None
      end
  end.

Definition objectsOf (d : PdfCreator) : option (list (nat * jsstring)) :=
  match pagesObjects (pagesRootIdOf d) (images d) (pages d),
        imagesObjects (images d) with
  | Some ps, Some ims =>
      Some ((catalogIdOf d, catalogObject (pagesRootIdOf d))
            :: (pagesRootIdOf d, pagesRootObject (pages d))
            :: ps ++ ims)
  | _, _ => None
  end.

Definition addObjects (objs : list (nat * jsstring)) (s : Ser.t) : Ser.t :=
  fold_left (fun s o => addObject (fst o) (snd o) s) objs s.

(** The text of the objects, one after the other. *)
Definition objectsText (objs : list (nat * jsstring)) : jsstring :=
  flat_map (fun o => fullObj (fst o) (snd o)) objs.

(** What [addObject] keeps true of its three variables: the offset is
    the length of the buffer, and an offset recorded for an id is where
    that id's header starts. *)
Definition serConsistent (s : Ser.t) : Prop :=
  Ser.currentOffset s = length (Ser.buffer s)
  /\ forall k off,
       k <> 0 -> Ser.xref s !! k = Some off ->
       take (length (objHeader k)) (drop off (Ser.buffer s)) = objHeader k.

(** Every image a page names is in the registry. *)
Definition imagesRegistered (d : PdfCreator) : Prop :=
  forall p key,
    p ∈ pages d -> key ∈ Resources.images (Page.resources p) ->
    is_Some (imagesGet (images d) key).

(** [atob] accepts the data of every registered image. *)
Definition imagesDecodable (d : PdfCreator) : Prop :=
  forall key img, (key, img) ∈ images d -> is_Some (atob (ImageEntry.data img)).

End Layout.


(** ** Sample hosts and documents *)

(** A host for the examples: numbers print as the decimal of their
    integer part (exact on the integers used there), every image source
    decodes to itself, and [atob] is the identity. *)
Definition sampleHost : Host :=
  {| numberToString := fun q =>
       (if (Qnum q <? 0)%Z then lit "-" else [])
       ++ natToString (Z.to_nat (Z.abs (Qnum q) / Z.pos (Qden q)));
     processImage := fun s => Some s;
     atob := fun s => Some s |}.

(** A host whose image pipeline rejects every source. *)
Definition offlineHost : Host :=
  {| numberToString := @numberToString sampleHost;
     processImage := fun _ => None;
     atob := fun s => Some s |}.

(** [new PdfCreator()]. *)
Definition plainDoc : PdfCreator := constructor PdfConfig.none.





Definition squareImage : ImageOptions.t :=
  ImageOptions.mk (100 # 1) (100 # 1) None.

(** [{ font: 'Arial' }]: a family the table does not list. *)
Definition arialOptions : TextOptions.t :=
  TextOptions.mk None (Some (lit "Arial")) None None None.

Section Scripts.
Context {host : Host}.

(** A script of awaited calls, run as far as it goes. *)
Fixpoint performAll (cs : list ApiCall) (d : PdfCreator) : PdfCreator :=
  match cs with
  | [] => d
  | c :: rest =>
      match perform c d with
      | Some d' => performAll rest d'
      | None => d
      end
  end.

End Scripts.

(** The basic example of the README: a red title, an image, a second
    page with a line of text. *)
Definition readmeCalls : list ApiCall :=
  [ ApiAddText (lit "Hello World") (20 # 1) (20 # 1)
      (TextOptions.mk (Some (24 # 1)) None None (Some (lit "#FF0000")) None);
    ApiAddImage (lit "data:image/jpeg;base64,/9j/4AAQ") (20 # 1) (50 # 1) squareImage;
    ApiAddPage;
    ApiAddText (lit "Page 2") (20 # 1) (20 # 1) TextOptions.none ].

Definition readmeDoc : PdfCreator := @performAll sampleHost readmeCalls plainDoc.

(** Its output, and the document the build leaves. *)
Definition readmeBytes : list Z :=
  match @buildPdf sampleHost 2 readmeDoc with
  | Return bytes _ => bytes
  | _ => []
  end.

Definition readmeBuilt : PdfCreator :=
  match @buildPdf sampleHost 2 readmeDoc with
  | Return _ d' => d'
  | _ => readmeDoc
  end.






(** The numbers [829.89] and [12.00000000000005], and text of that
    size. *)
Definition boundaryY : Q := double (82989 # 100).
Definition boundarySize : Q := double (1200000000000005 # 100000000000000).

(** ** Vocabulary of the further properties *)

(** The units [escapeText] escapes: backslash and the two parentheses. *)
Definition isSpecialUnit (c : Z) : bool :=
  ((c =? 92) || (c =? 40) || (c =? 41))%Z.

(** What [escapeText] writes for one unit. *)
Definition escapeUnit (c : Z) : jsstring :=
  if isSpecialUnit c then [92%Z; c] else [c].

(** A reader of the body of a PDF literal string in which every
    backslash and parenthesis is escaped: a backslash stands before a
    backslash or a parenthesis and is dropped, and no parenthesis stands
    bare.  [None] when the body is not of that form. *)
Fixpoint readLiteral (s : jsstring) : option jsstring :=
  match s with
  | [] => Some []
  | c :: rest =>
      if (c =? 92)%Z then
        match rest with
        | e :: rest' =>
            if isSpecialUnit e then
              match readLiteral rest' with
              | Some t => Some (e :: t)
              | None => None
              end
            else None
        | [] => None
        end
      else if isSpecialUnit c then None
      else
        match readLiteral rest with
        | Some t => Some (c :: t)
        | None => None
        end
  end.

(** The font the table gives a key, as the serializer prints it. *)
Definition tableFontOf (fontKey : jsstring) : jsstring :=
  match ownProperty standardFonts fontKey with
  | Some fontName => fontName
  | None => lit "undefined"
  end.


(** A callback that starts a page whenever it is called. *)
Definition startsPage (cb : option Callback) : Prop :=
  match cb with
  | Some f => forall n, existsb isAddPage (f n) = true
  | None => False
  end.

(** [{ onHeader: (pdf) => { pdf.addPage(); } }]. *)
Definition growingConfig : PdfConfig.t :=
  PdfConfig.mk None None (Some (fun _ => [CallAddPage])) None None None.

(** The number of pages a callback starts on page [pageNum]. *)
Definition pagesStarted (cb : option Callback) (pageNum : nat) : nat :=
  match cb with
  | Some f => length (List.filter isAddPage (f pageNum))
  | None => 0
  end.


(** An id that was issued and that no page and no image holds. *)
Definition holed (d : PdfCreator) : Prop :=
  exists c, 1 <= c < objectCounter d /\ c ∉ entityIds d.


(** Page [p'] is page [p] with more drawn on it: what [p] holds stands
    first in [p'], in the same order. *)
Definition pageGrows (p p' : Page.t) : Prop :=
  Page.id p' = Page.id p
  /\ Page.contentId p' = Page.contentId p
  /\ Page.content p `prefix_of` Page.content p'
  /\ Resources.fonts (Page.resources p) `prefix_of` Resources.fonts (Page.resources p')
  /\ Resources.images (Page.resources p)
     `prefix_of` Resources.images (Page.resources p').

(** Document [d'] is document [d] with more drawn on it: the pages of
    [d] come first, each one grown, and the images of [d] come first in
    the registry. *)
Definition grows (d d' : PdfCreator) : Prop :=
  images d `prefix_of` images d'
  /\ objectCounter d <= objectCounter d'
  /\ exists ps more, pages d' = ps ++ more /\ Forall2 pageGrows (pages d) ps.

(** The registry holds its images under the keys [I1], [I2], ... in the
    order they came. *)
Definition keyed (d : PdfCreator) : Prop :=
  map fst (images d)
  = map (fun n => lit "I" ++ natToString n) (seq 1 (length (images d))).


(** The units of the base-64 alphabet, padding included. *)
Definition isBase64Unit (c : Z) : bool :=
  ((48 <=? c) && (c <=? 57) || (65 <=? c) && (c <=? 90)
   || (97 <=? c) && (c <=? 122) || (c =? 43) || (c =? 47) || (c =? 61))%Z.

(** A host that hands image sources on untouched and whose [atob]
    throws on a unit outside the base-64 alphabet. *)
Definition strictHost : Host :=
  {| numberToString := @numberToString sampleHost;
     processImage := fun s => Some s;
     atob := fun s => if forallb isBase64Unit s then Some s else None |}.

(** A document with one image whose data is not base-64. *)
Definition brokenImageDoc : PdfCreator :=
  @performAll strictHost
    [ApiAddImage (lit "not base64!") (20 # 1) (50 # 1) squareImage] plainDoc.

(** A configuration under which the pass draws nothing: no callback, no
    default header text, and no default footer or one with neither text
    nor page numbers. *)
Definition silent (cfg : PdfConfig.t) : bool :=
  match PdfConfig.onHeader cfg, PdfConfig.onFooter cfg with
  | None, None =>
      match PdfConfig.defaultHeader cfg with
      | Some h =>
          match default [] (DefaultHeaderConfig.text h) with
          | [] => true
          | _ => false
          end
      | None => true
      end
      && match PdfConfig.defaultFooter cfg with
         | Some f =>
             match footerTextOf (default [] (DefaultFooterConfig.text f))
                     (default true (DefaultFooterConfig.showPageNumbers f)) 0 with
             | [] => true
             | _ => false
             end
         | None => true
         end
  | _, _ => false
  end.

(** ** The editor's call of the constructor ([generatePdf] of the
    [PdfEditor] component) *)

(** [s.includes(pat)]. *)
Fixpoint includes (pat s : jsstring) : bool :=
  match s with
  | [] => startsWith pat []
  | _ :: rest => startsWith pat s || includes pat rest
  end.

(** [s.replace(pat, by_)] for a string pattern and a replacement without
    [$]: the first occurrence is replaced. *)
Fixpoint replaceFirst (pat by_ s : jsstring) : jsstring :=
  match s with
  | [] => if startsWith pat [] then by_ else []
  | c :: rest =>
      if startsWith pat s then by_ ++ drop (length pat) s
      else c :: replaceFirst pat by_ rest
  end.

(** The configuration [generatePdf] builds from the two text fields of
    the editor; an empty field is falsy. *)
Definition editorConfig (headerText footerText : jsstring) : PdfConfig.t :=
  PdfConfig.mk (Some (40 # 1)) (Some (40 # 1)) None None
    (match headerText with
     | [] => None
     | _ => Some (DefaultHeaderConfig.mk (Some headerText) (Some AlignCenter) None)
     end)
    (match footerText with
     | [] => None
     | _ =>
         Some (DefaultFooterConfig.mk
                 (Some (replaceFirst (lit "{pageNumber}") [] footerText))
                 (Some (includes (lit "{pageNumber}") footerText))
                 (Some AlignCenter) None)
     end).

(** The footer the document built by the editor carries on page
    [pageNum]. *)
Definition editorFooterText (footerText : jsstring) (pageNum : nat) : jsstring :=
  match PdfConfig.defaultFooter (editorConfig [] footerText) with
  | Some f =>
      footerTextOf (default [] (DefaultFooterConfig.text f))
        (default true (DefaultFooterConfig.showPageNumbers f)) pageNum
  | None => []
  end.


(** * Properties *)

(** The overflow test on a concrete document, by evaluation. *)
Ltac overflow_by_computation :=
  match goal with
  | |- context [overflows ?e ?y ?d] =>
      let b := eval vm_compute in (overflows e y d) in
      replace (overflows e y d) with b by (vm_compute; reflexivity)
  end.

(** ** Numbers *)

(** [double] at values whose nearest double is known: a tenth, the two
    page dimensions, the sum of a tenth and two tenths, which is not the
    double nearest to three tenths, and two integers half-way between
    doubles, which go to the neighbour with an even significand. *)
Example double_values :
  (double (1 # 10) == 3602879701896397 # 36028797018963968)%Q
  /\ (PAGE_WIDTH == 2618069127129989 # 4398046511104)%Q
  /\ (PAGE_HEIGHT == 7405342754466693 # 8796093022208)%Q
  /\ (double (double (1 # 10) + double (2 # 10))
      == 1351079888211149 # 4503599627370496)%Q
  /\ (double (3 # 10) == 5404319552844595 # 18014398509481984)%Q
  /\ (double (9007199254740993 # 1) == 9007199254740992 # 1)%Q
  /\ (double (9007199254740995 # 1) == 9007199254740996 # 1)%Q
  /\ (double (- (1 # 2)) == - (1 # 2))%Q.
Proof. repeat split; vm_compute; reflexivity. Qed.

(** A double is left as it is. *)
Example double_of_double :
  (double PAGE_HEIGHT == PAGE_HEIGHT)%Q
  /\ (double boundaryY == boundaryY)%Q
  /\ (double boundarySize == boundarySize)%Q.
Proof. repeat split; vm_compute; reflexivity. Qed.

(** ** Colours *)

Lemma hexDigit_isHexUnit c :
  isHexUnit c = true ->
  hexDigit c = Some (hexValue c) /\ (0 <= hexValue c <= 15)%Z.
Proof.
  unfold isHexUnit, hexDigit, hexValue. intros H.
  repeat match goal with
         | |- context [(?a <=? ?b)%Z] => destruct (Z.leb_spec a b)
         end; simpl in *; try discriminate; split; try reflexivity; lia.
Qed.

Lemma hexDigit_not_isHexUnit c : isHexUnit c = false -> hexDigit c = None.
Proof.
  unfold isHexUnit, hexDigit. intros H.
  repeat match goal with
         | |- context [(?a <=? ?b)%Z] => destruct (Z.leb_spec a b)
         end; simpl in *; try discriminate; reflexivity.
Qed.

Lemma parseInt16_pair hi lo :
  isHexUnit hi = true -> isHexUnit lo = true ->
  parseInt16 [hi; lo] = Some (componentValue hi lo)
  /\ (0 <= componentValue hi lo <= 255)%Z.
Proof.
  intros Hh Hl.
  destruct (hexDigit_isHexUnit _ Hh) as [Eh Bh].
  destruct (hexDigit_isHexUnit _ Hl) as [El Bl].
  unfold parseInt16, componentValue. simpl. rewrite Eh, El.
  split; [f_equal; lia | lia].
Qed.

Lemma parseInt16_pair_none hi lo :
  isHexUnit hi && isHexUnit lo = false -> parseInt16 [hi; lo] = None.
Proof.
  intros H. unfold parseInt16. simpl.
  destruct (isHexUnit hi) eqn:Eh.
  - destruct (hexDigit_isHexUnit _ Eh) as [-> _]. simpl in H.
    now rewrite (hexDigit_not_isHexUnit _ H).
  - now rewrite (hexDigit_not_isHexUnit _ Eh).
Qed.

Lemma channel_inUnit v : (0 <= v <= 255)%Z -> inUnit (inject_Z v / 255)%Q.
Proof.
  intros [H0 H1]. unfold inUnit, Qdiv, Qle, inject_Z. simpl. lia.
Qed.

(** What [matchGroups] returns on six units. *)
Lemma matchGroups_six r1 r2 g1 g2 b1 b2 :
  matchGroups [r1; r2; g1; g2; b1; b2] =
    if forallb isHexUnit [r1; r2; g1; g2; b1; b2]
    then Some (componentValue r1 r2, componentValue g1 g2, componentValue b1 b2)
    else None.
Proof.
  assert (pair_dec : forall hi lo,
             (isHexUnit hi && isHexUnit lo = true
              /\ parseInt16 [hi; lo] = Some (componentValue hi lo))
             \/ (isHexUnit hi && isHexUnit lo = false
                 /\ parseInt16 [hi; lo] = None)).
  { intros hi lo. destruct (isHexUnit hi && isHexUnit lo) eqn:E.
    - left. split; [reflexivity|].
      apply andb_true_iff in E as [E1 E2]. now apply parseInt16_pair.
    - right. split; [reflexivity|]. now apply parseInt16_pair_none. }
  unfold matchGroups. cbn [forallb].
  destruct (pair_dec r1 r2) as [[Er Pr]|[Er Pr]],
           (pair_dec g1 g2) as [[Eg Pg]|[Eg Pg]],
           (pair_dec b1 b2) as [[Eb Pb]|[Eb Pb]];
    rewrite ?Pr, ?Pg, ?Pb;
    rewrite !andb_assoc, ?andb_true_r;
    rewrite <- ?(andb_assoc (isHexUnit r1 && isHexUnit r2));
    rewrite Er; cbn [andb]; try reflexivity;
    rewrite ?Eg; cbn [andb]; try reflexivity;
    rewrite <- ?andb_assoc, ?Eb, ?Eg; reflexivity.
Qed.

Lemma matchGroups_length s : length s <> 6%nat -> matchGroups s = None.
Proof.
  intros H. do 7 (destruct s as [|? s]; simpl in *; try reflexivity; try lia).
Qed.

Lemma matchGroups_forallb s :
  matchGroups s =
    if (length s =? 6)%nat && forallb isHexUnit s
    then match s with
         | [r1; r2; g1; g2; b1; b2] =>
             Some (componentValue r1 r2, componentValue g1 g2, componentValue b1 b2)
         | _ => None
         end
    else None.
Proof.
  destruct (Nat.eqb_spec (length s) 6) as [E|E].
  - do 7 (destruct s as [|? s]; try discriminate E).
    rewrite matchGroups_six. cbn [andb].
    destruct (forallb _ _); reflexivity.
  - now rewrite matchGroups_length.
Qed.

Lemma hexRegexExec_matches s :
  hexRegexExec s =
    if matchesOptHashRRGGBB s then matchGroups (hexBody s) else None.
Proof.
  unfold hexRegexExec, matchesOptHashRRGGBB, hexBody.
  destruct (afterHash s) as [rest|] eqn:E.
  - destruct s as [|c s]; [discriminate|]. simpl in E.
    destruct (Z.eqb_spec c 35); [|discriminate]. injection E as ->. subst c.
    rewrite (matchGroups_forallb rest).
    destruct ((length rest =? 6)%nat && forallb isHexUnit rest) eqn:M.
    + apply andb_true_iff in M as [M _]. apply Nat.eqb_eq in M.
      do 7 (destruct rest as [|? rest]; try discriminate M). reflexivity.
    + rewrite (matchGroups_forallb (35%Z :: rest)).
      destruct (length (35%Z :: rest) =? 6)%nat; reflexivity.
  - rewrite (matchGroups_forallb s).
    destruct ((length s =? 6)%nat && forallb isHexUnit s); reflexivity.
Qed.

(** C8 (amended): a string of six hexadecimal digits, with or without
    the leading number sign, decodes to the three channels
    [component / 255], each within [[0, 1]]; every other string decodes
    to black. *)
Theorem hexToRgb_components (s : jsstring) :
  if matchesOptHashRRGGBB s then
    exists r1 r2 g1 g2 b1 b2,
      hexBody s = [r1; r2; g1; g2; b1; b2]
      /\ (Rgb.r (hexToRgb s) == inject_Z (componentValue r1 r2) / 255)%Q
      /\ (Rgb.g (hexToRgb s) == inject_Z (componentValue g1 g2) / 255)%Q
      /\ (Rgb.b (hexToRgb s) == inject_Z (componentValue b1 b2) / 255)%Q
      /\ inUnit (Rgb.r (hexToRgb s))
      /\ inUnit (Rgb.g (hexToRgb s))
      /\ inUnit (Rgb.b (hexToRgb s))
  else hexToRgb s = Rgb.mk 0 0 0.
Proof.
  unfold hexToRgb. rewrite hexRegexExec_matches.
  destruct (matchesOptHashRRGGBB s) eqn:M; [|reflexivity].
  assert (B : (length (hexBody s) =? 6)%nat && forallb isHexUnit (hexBody s) = true).
  { unfold matchesOptHashRRGGBB, hexBody in *. now destruct (afterHash s). }
  rewrite matchGroups_forallb, B.
  apply andb_true_iff in B as [L F]. apply Nat.eqb_eq in L.
  destruct (hexBody s) as [|r1 [|r2 [|g1 [|g2 [|b1 [|b2 [|? ?]]]]]]];
    try discriminate L.
  cbn [forallb] in F.
  repeat (apply andb_true_iff in F as [? F]).
  exists r1, r2, g1, g2, b1, b2. cbn [Rgb.r Rgb.g Rgb.b].
  repeat split; try reflexivity;
    apply channel_inUnit; now apply parseInt16_pair.
Qed.

(** C8, as stated, fails: [ff0000] is not of the shape [#RRGGBB], and it
    does not decode to black. *)
Lemma hexToRgb_hashless_not_black :
  matchesHashRRGGBB (lit "ff0000") = false
  /\ ~ isBlack (hexToRgb (lit "ff0000")).
Proof.
  split; [reflexivity|].
  intros [H _]. vm_compute in H. discriminate H.
Qed.

(** ** Pages and the allocator *)

Lemma pageIds_app ps qs : pageIds (ps ++ qs) = pageIds ps ++ pageIds qs.
Proof. unfold pageIds. apply flat_map_app. Qed.

Lemma pageIds_insert ps n p p' :
  ps !! n = Some p ->
  Page.id p' = Page.id p -> Page.contentId p' = Page.contentId p ->
  pageIds (<[n := p']> ps) = pageIds ps.
Proof.
  revert n. induction ps as [|q ps IH]; intros [|n] H Hi Hc; simpl in *;
    try discriminate.
  - injection H as ->. now rewrite Hi, Hc.
  - f_equal. f_equal. now apply IH.
Qed.

Lemma pageAt_Some ps i p :
  pageAt ps i = Some p ->
  (0 <= i < Z.of_nat (length ps))%Z /\ ps !! Z.to_nat i = Some p.
Proof.
  unfold pageAt. destruct (Z.ltb_spec i 0) as [Hneg|Hpos]; [discriminate|].
  intros H. split; [|exact H]. apply lookup_lt_Some in H. lia.
Qed.

Lemma pageAt_valid ps i :
  (0 <= i < Z.of_nat (length ps))%Z -> exists p, pageAt ps i = Some p.
Proof.
  intros H. unfold pageAt. destruct (Z.ltb_spec i 0) as [Hneg|Hpos]; [lia|].
  apply lookup_lt_is_Some. lia.
Qed.

Lemma addPage_pages d :
  pages (addPage d) = pages d ++ [blankPage (objectCounter d)].
Proof. reflexivity. Qed.

Lemma addPage_counter d : objectCounter (addPage d) = S (S (objectCounter d)).
Proof. reflexivity. Qed.

Lemma addPage_index d :
  currentPageIndex (addPage d) = Z.of_nat (length (pages d)).
Proof.
  unfold addPage. simpl. rewrite length_app. simpl. lia.
Qed.

Lemma addPage_validIndex d : validIndex (addPage d).
Proof.
  unfold validIndex. rewrite addPage_index, addPage_pages, length_app.
  simpl. lia.
Qed.


Lemma extends_refl d : extends d d.
Proof.
  repeat split; try reflexivity. exists 0. simpl.
  now rewrite Nat.add_0_r, app_nil_r.
Qed.

Lemma extends_trans d1 d2 d3 : extends d1 d2 -> extends d2 d3 -> extends d1 d3.
Proof.
  intros (C1 & H1 & F1 & L1 & k1 & N1 & P1) (C2 & H2 & F2 & L2 & k2 & N2 & P2).
  repeat split; try congruence; try lia.
  exists (k1 + k2). split; [lia|].
  rewrite P2, P1, N1, seq_app, <- app_assoc. reflexivity.
Qed.

Lemma addPage_extends d : extends d (addPage d).
Proof.
  repeat split; try reflexivity.
  - rewrite addPage_pages, length_app. lia.
  - exists 2. split; [rewrite addPage_counter; lia|].
    unfold entityIds. rewrite addPage_pages, pageIds_app. simpl.
    rewrite <- !app_assoc. apply Permutation_app_head.
    apply Permutation_app_comm.
Qed.

Lemma storePage_extends d i p p' :
  pageAt (pages d) i = Some p ->
  Page.id p' = Page.id p -> Page.contentId p' = Page.contentId p ->
  extends d (storePage i p' d).
Proof.
  intros H Hi Hc. apply pageAt_Some in H as [_ H].
  repeat split; try reflexivity.
  - unfold storePage. simpl. now rewrite length_insert.
  - exists 0. split; [simpl; lia|].
    unfold entityIds, storePage. simpl.
    rewrite (pageIds_insert _ _ p) by assumption. now rewrite app_nil_r.
Qed.

Lemma extends_idsDistinct d d' : extends d d' -> idsDistinct d -> idsDistinct d'.
Proof.
  intros (_ & _ & _ & _ & k & N & P) (H1 & ND & B).
  split; [lia|]. split.
  - rewrite P. apply NoDup_app. split; [exact ND|]. split; [|apply NoDup_seq].
    intros i Hi Hs. rewrite Forall_forall in B. apply B in Hi.
    apply elem_of_seq in Hs. lia.
  - rewrite P. apply Forall_app. split.
    + eapply Forall_impl; [exact B|]. simpl. intros; lia.
    + apply Forall_forall. intros i Hs. apply elem_of_seq in Hs. lia.
Qed.

Lemma extends_idsCovered d d' : extends d d' -> idsCovered d -> idsCovered d'.
Proof.
  intros (_ & _ & _ & _ & k & N & P) (H1 & C).
  split; [lia|]. rewrite P, C, N.
  replace (objectCounter d + k - 1) with ((objectCounter d - 1) + k) by lia.
  rewrite seq_app. replace (1 + (objectCounter d - 1)) with (objectCounter d) by lia.
  reflexivity.
Qed.

Lemma idsCovered_idsDistinct d : idsCovered d -> idsDistinct d.
Proof.
  intros (H1 & C). split; [exact H1|]. split.
  - rewrite C. apply NoDup_seq.
  - rewrite C. apply Forall_forall. intros i Hs. apply elem_of_seq in Hs. lia.
Qed.

Lemma constructor_idsCovered cfg : idsCovered (constructor cfg).
Proof.
  split; [simpl; lia|]. reflexivity.
Qed.

Lemma constructor_validIndex cfg : validIndex (constructor cfg).
Proof. apply addPage_validIndex. Qed.

(** ** Placement calls *)

Section Placement.
Context {host : Host}.

Lemma addText_unfold text x y options d :
  addText text x y options d =
    let size := default (12 # 1) (TextOptions.size options) in
    let d1 := if overflows size y d then addPage d else d in
    let y1 := if overflows size y d then double (headerHeight d + 20) else y in
    match pageAt (pages d1) (currentPageIndex d1) with
    | None => Throw TypeError d1
    | Some p =>
        Return y1 (storePage (currentPageIndex d1)
                     (pageWithText text x y1 options p) d1)
    end.
Proof.
  unfold addText, overflows.
  destruct (negb (isApplyingHeaderFooter d) && _); reflexivity.
Qed.

(** The registry after [addImageResume]'s [set], and the key it used. *)
Lemma addImageResume_unfold processedData x y options d :
  addImageResume processedData x y options d =
    let imageKey := lit "I" ++ natToString (length (images d) + 1) in
    let d2 :=
      match imagesGet (images d) imageKey with
      | Some _ => d
      | None =>
          with_images
            (images d ++ [(imageKey,
                           ImageEntry.mk (objectCounter d)
                             (ImageOptions.width options)
                             (ImageOptions.height options)
                             (stripDataUrlPrefix processedData))])
            (with_objectCounter (S (objectCounter d)) d)
      end in
    match pageAt (pages d2) (currentPageIndex d2) with
    | None => Throw TypeError d2
    | Some p =>
        Return y (storePage (currentPageIndex d2)
                    (pageWithImage imageKey x y options p) d2)
    end.
Proof.
  unfold addImageResume. simpl.
  destruct (imagesGet (images d) _); reflexivity.
Qed.

Lemma addImageEnter_unfold y options d :
  addImageEnter y options d =
    if overflows (ImageOptions.height options) y d
    then (double (headerHeight d + 20), addPage d)
    else (y, d).
Proof. reflexivity. Qed.

Lemma addImage_unfold imageData x y options d :
  addImage imageData x y options d =
    let d1 := snd (addImageEnter y options d) in
    let y1 := fst (addImageEnter y options d) in
    match processImage imageData with
    | None => Throw ImageError d1
    | Some processedData => addImageResume processedData x y1 options d1
    end.
Proof.
  unfold addImage. destruct (addImageEnter y options d). reflexivity.
Qed.

Lemma addImageEnter_extends y options d :
  extends d (snd (addImageEnter y options d)).
Proof.
  rewrite addImageEnter_unfold.
  destruct (overflows _ _ _); [apply addPage_extends | apply extends_refl].
Qed.

Lemma addText_extends text x y options d d' :
  after (addText text x y options d) = Some d' -> extends d d'.
Proof.
  rewrite addText_unfold. cbv zeta.
  set (d1 := if overflows _ y d then addPage d else d).
  assert (E1 : extends d d1).
  { subst d1. destruct (overflows _ _ _);
      [apply addPage_extends | apply extends_refl]. }
  destruct (pageAt (pages d1) (currentPageIndex d1)) as [p|] eqn:Hp; simpl;
    intros [= <-]; [|exact E1].
  eapply extends_trans; [exact E1|].
  now apply (storePage_extends _ _ p).
Qed.

Lemma addImageResume_extends processedData x y options d d' :
  after (addImageResume processedData x y options d) = Some d' -> extends d d'.
Proof.
  rewrite addImageResume_unfold. cbv zeta.
  set (key := lit "I" ++ natToString (length (images d) + 1)).
  set (d2 := match imagesGet (images d) key with Some _ => d | None => _ end).
  assert (E2 : extends d d2).
  { subst d2. destruct (imagesGet (images d) key); [apply extends_refl|].
    repeat split; try reflexivity. exists 1. split; [simpl; lia|].
    unfold entityIds, imageIds. simpl. rewrite map_app. simpl.
    now rewrite app_assoc. }
  destruct (pageAt (pages d2) (currentPageIndex d2)) as [p|] eqn:Hp; simpl;
    intros [= <-]; [|exact E2].
  eapply extends_trans; [exact E2|].
  now apply (storePage_extends _ _ p).
Qed.

Lemma addImage_extends imageData x y options d d' :
  after (addImage imageData x y options d) = Some d' -> extends d d'.
Proof.
  rewrite addImage_unfold. cbv zeta.
  pose proof (addImageEnter_extends y options d) as E1.
  destruct (processImage imageData).
  - intros H. eapply extends_trans; [exact E1|].
    eapply addImageResume_extends, H.
  - simpl. now intros [= <-].
Qed.

(** The current page stays a page. *)
Lemma storePage_validIndex d i p : validIndex d -> validIndex (storePage i p d).
Proof.
  unfold validIndex, storePage. simpl. now rewrite length_insert.
Qed.

Lemma addText_validIndex text x y options d d' :
  validIndex d -> after (addText text x y options d) = Some d' -> validIndex d'.
Proof.
  intros V. rewrite addText_unfold. cbv zeta.
  set (d1 := if overflows _ y d then addPage d else d).
  assert (V1 : validIndex d1).
  { subst d1. destruct (overflows _ _ _); [apply addPage_validIndex | exact V]. }
  destruct (pageAt (pages d1) (currentPageIndex d1)); simpl; intros [= <-];
    [now apply storePage_validIndex | exact V1].
Qed.

Lemma addImageEnter_validIndex y options d :
  validIndex d -> validIndex (snd (addImageEnter y options d)).
Proof.
  intros V. rewrite addImageEnter_unfold.
  destruct (overflows _ _ _); [apply addPage_validIndex | exact V].
Qed.

Lemma addImageResume_validIndex processedData x y options d d' :
  validIndex d ->
  after (addImageResume processedData x y options d) = Some d' -> validIndex d'.
Proof.
  intros V. rewrite addImageResume_unfold. cbv zeta.
  set (key := lit "I" ++ natToString (length (images d) + 1)).
  set (d2 := match imagesGet (images d) key with Some _ => d | None => _ end).
  assert (V2 : validIndex d2).
  { subst d2. destruct (imagesGet (images d) key); exact V. }
  destruct (pageAt (pages d2) (currentPageIndex d2)); simpl; intros [= <-];
    [now apply storePage_validIndex | exact V2].
Qed.

Lemma addImage_validIndex imageData x y options d d' :
  validIndex d ->
  after (addImage imageData x y options d) = Some d' -> validIndex d'.
Proof.
  intros V. rewrite addImage_unfold. cbv zeta.
  pose proof (addImageEnter_validIndex y options d V) as V1.
  destruct (processImage imageData).
  - now apply addImageResume_validIndex.
  - simpl. now intros [= <-].
Qed.

(** [addText] throws only when there is no current page. *)
Lemma addText_returns text x y options d :
  validIndex d -> exists y' d', addText text x y options d = Return y' d'.
Proof.
  intros V. rewrite addText_unfold. cbv zeta.
  set (d1 := if overflows _ y d then addPage d else d).
  assert (V1 : validIndex d1).
  { subst d1. destruct (overflows _ _ _); [apply addPage_validIndex | exact V]. }
  destruct (pageAt_valid _ _ V1) as [p ->]. eauto.
Qed.

End Placement.

(** ** The overflow rule *)

Section Overflow.
Context {host : Host}.



Lemma overflows_applying extent y d :
  isApplyingHeaderFooter d = true -> overflows extent y d = false.
Proof. intros F. unfold overflows. now rewrite F. Qed.






End Overflow.


(** ** The header and footer pass *)

Section Pass.
Context {host : Host}.

Lemma with_pages_id d : with_pages (pages d) d = d.
Proof. now destruct d. Qed.

Lemma storePage_same d i p :
  pageAt (pages d) i = Some p -> storePage i p d = d.
Proof.
  intros H. apply pageAt_Some in H as [_ H]. unfold storePage.
  rewrite list_insert_id by exact H. apply with_pages_id.
Qed.

Lemma storePage_twice d i p q :
  storePage i q (storePage i p d) = storePage i q d.
Proof.
  unfold storePage, with_pages. cbn. f_equal. apply list_insert_insert_eq.
Qed.

Lemma storePage_pageAt d i p q :
  pageAt (pages d) i = Some p ->
  pageAt (pages (storePage i q d)) i = Some q.
Proof.
  intros H. apply pageAt_Some in H as [B H]. unfold pageAt, storePage.
  destruct (Z.ltb_spec i 0) as [Hneg|Hpos]; [lia|]. cbn.
  apply list_lookup_insert_eq. lia.
Qed.

(** Under the guard a text call draws on the current page and nothing
    else changes. *)
Lemma addText_applying text x y options d p :
  isApplyingHeaderFooter d = true ->
  pageAt (pages d) (currentPageIndex d) = Some p ->
  addText text x y options d
  = Return y (storePage (currentPageIndex d) (pageWithText text x y options p) d).
Proof.
  intros F H. rewrite addText_unfold. cbv zeta.
  rewrite (overflows_applying _ _ _ F), H. reflexivity.
Qed.

Lemma addImageEnter_applying y options d :
  isApplyingHeaderFooter d = true -> addImageEnter y options d = (y, d).
Proof.
  intros F. rewrite addImageEnter_unfold.
  now rewrite (overflows_applying _ _ _ F).
Qed.

Lemma runCalls_applying cs : forall d p,
  isApplyingHeaderFooter d = true ->
  pageAt (pages d) (currentPageIndex d) = Some p ->
  existsb isAddPage cs = false ->
  runCalls cs d
  = Return tt (storePage (currentPageIndex d) (callsOnPage cs p) d).
Proof.
  induction cs as [|c cs IH]; intros d p F H N.
  - simpl. unfold ret. now rewrite (storePage_same _ _ _ H).
  - simpl in N. apply orb_false_iff in N as [Nc N].
    destruct c as [text x y options|imageData x y options|]; [| |discriminate].
    + cbn [runCalls runCall]. unfold bind at 1. unfold bind at 1.
      rewrite (addText_applying _ _ _ _ _ _ F H). unfold ret.
      rewrite (IH _ (pageWithText text x y options p)); cbn [callsOnPage].
      * change (currentPageIndex (storePage _ _ d)) with (currentPageIndex d).
        now rewrite storePage_twice.
      * exact F.
      * now apply (storePage_pageAt _ _ p).
      * exact N.
    + cbn [runCalls runCall]. unfold bind at 1. unfold modify.
      rewrite (addImageEnter_applying _ _ _ F). cbn [snd callsOnPage].
      now apply IH.
Qed.

Lemma headerStep_applying pageNum d p :
  isApplyingHeaderFooter d = true ->
  pageAt (pages d) (currentPageIndex d) = Some p ->
  placesOnly (PdfConfig.onHeader (config d)) ->
  headerStep pageNum d
  = Return tt (storePage (currentPageIndex d)
                 (headerOnPage (config d) pageNum p) d).
Proof.
  intros F H N. unfold headerStep, headerOnPage.
  destruct (PdfConfig.onHeader (config d)) as [cb|].
  - now apply runCalls_applying.
  - destruct (PdfConfig.defaultHeader (config d)) as [h|];
      [|now rewrite (storePage_same _ _ _ H)].
    cbv zeta. destruct (default [] (DefaultHeaderConfig.text h)) as [|c text];
      [now rewrite (storePage_same _ _ _ H)|].
    unfold bind. now rewrite (addText_applying _ _ _ _ _ _ F H).
Qed.

Lemma footerStep_applying pageNum d p :
  isApplyingHeaderFooter d = true ->
  pageAt (pages d) (currentPageIndex d) = Some p ->
  placesOnly (PdfConfig.onFooter (config d)) ->
  footerStep pageNum d
  = Return tt (storePage (currentPageIndex d)
                 (footerOnPage (config d) pageNum p) d).
Proof.
  intros F H N. unfold footerStep, footerOnPage.
  destruct (PdfConfig.onFooter (config d)) as [cb|].
  - now apply runCalls_applying.
  - destruct (PdfConfig.defaultFooter (config d)) as [f|];
      [|now rewrite (storePage_same _ _ _ H)].
    cbv zeta. destruct (footerTextOf _ _ _) as [|c text];
      [now rewrite (storePage_same _ _ _ H)|].
    unfold bind. now rewrite (addText_applying _ _ _ _ _ _ F H).
Qed.

End Pass.

Section PassLoop.
Context {host : Host}.

Lemma setPage_inside i d :
  i < length (pages d) ->
  setPage (Z.of_nat i) d = with_currentPageIndex (Z.of_nat i) d.
Proof.
  intros H. unfold setPage.
  destruct (Z.leb_spec 0 (Z.of_nat i)) as [_|Hneg]; [|lia].
  destruct (Z.ltb_spec (Z.of_nat i) (Z.of_nat (length (pages d)))) as [_|Hge];
    [reflexivity | lia].
Qed.

(** One turn of the loop on page [i]. *)
Lemma turn_applying i d p :
  isApplyingHeaderFooter d = true ->
  callbacksPlaceOnly (config d) ->
  pages d !! i = Some p ->
  (modify (setPage (Z.of_nat i)) ;; headerStep (i + 1) ;; footerStep (i + 1)) d
  = Return tt (storePage (Z.of_nat i) (decorate (config d) (i + 1) p)
                 (with_currentPageIndex (Z.of_nat i) d)).
Proof.
  intros F [Nh Nf] H.
  assert (L : i < length (pages d)) by now apply lookup_lt_Some in H.
  unfold bind at 1. unfold modify. rewrite (setPage_inside _ _ L).
  set (d0 := with_currentPageIndex (Z.of_nat i) d).
  assert (H0 : pageAt (pages d0) (currentPageIndex d0) = Some p).
  { subst d0. cbn. unfold pageAt.
    destruct (Z.ltb_spec (Z.of_nat i) 0) as [Hneg|_]; [lia|].
    now rewrite Nat2Z.id. }
  unfold bind at 1.
  rewrite (headerStep_applying _ d0 p F H0 Nh).
  change (currentPageIndex d0) with (Z.of_nat i) in *.
  rewrite (footerStep_applying _ _ (headerOnPage (config d) (i + 1) p)).
  - cbn [currentPageIndex storePage with_pages]. f_equal.
    change (currentPageIndex d0) with (Z.of_nat i).
    apply storePage_twice.
  - exact F.
  - now apply (storePage_pageAt _ _ p).
  - exact Nf.
Qed.

Lemma decorate_splice (cfg : PdfConfig.t) (l : list Page.t) i p :
  l !! i = Some p ->
  take (S i) (<[i := decorate cfg (i + 1) p]> l)
  ++ imap (fun k q => decorate cfg (S i + k + 1) q)
       (drop (S i) (<[i := decorate cfg (i + 1) p]> l))
  = take i l ++ imap (fun k q => decorate cfg (i + k + 1) q) (drop i l).
Proof.
  intros H.
  assert (L : i < length l) by now apply lookup_lt_Some in H.
  rewrite (take_S_r _ _ (decorate cfg (i + 1) p))
    by (apply list_lookup_insert_eq; exact L).
  rewrite take_insert_ge by lia. rewrite drop_insert_lt by lia.
  rewrite (drop_S _ _ _ H), imap_cons, <- app_assoc. cbn [app].
  rewrite Nat.add_0_r. do 2 f_equal.
  apply imap_ext. intros k q _. cbn. do 2 f_equal. lia.
Qed.

Lemma applyLoop_decorates fuel : forall i d,
  isApplyingHeaderFooter d = true ->
  callbacksPlaceOnly (config d) ->
  length (pages d) - i <= fuel ->
  exists idx,
    applyLoop fuel i d
    = Return tt
        (with_currentPageIndex idx
           (with_pages
              (take i (pages d)
               ++ imap (fun k p => decorate (config d) (i + k + 1) p)
                    (drop i (pages d))) d)).
Proof.
  induction fuel as [|fuel IH]; intros i d F N B.
  - exists (currentPageIndex d). cbn [applyLoop].
    destruct (Nat.ltb_spec i (length (pages d))) as [Hlt|Hge]; [lia|].
    rewrite drop_ge, take_ge, app_nil_r by lia. now destruct d.
  - destruct (Nat.ltb_spec i (length (pages d))) as [Hlt|Hge].
    + destruct (lookup_lt_is_Some_2 _ _ Hlt) as [p Hp].
      pose proof (turn_applying i d p F N Hp) as T.
      set (d2 := storePage _ _ _) in T.
      destruct (IH (S i) d2) as [idx E].
      * exact F.
      * exact N.
      * subst d2. unfold storePage. cbn. rewrite length_insert. lia.
      * exists idx. cbn [applyLoop].
        destruct (Nat.ltb_spec i (length (pages d))) as [_|Hge]; [|lia].
        cbv zeta. unfold bind at 1. unfold bind at 1. unfold bind at 1.
        unfold bind in T. unfold modify in *.
        destruct (headerStep (i + 1) (setPage (Z.of_nat i) d)) as [[] dh|e dh|];
          try discriminate T.
        destruct (footerStep (i + 1) dh) as [[] df|e df|]; try discriminate T.
        injection T as ->. rewrite E. f_equal.
        subst d2. unfold storePage, with_pages, with_currentPageIndex. cbn.
        f_equal. rewrite Nat2Z.id. now apply decorate_splice.
    + exists (currentPageIndex d). cbn [applyLoop].
      destruct (Nat.ltb_spec i (length (pages d))) as [Hlt|_]; [lia|].
      rewrite drop_ge, take_ge, app_nil_r by lia. now destruct d.
Qed.

(** With callbacks that start no page, and fuel for one turn per page,
    the pass returns and leaves every page decorated. *)
Lemma applyHeaderFooter_decorates fuel d :
  callbacksPlaceOnly (config d) ->
  length (pages d) <= fuel ->
  applyHeaderFooter fuel d = Return tt (decorated d).
Proof.
  intros N B. unfold applyHeaderFooter. cbv zeta.
  set (d0 := with_isApplyingHeaderFooter true d).
  destruct (applyLoop_decorates fuel 0 d0) as [idx E].
  - reflexivity.
  - exact N.
  - subst d0. cbn. lia.
  - unfold bind at 1. rewrite E. unfold bind, modify.
    subst d0. unfold decorated. reflexivity.
Qed.

End PassLoop.

Section PassResults.
Context {host : Host}.


Lemma decorated_lookup d i :
  pages (decorated d) !! i = decorate (config d) (i + 1) <$> pages d !! i.
Proof. unfold decorated. cbn. now rewrite list_lookup_imap. Qed.

Lemma helvetica_resource_name :
  fontResourceNameOf (fontKeyOf (lit "helvetica") (lit "normal")) = lit "F1".
Proof. reflexivity. Qed.



(** Under the guard, the calls of a callback change the page count by
    the [addPage] calls among them and nothing else. *)
Lemma runCalls_page_count cs : forall d,
  isApplyingHeaderFooter d = true ->
  validIndex d ->
  exists d',
    runCalls cs d = Return tt d'
    /\ length (pages d') = length (pages d) + length (List.filter isAddPage cs)
    /\ isApplyingHeaderFooter d' = true
    /\ validIndex d'.
Proof.
  induction cs as [|c cs IH]; intros d F V.
  - exists d. cbn. repeat split; try assumption; try apply V. lia.
  - destruct c as [text x y options|imageData x y options|];
      cbn [runCalls runCall List.filter isAddPage]; unfold bind at 1.
    + destruct (pageAt_valid _ _ V) as [p Hp]. unfold bind at 1.
      rewrite (addText_applying _ _ _ _ _ _ F Hp). unfold ret.
      set (d1 := storePage _ _ d).
      destruct (IH d1) as (d' & E & L & F' & V'); [exact F | now apply storePage_validIndex|].
      exists d'. split; [exact E|]. split; [|auto].
      rewrite L. subst d1. unfold storePage. cbn. now rewrite length_insert.
    + unfold modify. rewrite (addImageEnter_applying _ _ _ F). cbn [snd].
      now apply IH.
    + unfold modify.
      destruct (IH (addPage d)) as (d' & E & L & F' & V');
        [exact F | apply addPage_validIndex|].
      exists d'. split; [exact E|]. split; [|auto].
      rewrite L, addPage_pages, length_app. cbn [length]. lia.
Qed.

End PassResults.


(** ** A rejected image *)

(** C6: when [processImage] rejects, the awaited [addImage] rejects, the
    image registry is what it was, every page placed before is still
    there with its content, and the document still has a current page to
    draw on. *)
Theorem rejected_image_keeps_content {host : Host}
    (imageData : jsstring) (x y : Q) (options : ImageOptions.t)
    (d : PdfCreator) :
  processImage imageData = None ->
  exists d',
    addImage imageData x y options d = Throw ImageError d'
    /\ images d' = images d
    /\ (forall i p, pages d !! i = Some p -> pages d' !! i = Some p)
    /\ (validIndex d -> validIndex d').
Proof.
  intros R. rewrite addImage_unfold, addImageEnter_unfold, R. cbv zeta.
  destruct (overflows (ImageOptions.height options) y d).
  - exists (addPage d). split; [reflexivity|]. split; [reflexivity|]. split.
    + intros i p H. rewrite addPage_pages. now apply lookup_app_l_Some.
    + intros _. apply addPage_validIndex.
  - exists d. cbn [snd]. auto.
Qed.

(** What the rejected call may leave behind is a blank page: the overflow
    check runs before the image is processed. *)
Lemma rejected_image_pages {host : Host}
    (imageData : jsstring) (x y : Q) (options : ImageOptions.t)
    (d d' : PdfCreator) :
  addImage imageData x y options d = Throw ImageError d' ->
  pages d' = pages d \/ pages d' = pages d ++ [blankPage (objectCounter d)].
Proof.
  rewrite addImage_unfold, addImageEnter_unfold. cbv zeta.
  destruct (processImage imageData) as [processedData|].
  - rewrite addImageResume_unfold. cbv zeta.
    destruct (pageAt _ _); discriminate.
  - destruct (overflows _ _ _); intros [= <-]; [right | left]; reflexivity.
Qed.

(** ** Fonts *)

(** Every key of the table leads back to its own font name. *)
Lemma mapped_font_roundtrip :
  Forall (fun kv => baseFontOf (fontResourceNameOf (fst kv)) = snd kv
                    /\ pdfFontNameOf (fst kv) = PString (snd kv)
                    /\ snd kv ∈ standard14)
    standardFonts.
Proof.
  unfold standardFonts.
  repeat (apply Forall_cons; split;
          [split; [reflexivity | split; [reflexivity |]];
           cbn [snd]; unfold standard14; repeat constructor|]).
  constructor.
Qed.

(** C5 fails on the code: for a family outside the table, [addText]
    resolves the name to [Helvetica] but registers the resource name
    [F0], and the resource dictionary the serializer writes for the page
    gives [F0] the base font [undefined]. *)
Theorem unmapped_font_serialized_undefined {host : Host} :
  pdfFontNameOf (fontKeyOf (lit "Arial") (lit "normal")) = PString (lit "Helvetica")
  /\ exists d' p,
       addText (lit "Hi") (20 # 1) (20 # 1) arialOptions
         (constructor PdfConfig.none) = Return (20 # 1) d'
       /\ pages d' = [p]
       /\ Resources.fonts (Page.resources p) = [lit "F0"]
       /\ fontRes p
          = lit "/Font << /F0 << /Type /Font /Subtype /Type1 /BaseFont /undefined >> >>".
Proof.
  split; [reflexivity|].
  eexists _, _. split; [|split; [|split]].
  - rewrite addText_unfold. cbv zeta. overflow_by_computation. reflexivity.
  - reflexivity.
  - reflexivity.
  - reflexivity.
Qed.

(** ** Every call evolves the document *)

Section Evolution.
Context {host : Host}.

Lemma evolves_refl d : evolves d d.
Proof. split; [apply extends_refl | auto]. Qed.

Lemma evolves_trans d1 d2 d3 : evolves d1 d2 -> evolves d2 d3 -> evolves d1 d3.
Proof.
  intros [E1 V1] [E2 V2]. split; [now apply (extends_trans _ d2) | auto].
Qed.

Lemma evolving_ret {A} (a : A) : evolving (ret a).
Proof. intros d d' [= <-]. apply evolves_refl. Qed.

Lemma evolving_bind {A B} (m : M A) (f : A -> M B) :
  evolving m -> (forall a, evolving (f a)) -> evolving (bind m f).
Proof.
  intros Hm Hf d d' H. unfold bind in H.
  destruct (m d) as [a d1|e d1|] eqn:E.
  - apply (evolves_trans _ d1); [apply Hm; now rewrite E | now apply (Hf a)].
  - apply Hm. now rewrite E.
  - discriminate.
Qed.

Lemma evolving_modify (f : PdfCreator -> PdfCreator) :
  (forall d, evolves d (f d)) -> evolving (modify f).
Proof. intros Hf d d' [= <-]. apply Hf. Qed.

Lemma evolves_addPage d : evolves d (addPage d).
Proof. split; [apply addPage_extends | intros _; apply addPage_validIndex]. Qed.

Lemma evolves_setPage i d : evolves d (setPage i d).
Proof.
  unfold setPage.
  destruct (Z.leb_spec 0 i) as [H0|H0]; [|apply evolves_refl].
  destruct (Z.ltb_spec i (Z.of_nat (length (pages d)))) as [H1|H1];
    [|apply evolves_refl].
  split.
  - repeat split; try reflexivity. exists 0. split; [simpl; lia|].
    unfold entityIds. simpl. now rewrite app_nil_r.
  - intros _. unfold validIndex. simpl. lia.
Qed.

Lemma evolves_flag f d : evolves d (with_isApplyingHeaderFooter f d).
Proof.
  split; [|auto]. repeat split; try reflexivity. exists 0.
  split; [simpl; lia|]. unfold entityIds. simpl. now rewrite app_nil_r.
Qed.

Lemma evolving_addText text x y options : evolving (addText text x y options).
Proof.
  intros d d' H. split;
    [eapply addText_extends, H | intros V; eapply addText_validIndex; eauto].
Qed.

Lemma evolving_addImage imageData x y options :
  evolving (addImage imageData x y options).
Proof.
  intros d d' H. split;
    [eapply addImage_extends, H | intros V; eapply addImage_validIndex; eauto].
Qed.

Lemma evolving_runCall c : evolving (runCall c).
Proof.
  destruct c as [text x y options|imageData x y options|]; cbn [runCall].
  - apply evolving_bind; [apply evolving_addText | intros; apply evolving_ret].
  - apply evolving_modify. intros d. split;
      [apply addImageEnter_extends | apply addImageEnter_validIndex].
  - apply evolving_modify, evolves_addPage.
Qed.

Lemma evolving_runCalls cs : evolving (runCalls cs).
Proof.
  induction cs as [|c cs IH]; cbn [runCalls].
  - apply evolving_ret.
  - apply evolving_bind; [apply evolving_runCall | intros; exact IH].
Qed.

Lemma evolving_headerStep pageNum : evolving (headerStep pageNum).
Proof.
  intros d d'. unfold headerStep.
  destruct (PdfConfig.onHeader (config d)); [apply evolving_runCalls|].
  destruct (PdfConfig.defaultHeader (config d));
    [|intros [= <-]; apply evolves_refl].
  cbv zeta. destruct (default [] _); [intros [= <-]; apply evolves_refl|].
  apply (evolving_bind (addText _ _ _ _) (fun _ => ret tt));
    [apply evolving_addText | intros; apply evolving_ret].
Qed.

Lemma evolving_footerStep pageNum : evolving (footerStep pageNum).
Proof.
  intros d d'. unfold footerStep.
  destruct (PdfConfig.onFooter (config d)); [apply evolving_runCalls|].
  destruct (PdfConfig.defaultFooter (config d));
    [|intros [= <-]; apply evolves_refl].
  cbv zeta. destruct (footerTextOf _ _ _); [intros [= <-]; apply evolves_refl|].
  apply (evolving_bind (addText _ _ _ _) (fun _ => ret tt));
    [apply evolving_addText | intros; apply evolving_ret].
Qed.

Lemma evolving_applyLoop fuel : forall i, evolving (applyLoop fuel i).
Proof.
  induction fuel as [|fuel IH]; intros i d d'; cbn [applyLoop];
    destruct (i <? length (pages d))%nat;
    try (intros [= <-]; apply evolves_refl); try discriminate.
  cbv zeta.
  apply (evolving_bind (modify (setPage (Z.of_nat i)))
           (fun _ => headerStep (i + 1) ;; footerStep (i + 1) ;; applyLoop fuel (S i))).
  - apply evolving_modify. intros; apply evolves_setPage.
  - intros _. apply evolving_bind; [apply evolving_headerStep|].
    intros _. apply evolving_bind; [apply evolving_footerStep|].
    intros _. apply IH.
Qed.

(** The pass puts the current-page index back, so a document that had a
    current page has one afterwards, whatever the callbacks did. *)
Lemma applyHeaderFooter_evolves fuel : evolving (applyHeaderFooter fuel).
Proof.
  intros d d' H. unfold applyHeaderFooter in H. cbv zeta in H.
  set (d0 := with_isApplyingHeaderFooter true d) in H.
  unfold bind in H.
  destruct (applyLoop fuel 0 d0) as [[] d1|e d1|] eqn:E; [| |discriminate].
  - unfold modify in H. injection H as <-.
    assert (E1 : evolves d0 d1) by (apply (evolving_applyLoop fuel 0); now rewrite E).
    destruct E1 as [(C & Hh & Hf & L & k & N & P) _].
    subst d0. cbn in C, Hh, Hf, L, N, P. split.
    + split; [exact C|]. split; [exact Hh|]. split; [exact Hf|].
      split; [exact L|]. exists k. split; [exact N | exact P].
    + intros V. unfold validIndex in *. cbn. lia.
  - injection H as <-.
    apply (evolves_trans _ d0); [apply evolves_flag|].
    apply (evolving_applyLoop fuel 0). now rewrite E.
Qed.

Lemma applyHeaderFooter_extends fuel d d' :
  after (applyHeaderFooter fuel d) = Some d' -> extends d d'.
Proof. intros H. now apply applyHeaderFooter_evolves in H as [E _]. Qed.

Lemma applyHeaderFooter_validIndex fuel d d' :
  after (applyHeaderFooter fuel d) = Some d' -> validIndex d -> validIndex d'.
Proof. intros H. now apply applyHeaderFooter_evolves in H as [_ V]. Qed.

(** The document a build leaves: the one the pass left, with two more
    ids issued if the pass returned. *)
Lemma buildPdf_after fuel d d' :
  after (buildPdf fuel d) = Some d' ->
  (exists e, applyHeaderFooter fuel d = Throw e d')
  \/ (exists d1, applyHeaderFooter fuel d = Return tt d1
                 /\ d' = with_objectCounter (S (S (objectCounter d1))) d1).
Proof.
  unfold buildPdf, bind.
  destruct (applyHeaderFooter fuel d) as [[] d1|e d1|]; [| |discriminate].
  - intros H. right. exists d1. split; [reflexivity|].
    cbn [getNextId] in H. unfold emitObjects in H.
    destruct (emitPages _ _ _ _) as [s1|]; [|now injection H as <-].
    destruct (emitImages _ _) as [s2|]; [|now injection H as <-].
    destruct (xrefLines _ _); now injection H as <-.
  - intros [= <-]. left. now exists e.
Qed.

Lemma bump_idsDistinct d :
  idsDistinct d -> idsDistinct (with_objectCounter (S (S (objectCounter d))) d).
Proof.
  intros (H1 & ND & B). split; [cbn; lia|]. split; [exact ND|].
  eapply Forall_impl; [exact B|]. cbn. intros; lia.
Qed.

Lemma perform_idsDistinct c d d' :
  perform c d = Some d' -> idsDistinct d -> idsDistinct d'.
Proof.
  destruct c as [|text x y options|imageData x y options|fuel]; cbn [perform].
  - intros [= <-]. apply extends_idsDistinct, addPage_extends.
  - intros H. eapply extends_idsDistinct, addText_extends, H.
  - intros H. eapply extends_idsDistinct, addImage_extends, H.
  - intros H D. apply buildPdf_after in H as [[e H]|(d1 & H & ->)].
    + eapply extends_idsDistinct; [|exact D].
      apply (applyHeaderFooter_extends fuel). now rewrite H.
    + apply bump_idsDistinct. eapply extends_idsDistinct; [|exact D].
      apply (applyHeaderFooter_extends fuel). now rewrite H.
Qed.

Lemma perform_validIndex c d d' :
  perform c d = Some d' -> validIndex d -> validIndex d'.
Proof.
  destruct c as [|text x y options|imageData x y options|fuel]; cbn [perform].
  - intros [= <-] _. apply addPage_validIndex.
  - intros H V. eapply addText_validIndex; eauto.
  - intros H V. eapply addImage_validIndex; eauto.
  - intros H V. apply buildPdf_after in H as [[e H]|(d1 & H & ->)].
    + apply (applyHeaderFooter_validIndex fuel d); [now rewrite H | exact V].
    + assert (V1 : validIndex d1)
        by (apply (applyHeaderFooter_validIndex fuel d); [now rewrite H | exact V]).
      exact V1.
Qed.

Lemma reachable_idsDistinct cfg d : reachable cfg d -> idsDistinct d.
Proof.
  induction 1 as [|d c d' _ IH H].
  - apply idsCovered_idsDistinct, constructor_idsCovered.
  - eapply perform_idsDistinct; eauto.
Qed.

Lemma reachable_validIndex cfg d : reachable cfg d -> validIndex d.
Proof.
  induction 1 as [|d c d' _ IH H].
  - apply constructor_validIndex.
  - eapply perform_validIndex; eauto.
Qed.

Lemma allocate_seq n : forall d, fst (allocate n d) = seq (objectCounter d) n.
Proof.
  induction n as [|n IH]; intros d; [reflexivity|].
  cbn [allocate getNextId]. specialize (IH (with_objectCounter (S (objectCounter d)) d)).
  destruct (allocate n _) as [ids d2]. cbn in *. now rewrite IH.
Qed.

End Evolution.

(** ** The serializer *)

Section Serializer.
Context {host : Host}.

Lemma addObjects_app a b s : addObjects (a ++ b) s = addObjects b (addObjects a s).
Proof. unfold addObjects. apply fold_left_app. Qed.

Lemma emitPages_objects pagesRootId m ps : forall s,
  emitPages pagesRootId m ps s
  = match pagesObjects pagesRootId m ps with
    | Some objs => Some (addObjects objs s)
    | None => None
    end.
Proof.
  induction ps as [|page ps IH]; intros s; [reflexivity|].
  cbn [emitPages pagesObjects]. unfold emitPage, pageObjects.
  destruct (xObjectRes m page) as [xObj|]; [|reflexivity].
  rewrite IH. destruct (pagesObjects pagesRootId m ps); reflexivity.
Qed.

Lemma emitImages_objects m : forall s,
  emitImages m s
  = match imagesObjects m with
    | Some objs => Some (addObjects objs s)
    | None => None
    end.
Proof.
  induction m as [|[key img] m IH]; intros s; [reflexivity|].
  cbn [emitImages imagesObjects].
  destruct (atob (ImageEntry.data img)) as [binaryString|]; [|reflexivity].
  rewrite IH. destruct (imagesObjects m); reflexivity.
Qed.

Lemma pagesObjects_ids pagesRootId m ps objs :
  pagesObjects pagesRootId m ps = Some objs -> map fst objs = pageIds ps.
Proof.
  revert objs. induction ps as [|page ps IH]; intros objs; cbn [pagesObjects].
  - now intros [= <-].
  - unfold pageObjects. destruct (xObjectRes m page); [|discriminate].
    destruct (pagesObjects pagesRootId m ps) as [rest|]; [|discriminate].
    intros [= <-]. cbn. now rewrite (IH rest).
Qed.

Lemma imagesObjects_ids m objs :
  imagesObjects m = Some objs -> map fst objs = imageIds m.
Proof.
  revert objs. induction m as [|[key img] m IH]; intros objs; cbn [imagesObjects].
  - now intros [= <-].
  - destruct (atob (ImageEntry.data img)); [|discriminate].
    destruct (imagesObjects m) as [rest|]; [|discriminate].
    intros [= <-]. cbn. now rewrite (IH rest).
Qed.

Lemma objectsOf_ids d objs :
  objectsOf d = Some objs -> map fst objs = emittedIds d.
Proof.
  unfold objectsOf, emittedIds, entityIds.
  destruct (pagesObjects _ _ _) as [ps|] eqn:Ep; [|discriminate].
  destruct (imagesObjects _) as [ims|] eqn:Ei; [|discriminate].
  intros [= <-]. cbn. rewrite map_app.
  now rewrite (pagesObjects_ids _ _ _ _ Ep), (imagesObjects_ids _ _ Ei).
Qed.

Lemma addObjects_buffer objs : forall s,
  Ser.buffer (addObjects objs s) = Ser.buffer s ++ objectsText objs.
Proof.
  induction objs as [|[id content] objs IH]; intros s; cbn.
  - now rewrite app_nil_r.
  - unfold addObjects in IH. rewrite IH. cbn. now rewrite <- app_assoc.
Qed.

Lemma begins_app (h b e : jsstring) off :
  take (length h) (drop off b) = h ->
  take (length h) (drop off (b ++ e)) = h.
Proof.
  intros H.
  destruct (Nat.le_gt_cases off (length b)) as [L|L].
  - assert (Hl : length h <= length (drop off b)).
    { rewrite <- H at 1. rewrite length_take. lia. }
    rewrite drop_app_le by exact L. now rewrite take_app_le.
  - rewrite drop_ge in H by lia. rewrite take_nil in H. subst h.
    now rewrite take_0.
Qed.

Lemma addObject_consistent id content s :
  serConsistent s -> serConsistent (addObject id content s).
Proof.
  intros [L X]. split.
  - cbn. rewrite length_app. lia.
  - intros k off Hk. cbn [addObject Ser.xref Ser.buffer].
    destruct (decide (id = k)) as [->|Hne].
    + rewrite lookup_insert_eq. intros [= <-]. rewrite L.
      rewrite drop_app_length. unfold fullObj.
      now rewrite take_app_length.
    + rewrite lookup_insert_ne by exact Hne. intros H.
      apply begins_app. now apply X.
Qed.

Lemma addObjects_consistent objs : forall s,
  serConsistent s -> serConsistent (addObjects objs s).
Proof.
  induction objs as [|[id content] objs IH]; intros s C; cbn; [exact C|].
  apply IH. now apply addObject_consistent.
Qed.

Lemma addObjects_xref_kept objs : forall s k,
  is_Some (Ser.xref s !! k) -> is_Some (Ser.xref (addObjects objs s) !! k).
Proof.
  induction objs as [|[id content] objs IH]; intros s k H; cbn; [exact H|].
  apply IH. cbn. destruct (decide (id = k)) as [->|Hne].
  - rewrite lookup_insert_eq. eauto.
  - now rewrite lookup_insert_ne.
Qed.

Lemma addObjects_xref_added objs : forall s k,
  k ∈ map fst objs -> is_Some (Ser.xref (addObjects objs s) !! k).
Proof.
  induction objs as [|[id content] objs IH]; intros s k H; cbn in *.
  - now apply elem_of_nil in H.
  - apply elem_of_cons in H as [->|H].
    + apply addObjects_xref_kept. cbn. rewrite lookup_insert_eq. eauto.
    + now apply IH.
Qed.

(** The state of the serializer before the first object. *)
Lemma initial_consistent :
  serConsistent (Ser.mk pdfHeader (length pdfHeader) {[ 0 := 0 ]}).
Proof.
  split; [reflexivity|]. intros k off Hk. cbn.
  rewrite lookup_singleton_ne by auto. discriminate.
Qed.

Lemma emitObjects_objects catalogId pagesRootId d :
  emitObjects catalogId pagesRootId d
  = match pagesObjects pagesRootId (images d) (pages d) with
    | None => Throw TypeError d
    | Some ps =>
        match imagesObjects (images d) with
        | None => Throw InvalidCharacterError d
        | Some ims =>
            Return
              (addObjects
                 ((catalogId, catalogObject pagesRootId)
                  :: (pagesRootId, pagesRootObject (pages d)) :: ps ++ ims)
                 (Ser.mk pdfHeader (length pdfHeader) {[ 0 := 0 ]}))
              d
        end
    end.
Proof.
  unfold emitObjects. rewrite emitPages_objects.
  destruct (pagesObjects _ _ _) as [ps|]; [|reflexivity].
  rewrite emitImages_objects.
  destruct (imagesObjects _) as [ims|]; [|reflexivity].
  cbn [addObjects fold_left fst snd]. f_equal.
  change (fold_left _ (ps ++ ims) ?s) with (addObjects (ps ++ ims) s).
  now rewrite addObjects_app.
Qed.

Lemma xrefLines_Some xref ids lines :
  xrefLines xref ids = Some lines ->
  exists offsets,
    lines = flat_map xrefLine offsets
    /\ length offsets = length ids
    /\ forall j i, ids !! j = Some i ->
         exists off, xref !! i = Some off /\ offsets !! j = Some off.
Proof.
  revert lines. induction ids as [|i ids IH]; intros lines; cbn [xrefLines].
  - intros [= <-]. exists []. repeat split. intros j i H. discriminate.
  - destruct (xref !! i) as [off|] eqn:E; [|discriminate].
    destruct (xrefLines xref ids) as [tail|]; [|discriminate].
    intros [= <-]. destruct (IH tail eq_refl) as (offsets & -> & L & P).
    exists (off :: offsets). split; [reflexivity|]. split; [cbn; lia|].
    intros [|j] i' H; cbn in H.
    + injection H as <-. eauto.
    + now apply P.
Qed.

Lemma xrefLines_total (xref : gmap nat nat) ids :
  (forall i, i ∈ ids -> is_Some (xref !! i)) -> is_Some (xrefLines xref ids).
Proof.
  induction ids as [|i ids IH]; intros H; cbn [xrefLines]; [eauto|].
  destruct (H i) as [off ->]; [left|].
  destruct IH as [tail ->]; [|eauto].
  intros j Hj. apply H. now right.
Qed.

End Serializer.

(** ** Bytes *)

Lemma unit_of_ascii_byte c : (0 <= unit_of_ascii c < 256)%Z.
Proof.
  unfold unit_of_ascii. pose proof (N_ascii_bounded c). lia.
Qed.

Lemma land_255_byte c : (0 <= c < 256)%Z -> Z.land c 255 = c.
Proof.
  intros H. change 255%Z with (Z.ones 8). rewrite Z.land_ones by lia.
  apply Z.mod_small. simpl. lia.
Qed.

Lemma toBytes_lit s : toBytes (lit s) = lit s.
Proof.
  induction s as [|c s IH]; [reflexivity|]. cbn [lit toBytes map].
  rewrite land_255_byte by apply unit_of_ascii_byte.
  f_equal. exact IH.
Qed.

Lemma toBytes_app a b : toBytes (a ++ b) = toBytes a ++ toBytes b.
Proof. apply map_app. Qed.

Lemma toBytes_length a : length (toBytes a) = length a.
Proof. apply length_map. Qed.

Lemma toBytes_natToString n : toBytes (natToString n) = natToString n.
Proof. apply toBytes_lit. Qed.

Lemma begins_prefix (a b l : list Z) :
  take (length (a ++ b)) l = a ++ b -> take (length a) l = a.
Proof.
  intros H.
  assert (E : take (length a) (take (length (a ++ b)) l) = take (length a) l).
  { rewrite take_take. f_equal. rewrite length_app. lia. }
  rewrite <- E, H. now rewrite take_app_length.
Qed.

(** A header found in the buffer is found at the same index of the
    bytes. *)
Lemma header_in_bytes k off (buffer rest : jsstring) :
  take (length (objHeader k)) (drop off buffer) = objHeader k ->
  beginsAt (natToString k ++ lit " 0 obj") off (toBytes (buffer ++ rest)).
Proof.
  intros H. apply (begins_app _ _ rest) in H.
  unfold objHeader in H. rewrite app_assoc in H. apply begins_prefix in H.
  unfold beginsAt, toBytes. rewrite skipn_map, firstn_map.
  rewrite H. change (map _ ?l) with (toBytes l).
  now rewrite toBytes_app, toBytes_natToString, toBytes_lit.
Qed.

Section Build.
Context {host : Host}.

(** What a build that returns went through. *)
Lemma buildPdf_returned fuel d bytes d' :
  buildPdf fuel d = Return bytes d' ->
  exists d1 objs lines,
    applyHeaderFooter fuel d = Return tt d1
    /\ d' = with_objectCounter (S (S (objectCounter d1))) d1
    /\ objectsOf d' = Some objs
    /\ xrefLines
         (Ser.xref (addObjects objs (Ser.mk pdfHeader (length pdfHeader) {[ 0 := 0 ]})))
         (seq 1 (objectCounter d' - 1)) = Some lines
    /\ bytes = toBytes (pdfHeader ++ objectsText objs
                        ++ xrefHead (objectCounter d') ++ lines
                        ++ trailer (objectCounter d') (catalogIdOf d')
                             (length (pdfHeader ++ objectsText objs))).
Proof.
  unfold buildPdf, bind.
  destruct (applyHeaderFooter fuel d) as [[] d1|e d1|]; try discriminate.
  cbn [getNextId]. rewrite emitObjects_objects.
  set (d2 := with_objectCounter (S (objectCounter (with_objectCounter _ d1))) _).
  assert (E2 : d2 = with_objectCounter (S (S (objectCounter d1))) d1) by reflexivity.
  destruct (pagesObjects _ _ _) as [ps|] eqn:Ep; [|discriminate].
  destruct (imagesObjects _) as [ims|] eqn:Ei; [|discriminate].
  set (objs := _ :: _ :: ps ++ ims).
  set (s := addObjects objs _).
  destruct (xrefLines _ _) as [lines|] eqn:El; [|discriminate].
  set (out := toBytes _). intros [= <- <-].
  assert (Ec : catalogIdOf d2 = objectCounter d1).
  { rewrite E2. unfold catalogIdOf. cbn. lia. }
  assert (Er : pagesRootIdOf d2 = S (objectCounter d1)).
  { rewrite E2. unfold pagesRootIdOf. cbn. lia. }
  exists d1, objs, lines. split; [reflexivity|]. split; [exact E2|].
  split; [|split].
  - unfold objectsOf. rewrite Ec, Er.
    change (images d2) with (images d1) in *.
    change (pages d2) with (pages d1) in *.
    change (objectCounter (with_objectCounter (S (objectCounter d1)) d1))
      with (S (objectCounter d1)) in Ep.
    now rewrite Ep, Ei.
  - exact El.
  - assert (C : serConsistent s)
      by (apply addObjects_consistent, initial_consistent).
    subst out. destruct C as [-> _]. subst s.
    rewrite addObjects_buffer. cbn [Ser.buffer].
    rewrite Ec. now rewrite <- !app_assoc.
Qed.

End Build.

(** ** A build that returns *)

Section Totality.
Context {host : Host}.

Lemma callsOnPage_skeleton cs : forall p,
  Page.id (callsOnPage cs p) = Page.id p
  /\ Page.contentId (callsOnPage cs p) = Page.contentId p
  /\ Resources.images (Page.resources (callsOnPage cs p))
     = Resources.images (Page.resources p).
Proof.
  induction cs as [|c cs IH]; intros p; [auto|].
  destruct c; cbn [callsOnPage]; try apply IH.
  destruct (IH (pageWithText text x y options p)) as (-> & -> & ->). auto.
Qed.

(** The pass leaves a page its ids and its images. *)
Lemma decorate_skeleton cfg pageNum p :
  Page.id (decorate cfg pageNum p) = Page.id p
  /\ Page.contentId (decorate cfg pageNum p) = Page.contentId p
  /\ Resources.images (Page.resources (decorate cfg pageNum p))
     = Resources.images (Page.resources p).
Proof.
  assert (Hh : Page.id (headerOnPage cfg pageNum p) = Page.id p
               /\ Page.contentId (headerOnPage cfg pageNum p) = Page.contentId p
               /\ Resources.images (Page.resources (headerOnPage cfg pageNum p))
                  = Resources.images (Page.resources p)).
  { unfold headerOnPage. destruct (PdfConfig.onHeader cfg);
      [apply callsOnPage_skeleton|].
    destruct (PdfConfig.defaultHeader cfg); [|auto].
    cbv zeta. destruct (default [] _); auto. }
  destruct Hh as (Hi & Hc & Hr). rewrite <- Hi, <- Hc, <- Hr.
  unfold decorate, footerOnPage. destruct (PdfConfig.onFooter cfg);
    [apply callsOnPage_skeleton|].
  destruct (PdfConfig.defaultFooter cfg); [|auto].
  cbv zeta. destruct (footerTextOf _ _ _); auto.
Qed.

Lemma decorated_imagesRegistered d :
  imagesRegistered d -> imagesRegistered (decorated d).
Proof.
  intros R p' key Hp Hk.
  apply list_elem_of_lookup in Hp as [i Hp]. rewrite decorated_lookup in Hp.
  destruct (pages d !! i) as [p|] eqn:E; [|discriminate]. injection Hp as <-.
  destruct (decorate_skeleton (config d) (i + 1) p) as (_ & _ & Hr).
  rewrite Hr in Hk. apply (R p key); [|exact Hk].
  apply list_elem_of_lookup. eauto.
Qed.

Lemma xObjectEntries_total m keys :
  (forall key, key ∈ keys -> is_Some (imagesGet m key)) ->
  is_Some (xObjectEntries m keys).
Proof.
  induction keys as [|key keys IH]; intros H; cbn [xObjectEntries]; [eauto|].
  destruct (H key) as [img ->]; [left|].
  destruct IH as [tail ->]; [|eauto].
  intros k Hk. apply H. now right.
Qed.

Lemma pagesObjects_total pagesRootId m ps :
  (forall p key, p ∈ ps -> key ∈ Resources.images (Page.resources p) ->
                 is_Some (imagesGet m key)) ->
  is_Some (pagesObjects pagesRootId m ps).
Proof.
  induction ps as [|p ps IH]; intros H; cbn [pagesObjects]; [eauto|].
  assert (X : is_Some (pageObjects pagesRootId m p)).
  { unfold pageObjects, xObjectRes.
    destruct (Resources.images (Page.resources p)) as [|key keys] eqn:E; [eauto|].
    destruct (xObjectEntries_total m (key :: keys)) as [entries ->]; [|eauto].
    intros k Hk. apply (H p); [left | now rewrite E]. }
  destruct X as [a ->]. destruct IH as [b ->]; [|eauto].
  intros q key Hq. apply H. now right.
Qed.

Lemma imagesObjects_total m :
  (forall key img, (key, img) ∈ m -> is_Some (atob (ImageEntry.data img))) ->
  is_Some (imagesObjects m).
Proof.
  induction m as [|[key img] m IH]; intros H; cbn [imagesObjects]; [eauto|].
  destruct (H key img) as [binaryString ->]; [left|].
  destruct IH as [tail ->]; [|eauto].
  intros k i Hk. apply (H k). now right.
Qed.

(** A document whose issued ids are all held, whose pages name
    registered images and whose images decode, asked for its output for
    the first time with callbacks that start no page: the build returns,
    and leaves the decorated document with two more ids issued. *)
Lemma buildPdf_returns fuel d :
  idsCovered d -> imagesRegistered d -> imagesDecodable d ->
  callbacksPlaceOnly (config d) -> length (pages d) <= fuel ->
  exists bytes,
    buildPdf fuel d
    = Return bytes (with_objectCounter (S (S (objectCounter d))) (decorated d)).
Proof.
  intros C R A N B.
  pose proof (applyHeaderFooter_decorates fuel d N B) as Hp.
  assert (C1 : idsCovered (decorated d)).
  { eapply extends_idsCovered; [|exact C].
    apply (applyHeaderFooter_extends fuel). now rewrite Hp. }
  apply decorated_imagesRegistered in R.
  unfold buildPdf, bind. rewrite Hp. cbn [getNextId].
  rewrite emitObjects_objects.
  set (d1 := decorated d) in *.
  set (d2 := with_objectCounter (S (objectCounter (with_objectCounter _ d1))) _).
  change (pages d2) with (pages d1). change (images d2) with (images d1).
  change (objectCounter d2) with (S (S (objectCounter d1))).
  change (objectCounter (with_objectCounter (S (objectCounter d1)) d1))
    with (S (objectCounter d1)).
  destruct (pagesObjects_total (S (objectCounter d1)) (images d1) (pages d1))
    as [ps Ep]; [exact R|]. rewrite Ep.
  destruct (imagesObjects_total (images d1)) as [ims Ei]; [exact A|]. rewrite Ei.
  set (objs := _ :: _ :: ps ++ ims).
  destruct (xrefLines_total
              (Ser.xref (addObjects objs
                           (Ser.mk pdfHeader (length pdfHeader) {[ 0 := 0 ]})))
              (seq 1 (objectCounter d2 - 1))) as [lines El].
  { intros i Hi. apply elem_of_seq in Hi.
    change (objectCounter d2) with (S (S (objectCounter d1))) in Hi.
    apply addObjects_xref_added.
    subst objs. cbn [map fst]. rewrite map_app.
    rewrite (pagesObjects_ids _ _ _ _ Ep), (imagesObjects_ids _ _ Ei).
    destruct C1 as [H1 P].
    destruct (decide (i = objectCounter d1)) as [->|N1]; [left|].
    destruct (decide (i = S (objectCounter d1))) as [->|N2]; [right; left|].
    do 2 right. fold (entityIds d1). rewrite P. apply elem_of_seq. lia. }
  rewrite El. eexists. reflexivity.
Qed.




End Totality.


(** C9: the allocator issues the consecutive integers from 1 on, and no
    id is held twice: in every document a client can reach, the ids of
    the pages, content streams and images are distinct ids issued
    before, and the ids of the objects a build writes (catalog and
    page-tree root included) are distinct too. *)
Theorem allocator_ids_distinct {host : Host}
    (cfg : PdfConfig.t) (d : PdfCreator) (n : nat) :
  reachable cfg d ->
  fst (getNextId (fieldInitialisers cfg)) = 1
  /\ fst (allocate n d) = seq (objectCounter d) n
  /\ NoDup (entityIds d)
  /\ Forall (fun i => 1 <= i < objectCounter d) (entityIds d)
  /\ forall fuel bytes d',
       buildPdf fuel d = Return bytes d' ->
       NoDup (emittedIds d')
       /\ Forall (fun i => 1 <= i < objectCounter d') (emittedIds d')
       /\ exists objs, objectsOf d' = Some objs /\ map fst objs = emittedIds d'.
Proof.
  intros R. pose proof (reachable_idsDistinct _ _ R) as (H1 & ND & F).
  split; [reflexivity|]. split; [apply allocate_seq|].
  split; [exact ND|]. split; [exact F|].
  intros fuel bytes d' H.
  destruct (buildPdf_returned _ _ _ _ H) as (d1 & objs & lines & Hp & -> & Ho & _ & _).
  assert (D1 : idsDistinct d1).
  { eapply extends_idsDistinct; [|exact (reachable_idsDistinct _ _ R)].
    apply (applyHeaderFooter_extends fuel). now rewrite Hp. }
  destruct D1 as (C1 & ND1 & F1). rewrite Forall_forall in F1.
  set (c := objectCounter d1) in *.
  assert (Ec : catalogIdOf (with_objectCounter (S (S c)) d1) = c)
    by (unfold catalogIdOf; cbn; lia).
  assert (Er : pagesRootIdOf (with_objectCounter (S (S c)) d1) = S c)
    by (unfold pagesRootIdOf; cbn; lia).
  unfold emittedIds. rewrite Ec, Er.
  change (entityIds (with_objectCounter (S (S c)) d1)) with (entityIds d1).
  split; [|split].
  - apply NoDup_cons. split.
    + intros Hin. apply elem_of_cons in Hin as [Hin|Hin]; [lia|].
      apply F1 in Hin. lia.
    + apply NoDup_cons. split; [|exact ND1].
      intros Hin. apply F1 in Hin. lia.
  - cbn [objectCounter with_objectCounter].
    apply Forall_cons. split; [lia|]. apply Forall_cons. split; [lia|].
    apply Forall_forall. intros i Hi. apply F1 in Hi. lia.
  - exists objs. split; [exact Ho|].
    rewrite (objectsOf_ids _ _ Ho). unfold emittedIds. now rewrite Ec, Er.
Qed.

(** ** Documents before their first output *)

Section Drawn.
Context {host : Host}.

Lemma imagesGet_app m key v k :
  is_Some (imagesGet m k) -> is_Some (imagesGet (m ++ [(key, v)]) k).
Proof.
  induction m as [|[k' v'] m IH]; cbn [imagesGet app].
  - intros [? H]. discriminate.
  - destruct (decide (k' = k)); [eauto | exact IH].
Qed.

Lemma imagesGet_last m key v :
  is_Some (imagesGet (m ++ [(key, v)]) key).
Proof.
  induction m as [|[k' v'] m IH]; cbn [imagesGet app].
  - destruct (decide (key = key)); [eauto | congruence].
  - destruct (decide (k' = key)); [eauto | exact IH].
Qed.

Lemma setAdd_elem x s k : k ∈ setAdd x s -> k = x \/ k ∈ s.
Proof.
  unfold setAdd. destruct (decide (x ∈ s)); [auto|].
  intros H. apply elem_of_app in H as [H|H]; [auto|].
  apply list_elem_of_singleton in H. auto.
Qed.

Lemma storePage_imagesRegistered d i p p' :
  imagesRegistered d ->
  pageAt (pages d) i = Some p ->
  (forall key, key ∈ Resources.images (Page.resources p') ->
               key ∈ Resources.images (Page.resources p)
               \/ is_Some (imagesGet (images d) key)) ->
  imagesRegistered (storePage i p' d).
Proof.
  intros R Hp Hk q key Hq Hkey. apply pageAt_Some in Hp as [_ Hp].
  unfold storePage in *. cbn [pages images with_pages] in *.
  apply list_elem_of_lookup in Hq as [j Hq].
  apply list_lookup_insert_Some in Hq as [(Ej & Eq & _)|(Hne & Hq)].
  - subst j q. destruct (Hk key Hkey) as [H|H]; [|exact H].
    apply (R p key); [|exact H]. apply list_elem_of_lookup. eauto.
  - apply (R q key); [|exact Hkey]. apply list_elem_of_lookup. eauto.
Qed.

Lemma addPage_imagesRegistered d : imagesRegistered d -> imagesRegistered (addPage d).
Proof.
  intros R q key Hq Hkey. rewrite addPage_pages in Hq.
  apply elem_of_app in Hq as [Hq|Hq]; [now apply (R q key)|].
  apply list_elem_of_singleton in Hq as ->. now apply elem_of_nil in Hkey.
Qed.

Lemma addText_imagesRegistered text x y options d d' :
  imagesRegistered d ->
  after (addText text x y options d) = Some d' -> imagesRegistered d'.
Proof.
  intros R. rewrite addText_unfold. cbv zeta.
  set (d1 := if overflows _ y d then addPage d else d).
  assert (R1 : imagesRegistered d1).
  { subst d1. destruct (overflows _ _ _); [now apply addPage_imagesRegistered | exact R]. }
  destruct (pageAt (pages d1) (currentPageIndex d1)) as [p|] eqn:Hp; simpl;
    intros [= <-]; [|exact R1].
  apply (storePage_imagesRegistered _ _ p); auto.
Qed.

Lemma addImage_imagesRegistered imageData x y options d d' :
  imagesRegistered d ->
  after (addImage imageData x y options d) = Some d' -> imagesRegistered d'.
Proof.
  intros R. rewrite addImage_unfold, addImageEnter_unfold. cbv zeta.
  set (d1 := snd (if overflows _ y d then _ else _)).
  assert (R1 : imagesRegistered d1).
  { subst d1. destruct (overflows _ _ _); [now apply addPage_imagesRegistered | exact R]. }
  destruct (processImage imageData) as [processedData|];
    [|simpl; now intros [= <-]].
  rewrite addImageResume_unfold. cbv zeta.
  set (key := lit "I" ++ natToString (length (images d1) + 1)).
  set (d2 := match imagesGet (images d1) key with Some _ => d1 | None => _ end).
  assert (R2 : imagesRegistered d2 /\ is_Some (imagesGet (images d2) key)).
  { subst d2. destruct (imagesGet (images d1) key) eqn:E; [split; [exact R1 | eauto]|].
    split; [|apply imagesGet_last].
    intros q k Hq Hk. cbn [pages images with_images with_objectCounter] in *.
    apply imagesGet_app. now apply (R1 q k). }
  destruct R2 as [R2 K].
  destruct (pageAt (pages d2) (currentPageIndex d2)) as [p|] eqn:Hp; simpl;
    intros [= <-]; [|exact R2].
  apply (storePage_imagesRegistered _ _ p); [exact R2 | exact Hp|].
  intros k Hk. cbn in Hk. apply setAdd_elem in Hk as [->|Hk]; auto.
Qed.

Lemma drawn_invariants cfg d :
  drawn cfg d -> config d = cfg /\ idsCovered d /\ imagesRegistered d.
Proof.
  induction 1 as [|d c d' _ (C & I & R) Hc H].
  - split; [reflexivity|]. split; [apply constructor_idsCovered|].
    intros p key Hp Hk. change (pages (constructor cfg)) with [blankPage 1] in Hp.
    apply list_elem_of_singleton in Hp as ->. now apply elem_of_nil in Hk.
  - destruct c as [|text x y options|imageData x y options|fuel];
      cbn [perform isDrawing] in *; try discriminate.
    + injection H as <-. split; [exact C|].
      split; [eapply extends_idsCovered; [apply addPage_extends | exact I]|].
      now apply addPage_imagesRegistered.
    + pose proof (addText_extends _ _ _ _ _ _ H) as E.
      split; [destruct E as [-> _]; exact C|].
      split; [eapply extends_idsCovered; eauto|].
      eapply addText_imagesRegistered; eauto.
    + pose proof (addImage_extends _ _ _ _ _ _ H) as E.
      split; [destruct E as [-> _]; exact C|].
      split; [eapply extends_idsCovered; eauto|].
      eapply addImage_imagesRegistered; eauto.
Qed.

(** The first output of a document: with callbacks that start no page,
    images [atob] accepts, and fuel for a turn per page, the build
    returns. *)
Lemma drawn_buildPdf_returns cfg d fuel :
  drawn cfg d -> callbacksPlaceOnly cfg -> imagesDecodable d ->
  length (pages d) <= fuel ->
  exists bytes d', buildPdf fuel d = Return bytes d'.
Proof.
  intros D N A B. destruct (drawn_invariants _ _ D) as (C & I & R).
  destruct (buildPdf_returns fuel d I R A) as [bytes H]; [now rewrite C | exact B|].
  eauto.
Qed.

Lemma drawn_reachable cfg d : drawn cfg d -> reachable cfg d.
Proof.
  induction 1 as [|d c d' _ IH _ H]; [constructor|].
  now apply (reachable_call _ d c).
Qed.

Lemma performAll_reachable cfg cs : forall d,
  reachable cfg d -> reachable cfg (performAll cs d).
Proof.
  induction cs as [|c cs IH]; intros d R; cbn [performAll]; [exact R|].
  destruct (perform c d) as [d'|] eqn:E; [|exact R].
  apply IH. now apply (reachable_call _ d c).
Qed.

Lemma performAll_drawn cfg cs : forall d,
  forallb isDrawing cs = true -> drawn cfg d -> drawn cfg (performAll cs d).
Proof.
  induction cs as [|c cs IH]; intros d A D; cbn [performAll]; [exact D|].
  cbn [forallb] in A. apply andb_true_iff in A as [Ac A].
  destruct (perform c d) as [d'|] eqn:E; [|exact D].
  apply IH; [exact A|]. now apply (drawn_call _ d c).
Qed.

End Drawn.

Lemma addObjects_offset objs : forall s,
  Ser.currentOffset (addObjects objs s)
  = Ser.currentOffset s + length (objectsText objs).
Proof.
  induction objs as [|o objs IH]; intros s; [cbn; lia|].
  change (addObjects (o :: objs) s)
    with (addObjects objs (addObject (fst o) (snd o) s)).
  rewrite IH. unfold objectsText. cbn [addObject Ser.currentOffset flat_map].
  rewrite length_app. lia.
Qed.

Lemma addObjects_xref_other objs : forall s k,
  k ∉ map fst objs -> Ser.xref (addObjects objs s) !! k = Ser.xref s !! k.
Proof.
  induction objs as [|o objs IH]; intros s k H; [reflexivity|].
  change (addObjects (o :: objs) s)
    with (addObjects objs (addObject (fst o) (snd o) s)).
  cbn [map] in H. apply not_elem_of_cons in H as [Hne H].
  rewrite (IH _ _ H). cbn [addObject Ser.xref]. now rewrite lookup_insert_ne.
Qed.

(** The offset recorded for an id is the length of what the buffer held
    when the object with that id was added. *)
Lemma addObjects_xref_position before k content after s :
  NoDup (map fst (before ++ (k, content) :: after)) ->
  Ser.xref (addObjects (before ++ (k, content) :: after) s) !! k
  = Some (Ser.currentOffset s + length (objectsText before)).
Proof.
  intros ND. rewrite addObjects_app.
  change (addObjects ((k, content) :: after) (addObjects before s))
    with (addObjects after (addObject k content (addObjects before s))).
  rewrite addObjects_xref_other.
  - cbn [addObject Ser.xref]. now rewrite lookup_insert_eq, addObjects_offset.
  - rewrite map_app in ND. apply NoDup_app in ND as (_ & _ & ND).
    cbn [map fst] in ND. now apply NoDup_cons in ND as [ND _].
Qed.

Lemma toBytes_zeros n : toBytes (replicate n 48%Z) = replicate n 48%Z.
Proof. induction n as [|n IH]; [reflexivity|]. cbn. now f_equal. Qed.

Lemma toBytes_xrefLines offsets :
  toBytes (flat_map xrefLine offsets)
  = flat_map (fun off => replicate (10 - length (natToString off)) 48%Z
                         ++ natToString off ++ lit " 00000 n " ++ nl) offsets.
Proof.
  induction offsets as [|off offsets IH]; [reflexivity|].
  cbn [flat_map]. rewrite toBytes_app, IH. f_equal.
  unfold xrefLine, padStart10.
  rewrite !toBytes_app, toBytes_zeros, toBytes_natToString, toBytes_lit.
  change (toBytes nl) with nl. now rewrite <- !app_assoc.
Qed.

Lemma objectsText_spelled objs :
  objectsText objs
  = flat_map (fun o => natToString (fst o) ++ lit " 0 obj" ++ nl
                       ++ snd o ++ nl ++ lit "endobj" ++ nl) objs.
Proof.
  unfold objectsText. apply flat_map_ext. intros o.
  unfold fullObj, objHeader, objFooter. now rewrite <- !app_assoc.
Qed.

(** C1: the output of a build, written out: the header line, the
    objects [objs] one after the other, each as [k 0 obj], its content
    and [endobj], then the cross-reference table, the trailer and the
    offset of the table.  The table has one entry for each id from 1 to
    [Size - 1], which is an offset padded with zeros to ten digits, then
    [ 00000 n ] and a line feed; and for every object the build wrote,
    the offset in entry [k] is the length of what stands before that
    object in the output, the index of the byte at which its header
    [k 0 obj] starts.  The first output asked of a document does exist,
    for callbacks that start no page and images [atob] accepts. *)
Theorem xref_offsets_exact {host : Host}
    (cfg : PdfConfig.t) (d : PdfCreator) (fuel : nat) :
  reachable cfg d ->
  (forall bytes d',
      buildPdf fuel d = Return bytes d' ->
      exists objs offsets,
        objectsOf d' = Some objs
        /\ bytes
           = toBytes (lit "%PDF-1.7" ++ nl
                      ++ flat_map (fun o => natToString (fst o) ++ lit " 0 obj" ++ nl
                                            ++ snd o ++ nl ++ lit "endobj" ++ nl)
                           objs)
             ++ lit "xref" ++ nl
             ++ lit "0 " ++ natToString (objectCounter d') ++ nl
             ++ lit "0000000000 65535 f " ++ nl
             ++ flat_map (fun off => replicate (10 - length (natToString off)) 48%Z
                                     ++ natToString off ++ lit " 00000 n " ++ nl)
                  offsets
             ++ lit "trailer" ++ nl
             ++ lit "<< /Size " ++ natToString (objectCounter d')
             ++ lit " /Root " ++ natToString (catalogIdOf d') ++ lit " 0 R >>" ++ nl
             ++ lit "startxref" ++ nl
             ++ natToString
                  (length (lit "%PDF-1.7" ++ nl
                           ++ flat_map (fun o => natToString (fst o) ++ lit " 0 obj"
                                                 ++ nl ++ snd o ++ nl
                                                 ++ lit "endobj" ++ nl)
                                objs))
             ++ nl ++ lit "%%EOF"
        /\ length offsets = objectCounter d' - 1
        /\ forall k content,
             (k, content) ∈ objs ->
             1 <= k
             /\ exists off before after,
                  objs = before ++ (k, content) :: after
                  /\ offsets !! (k - 1) = Some off
                  /\ off
                     = length
                         (lit "%PDF-1.7" ++ nl
                          ++ flat_map (fun o => natToString (fst o) ++ lit " 0 obj"
                                                ++ nl ++ snd o ++ nl
                                                ++ lit "endobj" ++ nl)
                               before)
                  /\ beginsAt (natToString k ++ lit " 0 obj") off bytes)
  /\ (drawn cfg d -> callbacksPlaceOnly cfg -> imagesDecodable d ->
      length (pages d) <= fuel ->
      exists bytes d', buildPdf fuel d = Return bytes d').
Proof.
  intros R. split; [|intros; now apply (drawn_buildPdf_returns cfg)].
  intros bytes d' H.
  destruct (buildPdf_returned _ _ _ _ H) as (d1 & objs & lines & Hp & -> & Ho & Hl & ->).
  assert (D1 : idsDistinct d1).
  { eapply extends_idsDistinct; [|exact (reachable_idsDistinct _ _ R)].
    apply (applyHeaderFooter_extends fuel). now rewrite Hp. }
  assert (C1 : 1 <= objectCounter d1) by apply D1.
  assert (ND : NoDup (map fst objs)).
  { rewrite (objectsOf_ids _ _ Ho). unfold emittedIds, catalogIdOf, pagesRootIdOf.
    change (entityIds (with_objectCounter _ d1)) with (entityIds d1).
    cbn [objectCounter with_objectCounter].
    destruct D1 as (_ & ND1 & F1). rewrite Forall_forall in F1.
    apply NoDup_cons. split.
    - intros Hin. apply elem_of_cons in Hin as [Hin|Hin]; [lia|].
      apply F1 in Hin. lia.
    - apply NoDup_cons. split; [|exact ND1].
      intros Hin. apply F1 in Hin. lia. }
  apply bump_idsDistinct in D1.
  set (d' := with_objectCounter _ d1) in *.
  destruct (xrefLines_Some _ _ _ Hl) as (offsets & -> & Ln & P).
  exists objs, offsets. split; [exact Ho|]. split.
  { rewrite <- objectsText_spelled.
    replace (lit "%PDF-1.7" ++ nl ++ objectsText objs)
      with (pdfHeader ++ objectsText objs)
      by (unfold pdfHeader; now rewrite <- app_assoc).
    rewrite (app_assoc pdfHeader), (toBytes_app (pdfHeader ++ objectsText objs)).
    f_equal. unfold xrefHead, trailer.
    rewrite !toBytes_app, toBytes_xrefLines, !toBytes_lit, !toBytes_natToString.
    change (toBytes nl) with nl. now rewrite <- !app_assoc. }
  split; [now rewrite Ln, length_seq|].
  intros k content Hk.
  assert (B : 1 <= k < objectCounter d').
  { assert (Hin : k ∈ emittedIds d').
    { rewrite <- (objectsOf_ids _ _ Ho). apply list_elem_of_In, in_map_iff.
      exists (k, content). split; [reflexivity | now apply list_elem_of_In]. }
    destruct D1 as (H1 & _ & F). rewrite Forall_forall in F.
    unfold emittedIds in Hin.
    apply elem_of_cons in Hin as [->|Hin];
      [subst d'; unfold catalogIdOf; cbn in *; lia|].
    apply elem_of_cons in Hin as [->|Hin];
      [subst d'; unfold pagesRootIdOf; cbn in *; lia|].
    now apply F. }
  split; [lia|].
  destruct (P (k - 1) k) as (off & Hx & Hoff).
  { rewrite lookup_seq_lt by lia. f_equal. lia. }
  destruct (list_elem_of_split _ _ Hk) as (before & after & Eobjs).
  exists off, before, after. split; [exact Eobjs|]. split; [exact Hoff|]. split.
  { rewrite Eobjs in Hx, ND.
    rewrite (addObjects_xref_position _ _ _ _ _ ND) in Hx.
    cbn [Ser.currentOffset] in Hx. injection Hx as <-.
    rewrite <- objectsText_spelled, app_assoc, length_app. reflexivity. }
  assert (C : serConsistent
                (addObjects objs (Ser.mk pdfHeader (length pdfHeader) {[ 0 := 0 ]})))
    by (apply addObjects_consistent, initial_consistent).
  destruct C as [_ X]. specialize (X k off ltac:(lia) Hx).
  rewrite addObjects_buffer in X. cbn [Ser.buffer] in X.
  rewrite app_assoc. now apply header_in_bytes.
Qed.


(** ** Page numbers are drawn verbatim *)









(** ** The default footer, written out *)




(** ** Examples *)

Example hexToRgb_red :
  hexToRgb (lit "#FF0000") = Rgb.mk (255 # 255) (0 # 255) (0 # 255).
Proof. reflexivity. Qed.

Example hexToRgb_named_colour : hexToRgb (lit "red") = Rgb.mk 0 0 0.
Proof. reflexivity. Qed.

Example fontKey_bold_times :
  fontKeyOf (lit "Times") (lit "bold") = lit "times-bold"
  /\ fontResourceNameOf (lit "times-bold") = lit "F6"
  /\ baseFontOf (lit "F6") = lit "Times-Bold".
Proof. repeat split; reflexivity. Qed.

Example escapeText_parentheses :
  escapeText (lit "f(x)") = [102; 92; 40; 120; 92; 41]%Z.
Proof. reflexivity. Qed.

Example readme_page_count : length (pages readmeBuilt) = 2.
Proof. reflexivity. Qed.

Example readme_ids : emittedIds readmeBuilt = [6; 7; 1; 2; 4; 5; 3].
Proof. reflexivity. Qed.

(** The output for a line of text set in [Arial] names the base font
    [undefined]. *)
Example arial_output_names_undefined :
  exists d1 bytes d2 off,
    @addText sampleHost (lit "Hi") (20 # 1) (20 # 1) arialOptions plainDoc
    = Return (20 # 1) d1
    /\ @buildPdf sampleHost 1 d1 = Return bytes d2
    /\ beginsAt (lit "/F0 << /Type /Font /Subtype /Type1 /BaseFont /undefined >>")
         off bytes.
Proof.
  eexists _, _, _, 221. split; [vm_compute; reflexivity|].
  split; [vm_compute; reflexivity|].
  vm_compute. reflexivity.
Qed.

(** Asking the same document for its output again throws: the catalog
    and page-tree ids of the first build are written by no object of the
    second one, and [xref[i]] is [undefined] for them. *)
Example second_output_throws :
  exists d', @buildPdf sampleHost 2 readmeBuilt = Throw TypeError d'.
Proof. eexists. vm_compute. reflexivity. Qed.

(** ** Instances on sample documents *)



Lemma rejected_image_keeps_content_witness :
  exists d',
    @addImage offlineHost (lit "https://example.org/a.png") (20 # 1) (800 # 1)
      squareImage plainDoc = Throw ImageError d'
    /\ images d' = images plainDoc
    /\ (forall i p, pages plainDoc !! i = Some p -> pages d' !! i = Some p)
    /\ (validIndex plainDoc -> validIndex d').
Proof.
  apply (@rejected_image_keeps_content offlineHost). reflexivity.
Defined.






Lemma xref_offsets_exact_witness :
  (exists objs offsets,
      @objectsOf sampleHost readmeBuilt = Some objs
      /\ readmeBytes
         = toBytes (lit "%PDF-1.7" ++ nl
                    ++ flat_map (fun o => natToString (fst o) ++ lit " 0 obj" ++ nl
                                          ++ snd o ++ nl ++ lit "endobj" ++ nl)
                         objs)
           ++ lit "xref" ++ nl
           ++ lit "0 " ++ natToString (objectCounter readmeBuilt) ++ nl
           ++ lit "0000000000 65535 f " ++ nl
           ++ flat_map (fun off => replicate (10 - length (natToString off)) 48%Z
                                   ++ natToString off ++ lit " 00000 n " ++ nl)
                offsets
           ++ lit "trailer" ++ nl
           ++ lit "<< /Size " ++ natToString (objectCounter readmeBuilt)
           ++ lit " /Root " ++ natToString (catalogIdOf readmeBuilt)
           ++ lit " 0 R >>" ++ nl
           ++ lit "startxref" ++ nl
           ++ natToString
                (length (lit "%PDF-1.7" ++ nl
                         ++ flat_map (fun o => natToString (fst o) ++ lit " 0 obj"
                                               ++ nl ++ snd o ++ nl
                                               ++ lit "endobj" ++ nl)
                              objs))
           ++ nl ++ lit "%%EOF"
      /\ length offsets = objectCounter readmeBuilt - 1
      /\ forall k content,
           (k, content) ∈ objs ->
           1 <= k
           /\ exists off before after,
                objs = before ++ (k, content) :: after
                /\ offsets !! (k - 1) = Some off
                /\ off
                   = length
                       (lit "%PDF-1.7" ++ nl
                        ++ flat_map (fun o => natToString (fst o) ++ lit " 0 obj"
                                              ++ nl ++ snd o ++ nl
                                              ++ lit "endobj" ++ nl)
                             before)
                /\ beginsAt (natToString k ++ lit " 0 obj") off readmeBytes)
  /\ (exists bytes d', @buildPdf sampleHost 2 readmeDoc = Return bytes d').
Proof.
  destruct (@xref_offsets_exact sampleHost PdfConfig.none readmeDoc 2) as [P T].
  - apply performAll_reachable, reachable_new.
  - split.
    + apply P. vm_compute. reflexivity.
    + apply T.
      * apply performAll_drawn; [reflexivity | apply drawn_new].
      * split; exact I.
      * intros key img _. cbn. eauto.
      * vm_compute. lia.
Defined.


Lemma allocator_ids_distinct_witness :
  fst (getNextId (fieldInitialisers PdfConfig.none)) = 1
  /\ fst (allocate 3 readmeDoc) = seq (objectCounter readmeDoc) 3
  /\ NoDup (entityIds readmeDoc)
  /\ Forall (fun i => 1 <= i < objectCounter readmeDoc) (entityIds readmeDoc)
  /\ forall fuel bytes d',
       @buildPdf sampleHost fuel readmeDoc = Return bytes d' ->
       NoDup (emittedIds d')
       /\ Forall (fun i => 1 <= i < objectCounter d') (emittedIds d')
       /\ exists objs, @objectsOf sampleHost d' = Some objs
                       /\ map fst objs = emittedIds d'.
Proof.
  apply (@allocator_ids_distinct sampleHost PdfConfig.none readmeDoc 3).
  apply performAll_reachable, reachable_new.
Defined.

(** * Further properties *)

(** ** The constructor *)

Lemma mathMin_spec a b :
  (mathMin a b <= a)%Q /\ (mathMin a b <= b)%Q
  /\ (mathMin a b = a \/ mathMin a b = b).
Proof.
  unfold mathMin. destruct (Qle_bool a b) eqn:E.
  - apply Qle_bool_iff in E. repeat split; [apply Qle_refl | exact E | now left].
  - assert (L : (b < a)%Q).
    { apply Qnot_le_lt. intros H. apply Qle_bool_iff in H. congruence. }
    repeat split; [now apply Qlt_le_weak | apply Qle_refl | now right].
Qed.

(** X1: whatever the configuration, a new document reserves at most 200
    units for the header and for the footer: each reserved height is the
    configured one (0 when left out) or 200, whichever is smaller, so a
    negative height is kept as it is.  The document starts with one blank
    page holding the ids 1 and 2, which is the current page, and with an
    empty image registry. *)
Theorem constructor_clamps_heights (cfg : PdfConfig.t) :
  (headerHeight (constructor cfg) <= 200 # 1)%Q
  /\ (headerHeight (constructor cfg) <= orZero (PdfConfig.headerHeight cfg))%Q
  /\ (headerHeight (constructor cfg) = orZero (PdfConfig.headerHeight cfg)
      \/ headerHeight (constructor cfg) = 200 # 1)
  /\ (footerHeight (constructor cfg) <= 200 # 1)%Q
  /\ (footerHeight (constructor cfg) <= orZero (PdfConfig.footerHeight cfg))%Q
  /\ (footerHeight (constructor cfg) = orZero (PdfConfig.footerHeight cfg)
      \/ footerHeight (constructor cfg) = 200 # 1)
  /\ pages (constructor cfg) = [Page.mk 1 2 [] (Resources.mk [] [])]
  /\ currentPageIndex (constructor cfg) = 0%Z
  /\ objectCounter (constructor cfg) = 3
  /\ images (constructor cfg) = []
  /\ isApplyingHeaderFooter (constructor cfg) = false
  /\ config (constructor cfg) = cfg.
Proof.
  destruct (mathMin_spec (orZero (PdfConfig.headerHeight cfg)) MAX_HEADER_HEIGHT)
    as (Hh1 & Hh2 & Hh3).
  destruct (mathMin_spec (orZero (PdfConfig.footerHeight cfg)) MAX_FOOTER_HEIGHT)
    as (Hf1 & Hf2 & Hf3).
  repeat split; try reflexivity; try assumption.
Qed.

(** ** Escaping *)

Lemma replaceUnit_flat c by_ s :
  replaceUnit c by_ s = flat_map (fun u => if decide (u = c) then by_ else [u]) s.
Proof. reflexivity. Qed.

Lemma escapeText_cons c s : escapeText (c :: s) = escapeUnit c ++ escapeText s.
Proof.
  unfold escapeText, replaceUnit, escapeUnit, isSpecialUnit. cbn [flat_map].
  destruct (decide (c = 92%Z)) as [->|N1].
  - cbn. reflexivity.
  - cbn [app flat_map]. destruct (decide (c = 40%Z)) as [->|N2].
    + cbn. reflexivity.
    + cbn [app flat_map]. destruct (decide (c = 41%Z)) as [->|N3].
      * cbn. reflexivity.
      * cbn [app].
        destruct (Z.eqb_spec c 92), (Z.eqb_spec c 40), (Z.eqb_spec c 41);
          try contradiction. reflexivity.
Qed.

Lemma escapeText_flat s : escapeText s = flat_map escapeUnit s.
Proof.
  induction s as [|c s IH]; [reflexivity|].
  rewrite escapeText_cons. cbn [flat_map]. now rewrite IH.
Qed.

(** X2: the text [escapeText] returns is the body of a well-formed
    literal string that reads back as the original text: every backslash
    and parenthesis of the text is preceded by a backslash and nothing
    else is changed, so no text can close the literal it is written
    in. *)
Theorem escapeText_reads_back (text : jsstring) :
  readLiteral (escapeText text) = Some text.
Proof.
  induction text as [|c s IH]; [reflexivity|].
  rewrite escapeText_cons. unfold escapeUnit.
  destruct (isSpecialUnit c) eqn:E.
  - cbn [app readLiteral]. change (92 =? 92)%Z with true. cbn iota.
    rewrite E, IH. reflexivity.
  - cbn [app readLiteral]. rewrite E.
    assert (N : (c =? 92)%Z = false).
    { unfold isSpecialUnit in E. destruct (c =? 92)%Z; [discriminate | reflexivity]. }
    rewrite N, IH. reflexivity.
Qed.

(** X3: escaping works unit by unit: the escape of a concatenation is
    the concatenation of the escapes, and the escaped text is longer than
    the text by one unit for each backslash or parenthesis in it. *)
Theorem escapeText_unit_by_unit (a b : jsstring) :
  escapeText (a ++ b) = escapeText a ++ escapeText b
  /\ length (escapeText a) = length a + length (List.filter isSpecialUnit a).
Proof.
  split.
  - rewrite !escapeText_flat. apply flat_map_app.
  - induction a as [|c s IH]; [reflexivity|].
    rewrite escapeText_cons, length_app, IH. cbn [List.filter length].
    unfold escapeUnit. destruct (isSpecialUnit c); cbn [length]; lia.
Qed.

(** ** Colours, once more *)

Lemma lowerUnit_idempotent c : lowerUnit (lowerUnit c) = lowerUnit c.
Proof.
  unfold lowerUnit.
  destruct ((65 <=? c) && (c <=? 90))%Z eqn:E; [|now rewrite E].
  apply andb_true_iff in E as [Lo Hi].
  apply Z.leb_le in Lo. apply Z.leb_le in Hi.
  destruct (Z.leb_spec (c + 32) 90); [lia|].
  now rewrite andb_false_r.
Qed.

Lemma hexDigit_lowerUnit c : hexDigit (lowerUnit c) = hexDigit c.
Proof.
  unfold lowerUnit.
  destruct ((65 <=? c) && (c <=? 90))%Z eqn:E; [|reflexivity].
  apply andb_true_iff in E as [Lo Hi].
  apply Z.leb_le in Lo. apply Z.leb_le in Hi. unfold hexDigit.
  repeat match goal with
         | |- context [(?a <=? ?b)%Z] => destruct (Z.leb_spec a b)
         end; cbn [andb]; try reflexivity; try lia; f_equal; lia.
Qed.

Lemma parseInt16_from_lower s : forall acc,
  parseInt16_from acc (toLowerCase s) = parseInt16_from acc s.
Proof.
  induction s as [|c s IH]; intros acc; [reflexivity|].
  cbn [toLowerCase map parseInt16_from]. rewrite hexDigit_lowerUnit.
  destruct (hexDigit c); [apply IH | reflexivity].
Qed.

Lemma parseInt16_lower s : parseInt16 (toLowerCase s) = parseInt16 s.
Proof.
  destruct s as [|c s]; [reflexivity|].
  unfold parseInt16. cbn [toLowerCase map].
  apply (parseInt16_from_lower (c :: s)).
Qed.

Lemma matchGroups_lower s : matchGroups (toLowerCase s) = matchGroups s.
Proof.
  do 6 (destruct s as [|? s]; [reflexivity|]).
  destruct s; [|reflexivity]. cbn [toLowerCase map matchGroups].
  change [lowerUnit z; lowerUnit z0] with (toLowerCase [z; z0]).
  change [lowerUnit z1; lowerUnit z2] with (toLowerCase [z1; z2]).
  change [lowerUnit z3; lowerUnit z4] with (toLowerCase [z3; z4]).
  now rewrite !parseInt16_lower.
Qed.

Lemma afterHash_lower s :
  afterHash (toLowerCase s) = option_map toLowerCase (afterHash s).
Proof.
  destruct s as [|c s]; [reflexivity|]. cbn [toLowerCase map afterHash].
  assert (E : (lowerUnit c =? 35)%Z = (c =? 35)%Z).
  { unfold lowerUnit.
    destruct ((65 <=? c) && (c <=? 90))%Z eqn:E; [|reflexivity].
    apply andb_true_iff in E as [Lo Hi].
    apply Z.leb_le in Lo. apply Z.leb_le in Hi.
    destruct (Z.eqb_spec (c + 32) 35), (Z.eqb_spec c 35); try reflexivity; lia. }
  rewrite E. now destruct (c =? 35)%Z.
Qed.

(** X4: [hexToRgb] does not tell upper-case from lower-case digits: a
    colour string and its lower-case form decode to the same colour. *)
Theorem hexToRgb_ignores_case (hex : jsstring) :
  hexToRgb (toLowerCase hex) = hexToRgb hex.
Proof.
  unfold hexToRgb, hexRegexExec. rewrite afterHash_lower.
  destruct (afterHash hex) as [rest|]; cbn [option_map];
    now rewrite ?matchGroups_lower.
Qed.

(** X5: a colour string that is neither six nor seven units long decodes
    to black: the short form [#RGB], a colour name, the [rgb(r, g, b)]
    notation and the empty string are all read as black, with no error. *)
Theorem hexToRgb_other_lengths_black (hex : jsstring) :
  length hex <> 6 -> length hex <> 7 -> hexToRgb hex = Rgb.mk 0 0 0.
Proof.
  intros H6 H7. unfold hexToRgb, hexRegexExec.
  rewrite (matchGroups_length hex H6).
  destruct (afterHash hex) as [rest|] eqn:E; [|reflexivity].
  rewrite (matchGroups_length rest); [reflexivity|].
  destruct hex as [|c s]; [discriminate|]. cbn in E.
  destruct (c =? 35)%Z; [|discriminate]. injection E as <-. cbn in H7. lia.
Qed.

(** ** Fonts, once more *)

Lemma indexOf_ownProperty (table : list (jsstring * jsstring)) key :
  match indexOf (map fst table) key with
  | Some i => exists v, ownProperty table key = Some v /\ table !! i = Some (key, v)
  | None => ownProperty table key = None
  end.
Proof.
  induction table as [|[k v] table IH]; [reflexivity|].
  cbn [map fst indexOf ownProperty].
  destruct (decide (k = key)) as [->|N]; [now exists v|].
  destruct (indexOf (map fst table) key) as [i|]; [|exact IH].
  destruct IH as (w & Hw & Hi). now exists w.
Qed.

Lemma baseFontOf_index i kv :
  standardFonts !! i = Some kv ->
  baseFontOf (lit "F" ++ natToString (S i)) = snd kv.
Proof.
  do 12 (destruct i as [|i]; [now intros [= <-]|]). discriminate.
Qed.

(** X6: for every family and style, the resource name [addText]
    registers is given, in the resource dictionary of the page, the font
    the table holds for the key [family-style] when the key is one of the
    table's twelve, and the base font [undefined] in every other case. *)
Theorem registered_font_base_name (font style : jsstring) :
  baseFontOf (fontResourceNameOf (fontKeyOf font style))
  = tableFontOf (fontKeyOf font style).
Proof.
  unfold fontResourceNameOf, tableFontOf, standardFontKeys.
  pose proof (indexOf_ownProperty standardFonts (fontKeyOf font style)) as H.
  destruct (indexOf (map fst standardFonts) (fontKeyOf font style)) as [i|].
  - destruct H as (v & -> & Hi). now rewrite (baseFontOf_index _ _ Hi).
  - rewrite H. reflexivity.
Qed.

Lemma stripNormal_suffix s : stripNormal (s ++ lit "-normal") = s.
Proof.
  unfold stripNormal. rewrite length_app. cbn [length lit].
  replace (length s + 7 - 7) with (length s) by lia.
  rewrite drop_app_length, take_app_length.
  destruct (decide _); [reflexivity | contradiction].
Qed.

(** X7: the key under which a font is looked up does not depend on the
    letter case of the family or of the style, and with the style
    [normal] it is the lower-case family alone. *)
Theorem fontKeyOf_case_and_normal (font style : jsstring) :
  fontKeyOf (toLowerCase font) (toLowerCase style) = fontKeyOf font style
  /\ fontKeyOf font (lit "normal") = toLowerCase font
  /\ fontKeyOf font (lit "NORMAL") = toLowerCase font.
Proof.
  assert (I : forall s, toLowerCase (toLowerCase s) = toLowerCase s).
  { intros s. unfold toLowerCase. rewrite map_map. apply map_ext.
    intros c. apply lowerUnit_idempotent. }
  split; [unfold fontKeyOf; now rewrite !I|].
  split; unfold fontKeyOf;
    change (toLowerCase (lit _)) with (lit "normal");
    change (lit "-" ++ lit "normal") with (lit "-normal");
    apply stripNormal_suffix.
Qed.

(** ** Data URLs *)

Lemma startsWith_app p s : startsWith p (p ++ s) = true.
Proof.
  induction p as [|c p IH]; [reflexivity|]. cbn.
  destruct (decide (c = c)); [exact IH | contradiction].
Qed.

Lemma dropWhileWord_app w rest :
  forallb isWordUnit w = true ->
  match rest with c :: _ => isWordUnit c = false | [] => True end ->
  dropWhileWord (w ++ rest) = rest.
Proof.
  intros W R. induction w as [|c w IH].
  - destruct rest as [|c rest]; [reflexivity|]. cbn. now rewrite R.
  - cbn in W. apply andb_true_iff in W as [Wc W]. cbn. rewrite Wc. now apply IH.
Qed.

Lemma dropWhileWord_suffix s : exists pre, s = pre ++ dropWhileWord s.
Proof.
  induction s as [|c s (pre & IH)]; [now exists []|].
  cbn. destruct (isWordUnit c); [|now exists []].
  exists (c :: pre). cbn. now rewrite <- IH.
Qed.

(** X8: [stripDataUrlPrefix] removes the prefix
    [data:image/<type>;base64,] of a data URL, for any image type written
    with letters, digits and underscores, and returns the payload that
    follows; whatever the argument, what it returns is a final part of
    the argument, so the payload itself is never altered. *)
Theorem stripDataUrlPrefix_payload (type payload : jsstring) :
  type <> [] ->
  forallb isWordUnit type = true ->
  stripDataUrlPrefix (lit "data:image/" ++ type ++ lit ";base64," ++ payload)
  = payload
  /\ forall s, exists pre, s = pre ++ stripDataUrlPrefix s.
Proof.
  intros Ne W. split.
  - unfold stripDataUrlPrefix. rewrite startsWith_app, drop_app_length.
    rewrite (dropWhileWord_app type (lit ";base64," ++ payload) W) by reflexivity.
    rewrite startsWith_app, drop_app_length.
    destruct (Nat.eqb_spec (length (lit ";base64," ++ payload))
                (length (type ++ lit ";base64," ++ payload))) as [E|_];
      [|reflexivity].
    destruct type; [contradiction|].
    rewrite (length_app (_ :: _)) in E. cbn [length] in E. lia.
  - intros s. unfold stripDataUrlPrefix.
    destruct (startsWith (lit "data:image/") s); [|now exists []].
    cbv zeta.
    destruct (negb _ && startsWith _ _); [|now exists []].
    destruct (dropWhileWord_suffix (drop (length (lit "data:image/")) s))
      as (pre & E).
    exists (take (length (lit "data:image/")) s ++ pre
            ++ take (length (lit ";base64,"))
                 (dropWhileWord (drop (length (lit "data:image/")) s))).
    rewrite <- !app_assoc, take_drop, <- E. now rewrite take_drop.
Qed.


Lemma hexToRgb_other_lengths_black_witness :
  hexToRgb (lit "#f00") = Rgb.mk 0 0 0.
Proof.
  apply (hexToRgb_other_lengths_black (lit "#f00")); vm_compute; discriminate.
Defined.

Lemma stripDataUrlPrefix_payload_witness :
  stripDataUrlPrefix (lit "data:image/" ++ lit "png" ++ lit ";base64," ++ lit "iVBORw0KGgo=")
  = lit "iVBORw0KGgo="
  /\ forall s, exists pre, s = pre ++ stripDataUrlPrefix s.
Proof.
  apply (stripDataUrlPrefix_payload (lit "png") (lit "iVBORw0KGgo="));
    [discriminate | reflexivity].
Defined.

(** ** The bytes of the output *)

Lemma toBytes_bytes s : Forall (fun b => (0 <= b < 256)%Z) (toBytes s).
Proof.
  unfold toBytes. apply Forall_map, Forall_forall. intros c _.
  change 255%Z with (Z.ones 8). rewrite Z.land_ones by lia.
  apply Z.mod_pos_bound. reflexivity.
Qed.

Lemma toBytes_of_bytes s : Forall (fun b => (0 <= b < 256)%Z) s -> toBytes s = s.
Proof.
  induction 1 as [|c s Hc _ IH]; [reflexivity|].
  unfold toBytes in *. cbn [map]. now rewrite land_255_byte, IH.
Qed.

Lemma toBytes_lookup s : forall i,
  toBytes s !! i = (fun c => (c mod 256)%Z) <$> s !! i.
Proof.
  unfold toBytes. induction s as [|c s IH]; intros [|i]; cbn; try reflexivity.
  - change 255%Z with (Z.ones 8). now rewrite Z.land_ones by lia.
  - apply IH.
Qed.

(** X9: the array a build returns is the buffer the build assembled,
    unit by unit: it is as long as the buffer, and its element at every
    index is the code unit the buffer holds at that index, modulo 256.
    So every element is a byte, a unit below 256 is written as it is, and
    a unit from 256 on loses its high bits.  The buffer is the header
    line, the objects, the head of the table, its entries and the
    trailer. *)
Theorem output_is_low_bytes {host : Host}
    (fuel : nat) (d : PdfCreator) (bytes : list Z) (d' : PdfCreator) :
  buildPdf fuel d = Return bytes d' ->
  exists objs lines,
    objectsOf d' = Some objs
    /\ xrefLines
         (Ser.xref (addObjects objs (Ser.mk pdfHeader (length pdfHeader) {[ 0 := 0 ]})))
         (seq 1 (objectCounter d' - 1)) = Some lines
    /\ let buffer :=
         pdfHeader ++ objectsText objs ++ xrefHead (objectCounter d') ++ lines
         ++ trailer (objectCounter d') (catalogIdOf d')
              (length (pdfHeader ++ objectsText objs)) in
       length bytes = length buffer
       /\ (forall i, bytes !! i = (fun c => (c mod 256)%Z) <$> buffer !! i)
       /\ (forall i c,
             buffer !! i = Some c -> (0 <= c < 256)%Z -> bytes !! i = Some c)
       /\ Forall (fun b => (0 <= b < 256)%Z) bytes.
Proof.
  intros B.
  destruct (buildPdf_returned _ _ _ _ B) as (d1 & objs & lines & _ & _ & O & X & E).
  exists objs, lines. split; [exact O|]. split; [exact X|].
  intros buffer. fold buffer in E. clearbody buffer. subst bytes.
  split; [apply toBytes_length|]. split; [apply toBytes_lookup|].
  split; [|apply toBytes_bytes].
  intros i c Hi Hc. rewrite toBytes_lookup.
  transitivity ((fun c => (c mod 256)%Z) <$> Some c); [f_equal; exact Hi|].
  cbn. now rewrite Z.mod_small.
Qed.

Lemma readme_build : @buildPdf sampleHost 2 readmeDoc = Return readmeBytes readmeBuilt.
Proof. vm_compute. reflexivity. Qed.

Lemma output_is_low_bytes_witness :
  exists objs lines,
    @objectsOf sampleHost readmeBuilt = Some objs
    /\ xrefLines
         (Ser.xref (addObjects objs (Ser.mk pdfHeader (length pdfHeader) {[ 0 := 0 ]})))
         (seq 1 (objectCounter readmeBuilt - 1)) = Some lines
    /\ let buffer :=
         pdfHeader ++ objectsText objs ++ xrefHead (objectCounter readmeBuilt)
         ++ lines
         ++ trailer (objectCounter readmeBuilt) (catalogIdOf readmeBuilt)
              (length (pdfHeader ++ objectsText objs)) in
       length readmeBytes = length buffer
       /\ (forall i, readmeBytes !! i = (fun c => (c mod 256)%Z) <$> buffer !! i)
       /\ (forall i c,
             buffer !! i = Some c -> (0 <= c < 256)%Z -> readmeBytes !! i = Some c)
       /\ Forall (fun b => (0 <= b < 256)%Z) readmeBytes.
Proof.
  apply (@output_is_low_bytes sampleHost 2 readmeDoc readmeBytes readmeBuilt).
  exact readme_build.
Defined.

(** ** The cross-reference table *)

(** X10: an entry of the cross-reference table is twenty bytes long, the
    width the format fixes, as long as its offset has at most ten digits:
    the offset is padded with zeros on the left to ten digits and followed
    by the generation [00000], the letter [n], a blank and a line feed. *)
Theorem xrefLine_twenty_bytes (offset : nat) :
  length (natToString offset) <= 10 ->
  length (xrefLine offset) = 20
  /\ xrefLine offset
     = replicate (10 - length (natToString offset)) 48%Z
       ++ natToString offset ++ lit " 00000 n " ++ nl.
Proof.
  intros L. unfold xrefLine, padStart10. split; [|now rewrite <- app_assoc].
  rewrite !length_app, length_replicate. cbn [length lit nl]. lia.
Qed.

Lemma xrefLine_twenty_bytes_witness :
  length (xrefLine 221) = 20
  /\ xrefLine 221
     = replicate (10 - length (natToString 221)) 48%Z
       ++ natToString 221 ++ lit " 00000 n " ++ nl.
Proof.
  apply (xrefLine_twenty_bytes 221). vm_compute. lia.
Defined.


(** ** The pass, whatever the callbacks do *)

Section PassOutcome.
Context {host : Host}.

Lemma runCalls_config cs d d' : runCalls cs d = Return tt d' -> config d' = config d.
Proof.
  intros E. destruct (evolving_runCalls cs d d') as [(C & _) _]; [now rewrite E | exact C].
Qed.

Lemma bandText_pass text x y options d :
  isApplyingHeaderFooter d = true -> validIndex d ->
  exists d',
    (addText text x y options ;; ret tt) d = Return tt d'
    /\ length (pages d') = length (pages d) + 0
    /\ isApplyingHeaderFooter d' = true
    /\ validIndex d'
    /\ config d' = config d.
Proof.
  intros F V. destruct (pageAt_valid _ _ V) as [p Hp]. unfold bind.
  rewrite (addText_applying _ _ _ _ _ _ F Hp). unfold ret.
  eexists. split; [reflexivity|].
  split; [unfold storePage; cbn; rewrite length_insert; lia|].
  split; [exact F|]. split; [now apply storePage_validIndex | reflexivity].
Qed.

Lemma headerStep_pass pageNum d :
  isApplyingHeaderFooter d = true -> validIndex d ->
  exists d',
    headerStep pageNum d = Return tt d'
    /\ length (pages d')
       = length (pages d) + pagesStarted (PdfConfig.onHeader (config d)) pageNum
    /\ isApplyingHeaderFooter d' = true
    /\ validIndex d'
    /\ config d' = config d.
Proof.
  intros F V. unfold headerStep, pagesStarted.
  destruct (PdfConfig.onHeader (config d)) as [f|].
  - destruct (runCalls_page_count (f pageNum) d F V) as (d' & E & L & F' & V').
    exists d'. repeat split; try assumption; try apply V'.
    now apply (runCalls_config (f pageNum)).
  - destruct (PdfConfig.defaultHeader (config d)) as [h|];
      [|exists d; repeat split; try assumption; try apply V; lia].
    cbv zeta. destruct (default [] (DefaultHeaderConfig.text h));
      [exists d; repeat split; try assumption; try apply V; lia|].
    now apply bandText_pass.
Qed.

Lemma footerStep_pass pageNum d :
  isApplyingHeaderFooter d = true -> validIndex d ->
  exists d',
    footerStep pageNum d = Return tt d'
    /\ length (pages d')
       = length (pages d) + pagesStarted (PdfConfig.onFooter (config d)) pageNum
    /\ isApplyingHeaderFooter d' = true
    /\ validIndex d'
    /\ config d' = config d.
Proof.
  intros F V. unfold footerStep, pagesStarted.
  destruct (PdfConfig.onFooter (config d)) as [f|].
  - destruct (runCalls_page_count (f pageNum) d F V) as (d' & E & L & F' & V').
    exists d'. repeat split; try assumption; try apply V'.
    now apply (runCalls_config (f pageNum)).
  - destruct (PdfConfig.defaultFooter (config d)) as [h|];
      [|exists d; repeat split; try assumption; try apply V; lia].
    cbv zeta. destruct (footerTextOf _ _ _);
      [exists d; repeat split; try assumption; try apply V; lia|].
    now apply bandText_pass.
Qed.

(** One turn of the loop: it returns, and the document has the pages it
    had and those the two callbacks started. *)
Lemma turn_pass i d :
  isApplyingHeaderFooter d = true -> i < length (pages d) ->
  exists d',
    (modify (setPage (Z.of_nat i)) ;; headerStep (i + 1) ;; footerStep (i + 1)) d
    = Return tt d'
    /\ length (pages d')
       = length (pages d) + pagesStarted (PdfConfig.onHeader (config d)) (i + 1)
         + pagesStarted (PdfConfig.onFooter (config d)) (i + 1)
    /\ isApplyingHeaderFooter d' = true
    /\ config d' = config d.
Proof.
  intros F Hi. unfold bind at 1. unfold modify. rewrite (setPage_inside _ _ Hi).
  set (d1 := with_currentPageIndex _ d).
  assert (V1 : validIndex d1) by (unfold validIndex; subst d1; cbn; lia).
  destruct (headerStep_pass (i + 1) d1 F V1) as (d2 & E2 & L2 & F2 & V2 & C2).
  destruct (footerStep_pass (i + 1) d2 F2 V2) as (d3 & E3 & L3 & F3 & V3 & C3).
  exists d3. unfold bind. rewrite E2, E3.
  split; [reflexivity|]. split; [|split; [exact F3 | now rewrite C3, C2]].
  rewrite L3, L2, C2. reflexivity.
Qed.

Lemma applyLoop_turn fuel i d d' :
  i < length (pages d) ->
  (modify (setPage (Z.of_nat i)) ;; headerStep (i + 1) ;; footerStep (i + 1)) d
  = Return tt d' ->
  applyLoop (S fuel) i d = applyLoop fuel (S i) d'.
Proof.
  intros Hi E. cbn [applyLoop]. apply Nat.ltb_lt in Hi. rewrite Hi. cbv zeta.
  unfold bind in *. unfold modify in *.
  destruct (headerStep (i + 1) (setPage (Z.of_nat i) d)) as [[] d2|e d2|];
    [|discriminate|discriminate].
  destruct (footerStep (i + 1) d2) as [[] d3|e d3|]; [|discriminate|discriminate].
  now injection E as ->.
Qed.

Lemma applyLoop_outcome fuel : forall i d,
  isApplyingHeaderFooter d = true ->
  match applyLoop fuel i d with
  | Return _ d' =>
      isApplyingHeaderFooter d' = true /\ config d' = config d
      /\ length (pages d) <= length (pages d')
  | Throw _ _ => False
  | OutOfFuel => True
  end.
Proof.
  induction fuel as [|fuel IH]; intros i d F.
  - cbn [applyLoop]. destruct (i <? length (pages d))%nat; [exact I|].
    split; [exact F|]. split; [reflexivity | lia].
  - destruct (Nat.ltb_spec i (length (pages d))) as [Hi|Hi].
    + destruct (turn_pass i d F Hi) as (d1 & E & L & F1 & C1).
      rewrite (applyLoop_turn fuel i d d1 Hi E).
      specialize (IH (S i) d1 F1).
      destruct (applyLoop fuel (S i) d1) as [[] d2|e d2|]; [|exact IH | exact I].
      destruct IH as (F2 & C2 & L2). split; [exact F2|].
      split; [now rewrite C2 | lia].
    + cbn [applyLoop]. apply Nat.ltb_ge in Hi. rewrite Hi.
      split; [exact F|]. split; [reflexivity | lia].
Qed.

Lemma count_addPage_pos cs :
  existsb isAddPage cs = true -> 1 <= length (List.filter isAddPage cs).
Proof.
  induction cs as [|c cs IH]; [discriminate|]. cbn.
  destruct (isAddPage c); cbn; [lia | exact IH].
Qed.

Lemma applyLoop_diverges fuel : forall i d,
  isApplyingHeaderFooter d = true ->
  startsPage (PdfConfig.onHeader (config d))
  \/ startsPage (PdfConfig.onFooter (config d)) ->
  i < length (pages d) ->
  applyLoop fuel i d = OutOfFuel.
Proof.
  induction fuel as [|fuel IH]; intros i d F S Hi.
  - cbn [applyLoop]. apply Nat.ltb_lt in Hi. now rewrite Hi.
  - destruct (turn_pass i d F Hi) as (d1 & E & L & F1 & C1).
    rewrite (applyLoop_turn fuel i d d1 Hi E).
    apply IH; [exact F1 | now rewrite C1|].
    rewrite L. unfold startsPage, pagesStarted in *.
    destruct S as [S|S].
    + destruct (PdfConfig.onHeader (config d)) as [f|]; [|contradiction].
      pose proof (count_addPage_pos _ (S (i + 1))). lia.
    + destruct (PdfConfig.onFooter (config d)) as [f|]; [|contradiction].
      pose proof (count_addPage_pos _ (S (i + 1))). lia.
Qed.

End PassOutcome.

Lemma applyHeaderFooter_outcome {host : Host} (fuel : nat) (d : PdfCreator) :
  match applyHeaderFooter fuel d with
  | Return _ d' =>
      currentPageIndex d' = currentPageIndex d
      /\ isApplyingHeaderFooter d' = false
      /\ config d' = config d
      /\ length (pages d) <= length (pages d')
  | Throw _ _ => False
  | OutOfFuel => True
  end.
Proof.
  unfold applyHeaderFooter. cbv zeta. unfold bind, modify.
  pose proof (applyLoop_outcome fuel 0 (with_isApplyingHeaderFooter true d) eq_refl) as H.
  destruct (applyLoop fuel 0 (with_isApplyingHeaderFooter true d)) as [[] d1|e d1|];
    [|exact H | exact I].
  destruct H as (_ & C & L). cbn. repeat split; assumption.
Qed.

(** X11: the header and footer pass never throws, whatever the callbacks
    draw with [addText], [addImage] and [addPage] and whatever state the
    document is in.  When it returns, the current-page index is the one
    it found, the guard flag is off, and no page has been lost. *)
Theorem pass_never_throws {host : Host} (fuel : nat) (d : PdfCreator) :
  match applyHeaderFooter fuel d with
  | Return _ d' =>
      currentPageIndex d' = currentPageIndex d
      /\ isApplyingHeaderFooter d' = false
      /\ config d' = config d
      /\ length (pages d) <= length (pages d')
  | Throw _ _ => False
  | OutOfFuel => True
  end.
Proof.
  unfold applyHeaderFooter. cbv zeta. unfold bind, modify.
  pose proof (applyLoop_outcome fuel 0 (with_isApplyingHeaderFooter true d) eq_refl) as H.
  destruct (applyLoop fuel 0 (with_isApplyingHeaderFooter true d)) as [[] d1|e d1|];
    [|exact H | exact I].
  destruct H as (_ & C & L). cbn. repeat split; assumption.
Qed.

(** X12: when a header or footer callback starts a page every time it is
    called, the loop of the pass has no last turn: its bound, the number
    of pages, is read again at every turn and stays ahead of the counter,
    so on a document with a page neither the pass nor the build returns,
    however many turns they are given. *)
Theorem page_starting_callback_diverges {host : Host}
    (fuel : nat) (d : PdfCreator) :
  startsPage (PdfConfig.onHeader (config d))
  \/ startsPage (PdfConfig.onFooter (config d)) ->
  pages d <> [] ->
  applyHeaderFooter fuel d = OutOfFuel /\ buildPdf fuel d = OutOfFuel.
Proof.
  intros S Ne.
  assert (E : applyHeaderFooter fuel d = OutOfFuel).
  { unfold applyHeaderFooter. cbv zeta. unfold bind at 1.
    rewrite applyLoop_diverges; [reflexivity | reflexivity | exact S|].
    cbn. destruct (pages d); [contradiction | cbn; lia]. }
  split; [exact E|]. unfold buildPdf, bind. now rewrite E.
Qed.

Lemma page_starting_callback_diverges_witness :
  @applyHeaderFooter sampleHost 1000 (constructor growingConfig) = OutOfFuel
  /\ @buildPdf sampleHost 1000 (constructor growingConfig) = OutOfFuel.
Proof.
  apply (@page_starting_callback_diverges sampleHost 1000 (constructor growingConfig)).
  - left. intros n. reflexivity.
  - discriminate.
Defined.


(** ** The documents a client can hold *)

Section Clients.
Context {host : Host}.

Lemma addText_flag text x y options d d' :
  after (addText text x y options d) = Some d' ->
  isApplyingHeaderFooter d' = isApplyingHeaderFooter d.
Proof.
  rewrite addText_unfold. cbv zeta.
  destruct (overflows _ y d);
    destruct (pageAt _ _); cbn [after]; intros E; injection E as E;
    rewrite <- E; reflexivity.
Qed.

Lemma addImage_flag imageData x y options d d' :
  after (addImage imageData x y options d) = Some d' ->
  isApplyingHeaderFooter d' = isApplyingHeaderFooter d.
Proof.
  rewrite addImage_unfold. cbv zeta. rewrite addImageEnter_unfold.
  assert (F : isApplyingHeaderFooter
                (snd (if overflows (ImageOptions.height options) y d
                      then (double (headerHeight d + 20), addPage d) else (y, d)))
              = isApplyingHeaderFooter d) by (now destruct (overflows _ y d)).
  set (d1 := snd _) in *. clearbody d1.
  destruct (processImage imageData) as [data|].
  - rewrite addImageResume_unfold. cbv zeta.
    destruct (imagesGet _ _); destruct (pageAt _ _); cbn [after];
      intros E; injection E as E; rewrite <- E; exact F.
  - cbn [after]. intros E; injection E as E. now rewrite <- E.
Qed.

Lemma addImageResume_returns processedData x y options d :
  validIndex d ->
  exists d', addImageResume processedData x y options d = Return y d'.
Proof.
  intros V. rewrite addImageResume_unfold. cbv zeta.
  set (d2 := match imagesGet _ _ with Some _ => d | None => _ end).
  assert (V2 : validIndex d2) by (subst d2; now destruct (imagesGet _ _)).
  destruct (pageAt_valid _ _ V2) as [p Hp]. rewrite Hp. eauto.
Qed.

Lemma perform_setup c d d' :
  perform c d = Some d' ->
  config d' = config d /\ headerHeight d' = headerHeight d
  /\ footerHeight d' = footerHeight d.
Proof.
  assert (X : forall a b, extends a b ->
                config b = config a /\ headerHeight b = headerHeight a
                /\ footerHeight b = footerHeight a).
  { intros a b (C & Hh & Hf & _). auto. }
  destruct c as [|text x y options|imageData x y options|fuel]; cbn [perform]; intros H.
  - injection H as <-. apply X, addPage_extends.
  - apply X. now apply (addText_extends text x y options).
  - apply X. now apply (addImage_extends imageData x y options).
  - destruct (buildPdf_after _ _ _ H) as [[e E]|(d1 & E & ->)].
    + apply X, (applyHeaderFooter_extends fuel). now rewrite E.
    + apply (X d d1), (applyHeaderFooter_extends fuel). now rewrite E.
Qed.

Lemma perform_flag c d d' :
  perform c d = Some d' ->
  isApplyingHeaderFooter d = false -> isApplyingHeaderFooter d' = false.
Proof.
  destruct c as [|text x y options|imageData x y options|fuel]; cbn [perform];
    intros H F.
  - injection H as <-. exact F.
  - now rewrite (addText_flag _ _ _ _ _ _ H).
  - now rewrite (addImage_flag _ _ _ _ _ _ H).
  - pose proof (applyHeaderFooter_outcome fuel d) as O.
    destruct (buildPdf_after _ _ _ H) as [[e E]|(d1 & E & ->)]; rewrite E in O.
    + contradiction.
    + apply O.
Qed.

Lemma reachable_setup cfg d :
  reachable cfg d ->
  config d = cfg
  /\ headerHeight d = headerHeight (constructor cfg)
  /\ footerHeight d = footerHeight (constructor cfg)
  /\ isApplyingHeaderFooter d = false.
Proof.
  induction 1 as [|d c d' _ (C & Hh & Hf & F) P]; [now repeat split|].
  destruct (perform_setup _ _ _ P) as (C' & Hh' & Hf').
  repeat split; try congruence. now apply (perform_flag c d).
Qed.

End Clients.

(** X13: a document a client holds, after any sequence of awaited calls
    of [addPage], [addText], [addImage] and [getOutput] or [save] that
    came back (by returning or by throwing), has the configuration it was
    constructed with and the reserved heights its constructor computed,
    and has a current page. *)
Theorem reachable_documents_keep_setup {host : Host}
    (cfg : PdfConfig.t) (d : PdfCreator) :
  reachable cfg d ->
  config d = cfg
  /\ headerHeight d = mathMin (orZero (PdfConfig.headerHeight cfg)) MAX_HEADER_HEIGHT
  /\ footerHeight d = mathMin (orZero (PdfConfig.footerHeight cfg)) MAX_FOOTER_HEIGHT
  /\ validIndex d.
Proof.
  intros R. destruct (reachable_setup cfg d R) as (C & Hh & Hf & _).
  repeat split; try assumption; apply (reachable_validIndex cfg d R).
Qed.

Lemma reachable_documents_keep_setup_witness :
  config readmeBuilt = PdfConfig.none
  /\ headerHeight readmeBuilt
     = mathMin (orZero (PdfConfig.headerHeight PdfConfig.none)) MAX_HEADER_HEIGHT
  /\ footerHeight readmeBuilt
     = mathMin (orZero (PdfConfig.footerHeight PdfConfig.none)) MAX_FOOTER_HEIGHT
  /\ validIndex readmeBuilt.
Proof.
  apply (@reachable_documents_keep_setup sampleHost PdfConfig.none readmeBuilt).
  apply (reachable_call _ readmeDoc (ApiGetOutput 2)).
  - apply performAll_reachable, reachable_new.
  - cbn [perform]. now rewrite readme_build.
Defined.

(** X24: with callbacks that draw with [addText], [addImage] and
    [addPage] and return, the guard flag is off on every document a
    client holds, so the overflow rule is in force for the next call: a
    build that came back, by returning or by throwing in the serializer,
    has run its pass to the end.  (A callback that throws is outside the
    model; the code has no [finally], so such a throw would leave the
    flag on.) *)
Theorem guard_off_between_calls {host : Host}
    (cfg : PdfConfig.t) (d : PdfCreator) (fuel : nat) :
  reachable cfg d ->
  isApplyingHeaderFooter d = false
  /\ forall d', after (buildPdf fuel d) = Some d' -> isApplyingHeaderFooter d' = false.
Proof.
  intros R. destruct (reachable_setup cfg d R) as (_ & _ & _ & F).
  split; [exact F|]. intros d' H.
  now apply (perform_flag (ApiGetOutput fuel) d d').
Qed.

Lemma guard_off_between_calls_witness :
  isApplyingHeaderFooter readmeBuilt = false
  /\ forall d', after (@buildPdf sampleHost 2 readmeBuilt) = Some d' ->
                isApplyingHeaderFooter d' = false.
Proof.
  apply (@guard_off_between_calls sampleHost PdfConfig.none readmeBuilt 2).
  apply (reachable_call _ readmeDoc (ApiGetOutput 2)).
  - apply performAll_reachable, reachable_new.
  - cbn [perform]. now rewrite readme_build.
Defined.

(** X14: on a document a client holds, [addText] always returns, and
    [addImage] returns exactly when [processImage] resolves; when
    [processImage] rejects, [addImage] rejects with the image error.  No
    client call of the two throws for want of a current page. *)
Theorem client_calls_outcomes {host : Host}
    (cfg : PdfConfig.t) (d : PdfCreator)
    (text : jsstring) (x y : Q) (options : TextOptions.t)
    (imageData : jsstring) (ix iy : Q) (ioptions : ImageOptions.t) :
  reachable cfg d ->
  (exists y' d', addText text x y options d = Return y' d')
  /\ match processImage imageData with
     | Some _ => exists y' d', addImage imageData ix iy ioptions d = Return y' d'
     | None => exists d', addImage imageData ix iy ioptions d = Throw ImageError d'
     end.
Proof.
  intros R. pose proof (reachable_validIndex cfg d R) as V.
  split; [now apply addText_returns|].
  rewrite addImage_unfold. cbv zeta.
  destruct (processImage imageData) as [data|]; [|eauto].
  destruct (addImageResume_returns data ix (fst (addImageEnter iy ioptions d)) ioptions
              (snd (addImageEnter iy ioptions d))) as [d' E];
    [now apply addImageEnter_validIndex | eauto].
Qed.

Lemma client_calls_outcomes_witness :
  (exists y' d',
      @addText sampleHost (lit "Hi") (20 # 1) (830 # 1) TextOptions.none readmeBuilt
      = Return y' d')
  /\ exists y' d',
       @addImage sampleHost (lit "/9j/4AAQ") (20 # 1) (50 # 1) squareImage readmeBuilt
       = Return y' d'.
Proof.
  apply (@client_calls_outcomes sampleHost PdfConfig.none readmeBuilt (lit "Hi")
           (20 # 1) (830 # 1) TextOptions.none (lit "/9j/4AAQ") (20 # 1) (50 # 1)
           squareImage).
  apply (reachable_call _ readmeDoc (ApiGetOutput 2)).
  - apply performAll_reachable, reachable_new.
  - cbn [perform]. now rewrite readme_build.
Defined.


(** ** One output per document *)

Section Outputs.
Context {host : Host}.

Lemma addObjects_xref_only objs : forall s k,
  is_Some (Ser.xref (addObjects objs s) !! k) ->
  k ∈ map fst objs \/ is_Some (Ser.xref s !! k).
Proof.
  induction objs as [|o objs IH]; intros s k H; [now right|].
  change (addObjects (o :: objs) s)
    with (addObjects objs (addObject (fst o) (snd o) s)) in H.
  destruct (IH _ _ H) as [I|I].
  - left. cbn [map]. now apply elem_of_cons; right.
  - cbn [addObject Ser.xref] in I. destruct (decide (k = fst o)) as [->|N].
    + left. cbn [map]. apply elem_of_cons. now left.
    + right. now rewrite lookup_insert_ne in I by congruence.
Qed.

(** Every id the table lists is the id of an object the build wrote. *)
Lemma buildPdf_lists_written fuel d bytes d' i :
  buildPdf fuel d = Return bytes d' ->
  1 <= i < objectCounter d' -> i ∈ emittedIds d'.
Proof.
  intros B Hi.
  destruct (buildPdf_returned _ _ _ _ B) as (d1 & objs & lines & _ & _ & O & X & _).
  destruct (xrefLines_Some _ _ _ X) as (offsets & _ & _ & A).
  destruct (A (i - 1) i) as (off & Hoff & _).
  { rewrite lookup_seq_lt by lia. f_equal. lia. }
  rewrite <- (objectsOf_ids _ _ O).
  destruct (addObjects_xref_only objs _ i (mk_is_Some _ _ Hoff)) as [I|[v I]];
    [exact I|].
  cbn [Ser.xref] in I. rewrite lookup_singleton_ne in I by lia. discriminate.
Qed.

Lemma seq_two_more c : 1 <= c -> seq 1 (S (S c) - 1) = seq 1 (c - 1) ++ [c; S c].
Proof.
  intros C. replace (S (S c) - 1) with ((c - 1) + 2) by lia.
  rewrite seq_app. cbn [seq]. repeat f_equal; lia.
Qed.

End Outputs.


Section OutputOnce.
Context {host : Host}.

Lemma extends_holed d d' : extends d d' -> holed d -> holed d'.
Proof.
  intros (_ & _ & _ & _ & k & N & Perm) (c & Hc & Out).
  exists c. split; [lia|]. rewrite Perm. intros E.
  apply elem_of_app in E as [E|E]; [contradiction|].
  apply elem_of_seq in E. lia.
Qed.

Lemma bump_holed d :
  holed d -> holed (with_objectCounter (S (S (objectCounter d))) d).
Proof. intros (c & Hc & Out). exists c. split; [cbn; lia | exact Out]. Qed.

Lemma perform_holed c d d' : perform c d = Some d' -> holed d -> holed d'.
Proof.
  destruct c as [|text x y options|imageData x y options|fuel]; cbn [perform];
    intros H Hd.
  - injection H as <-. apply (extends_holed d); [apply addPage_extends | exact Hd].
  - apply (extends_holed d); [|exact Hd]. now apply (addText_extends text x y options).
  - apply (extends_holed d); [|exact Hd].
    now apply (addImage_extends imageData x y options).
  - destruct (buildPdf_after _ _ _ H) as [[e E]|(d1 & E & ->)].
    + apply (extends_holed d); [|exact Hd].
      apply (applyHeaderFooter_extends fuel). now rewrite E.
    + apply bump_holed, (extends_holed d); [|exact Hd].
      apply (applyHeaderFooter_extends fuel). now rewrite E.
Qed.

Lemma performAll_holed cs : forall d, holed d -> holed (performAll cs d).
Proof.
  induction cs as [|c cs IH]; intros d Hd; [exact Hd|].
  cbn [performAll]. destruct (perform c d) as [d'|] eqn:E; [|exact Hd].
  apply IH. now apply (perform_holed c d).
Qed.

(** A build leaves the two ids it took for the catalog and the page
    tree held by nothing. *)
Lemma built_holed cfg d fuel bytes d' :
  reachable cfg d -> buildPdf fuel d = Return bytes d' -> holed d'.
Proof.
  intros R B.
  destruct (buildPdf_returned _ _ _ _ B) as (d1 & _ & _ & P1 & -> & _).
  assert (I1 : idsDistinct d1).
  { apply (extends_idsDistinct d); [|now apply (reachable_idsDistinct cfg)].
    apply (applyHeaderFooter_extends fuel). now rewrite P1. }
  destruct I1 as (C1 & _ & Below).
  exists (objectCounter d1). split; [cbn; lia|].
  change (entityIds (with_objectCounter _ d1)) with (entityIds d1).
  intros E. rewrite Forall_forall in Below. specialize (Below _ E). lia.
Qed.

Lemma holed_build_stuck d fuel :
  holed d ->
  match buildPdf fuel d with
  | Return _ _ => False
  | _ => True
  end.
Proof.
  intros Hd. destruct (buildPdf fuel d) as [bytes d'| |] eqn:B; [|exact I | exact I].
  destruct (buildPdf_returned _ _ _ _ B) as (d1 & _ & _ & P & D' & _).
  destruct (extends_holed d d1) as (c & Hc & Out); [|exact Hd|].
  { apply (applyHeaderFooter_extends fuel). now rewrite P. }
  assert (In : c ∈ emittedIds d').
  { apply (buildPdf_lists_written fuel d bytes d' _ B). rewrite D'. cbn. lia. }
  unfold emittedIds, catalogIdOf, pagesRootIdOf in In. rewrite D' in In.
  change (entityIds (with_objectCounter _ d1)) with (entityIds d1) in In.
  cbn [objectCounter with_objectCounter] in In.
  rewrite !elem_of_cons in In. destruct In as [E|[E|E]]; [lia | lia | contradiction].
Qed.

End OutputOnce.

(** X15: a document gives its output once.  After a build has returned,
    whatever is drawn on the document next, no later build of it returns:
    the two ids the first build took for the catalog and the page tree are
    written by no object of a later build, and the loop over the
    cross-reference table finds no offset for them. *)
Theorem output_at_most_once {host : Host}
    (cfg : PdfConfig.t) (d : PdfCreator) (fuel : nat) (bytes : list Z)
    (d' : PdfCreator) (cs : list ApiCall) (fuel' : nat) :
  reachable cfg d ->
  buildPdf fuel d = Return bytes d' ->
  match buildPdf fuel' (performAll cs d') with
  | Return _ _ => False
  | _ => True
  end.
Proof.
  intros R B. apply holed_build_stuck, performAll_holed.
  now apply (built_holed cfg d fuel bytes).
Qed.

Lemma output_at_most_once_witness :
  match @buildPdf sampleHost 3 (@performAll sampleHost [ApiAddPage] readmeBuilt) with
  | Return _ _ => False
  | _ => True
  end.
Proof.
  apply (@output_at_most_once sampleHost PdfConfig.none readmeDoc 2 readmeBytes
           readmeBuilt [ApiAddPage] 3).
  - apply performAll_reachable, reachable_new.
  - exact readme_build.
Defined.

(** X16: an output starts with the header [%PDF-1.7] and ends with
    [startxref], the offset of the cross-reference table in decimal, and
    [%%EOF]; at that offset of the output stands the keyword [xref]. *)
Theorem output_frame {host : Host}
    (fuel : nat) (d : PdfCreator) (bytes : list Z) (d' : PdfCreator) :
  buildPdf fuel d = Return bytes d' ->
  exists off pre,
    beginsAt (lit "%PDF-1.7") 0 bytes
    /\ beginsAt (lit "xref") off bytes
    /\ bytes = pre ++ lit "startxref" ++ nl ++ natToString off ++ nl ++ lit "%%EOF".
Proof.
  intros B.
  destruct (buildPdf_returned _ _ _ _ B) as (d1 & objs & lines & _ & _ & _ & _ & E).
  set (body := pdfHeader ++ objectsText objs) in E.
  replace (pdfHeader ++ objectsText objs ++ xrefHead (objectCounter d') ++ lines
           ++ trailer (objectCounter d') (catalogIdOf d') (length body))
    with (body ++ xrefHead (objectCounter d') ++ lines
          ++ trailer (objectCounter d') (catalogIdOf d') (length body)) in E
    by (subst body; now rewrite <- app_assoc).
  exists (length body).
  exists (toBytes (body ++ xrefHead (objectCounter d') ++ lines
                   ++ lit "trailer" ++ nl ++ lit "<< /Size "
                   ++ natToString (objectCounter d') ++ lit " /Root "
                   ++ natToString (catalogIdOf d') ++ lit " 0 R >>" ++ nl)).
  rewrite E. unfold beginsAt. split; [|split].
  - subst body. unfold pdfHeader. rewrite <- !app_assoc, toBytes_app, toBytes_lit.
    rewrite drop_0. now rewrite take_app_length.
  - rewrite toBytes_app, <- (toBytes_length body), drop_app_length.
    unfold xrefHead. rewrite <- !app_assoc, toBytes_app, toBytes_lit.
    now rewrite take_app_length.
  - unfold trailer. rewrite !toBytes_app, !toBytes_lit, !toBytes_natToString.
    change (toBytes nl) with nl. now rewrite <- !app_assoc.
Qed.

Lemma output_frame_witness :
  exists off pre,
    beginsAt (lit "%PDF-1.7") 0 readmeBytes
    /\ beginsAt (lit "xref") off readmeBytes
    /\ readmeBytes
       = pre ++ lit "startxref" ++ nl ++ natToString off ++ nl ++ lit "%%EOF".
Proof.
  apply (@output_frame sampleHost 2 readmeDoc readmeBytes readmeBuilt).
  exact readme_build.
Defined.

(** X17: the first build of a document writes one object for every id
    from 1 to [Size - 1] and no other: the ids of the objects are a
    rearrangement of that range, so the cross-reference table has an
    entry for each object and no entry without one. *)
Theorem first_build_writes_every_id {host : Host}
    (cfg : PdfConfig.t) (d : PdfCreator) (fuel : nat) (bytes : list Z)
    (d' : PdfCreator) :
  drawn cfg d ->
  buildPdf fuel d = Return bytes d' ->
  exists objs,
    objectsOf d' = Some objs
    /\ map fst objs ≡ₚ seq 1 (objectCounter d' - 1)
    /\ length objs = objectCounter d' - 1.
Proof.
  intros D B.
  destruct (buildPdf_returned _ _ _ _ B) as (d1 & objs & lines & P & D' & O & _).
  destruct (drawn_invariants cfg d D) as (_ & Cov & _).
  destruct (extends_idsCovered d d1) as (C1 & Perm); [|exact Cov|].
  { apply (applyHeaderFooter_extends fuel). now rewrite P. }
  assert (Q : map fst objs ≡ₚ seq 1 (objectCounter d' - 1)).
  { rewrite (objectsOf_ids _ _ O).
    unfold emittedIds, catalogIdOf, pagesRootIdOf. rewrite D'.
    change (entityIds (with_objectCounter _ d1)) with (entityIds d1).
    cbn [objectCounter with_objectCounter].
    rewrite (seq_two_more _ C1), Perm.
    replace (S (S (objectCounter d1)) - 2) with (objectCounter d1) by lia.
    replace (S (S (objectCounter d1)) - 1) with (S (objectCounter d1)) by lia.
    apply (Permutation_app_comm [objectCounter d1; S (objectCounter d1)]). }
  exists objs. split; [exact O|]. split; [exact Q|].
  rewrite <- (length_map fst), Q. apply length_seq.
Qed.

Lemma first_build_writes_every_id_witness :
  exists objs,
    @objectsOf sampleHost readmeBuilt = Some objs
    /\ map fst objs ≡ₚ seq 1 (objectCounter readmeBuilt - 1)
    /\ length objs = objectCounter readmeBuilt - 1.
Proof.
  apply (@first_build_writes_every_id sampleHost PdfConfig.none readmeDoc 2
           readmeBytes readmeBuilt).
  - apply performAll_drawn; [reflexivity | apply drawn_new].
  - exact readme_build.
Defined.


(** ** What every call keeps

    A relation between documents that holds across each elementary
    change the methods make holds across every public call. *)

Section Steps.
Context {host : Host}.
Variable R : PdfCreator -> PdfCreator -> Prop.
Hypothesis R_refl : forall d, R d d.
Hypothesis R_trans : forall d1 d2 d3, R d1 d2 -> R d2 d3 -> R d1 d3.
Hypothesis R_addPage : forall d, R d (addPage d).
Hypothesis R_index : forall i d, R d (with_currentPageIndex i d).
Hypothesis R_flag : forall f d, R d (with_isApplyingHeaderFooter f d).
Hypothesis R_counter :
  forall d, R d (with_objectCounter (S (S (objectCounter d))) d).
Hypothesis R_text : forall text x y options i p d,
  pageAt (pages d) i = Some p ->
  R d (storePage i (pageWithText text x y options p) d).
Hypothesis R_image : forall key x y options i p d,
  pageAt (pages d) i = Some p ->
  is_Some (imagesGet (images d) key) ->
  R d (storePage i (pageWithImage key x y options p) d).
Hypothesis R_register : forall w h data d,
  R d (with_images
         (images d ++ [(lit "I" ++ natToString (length (images d) + 1),
                        ImageEntry.mk (objectCounter d) w h data)])
         (with_objectCounter (S (objectCounter d)) d)).

Local Abbreviation keeps m := (forall d d', after (m d) = Some d' -> R d d').

Lemma keeps_ret {A} (a : A) : keeps (ret a).
Proof. intros d d' E. injection E as <-. apply R_refl. Qed.

Lemma keeps_bind {A B} (m : M A) (f : A -> M B) :
  keeps m -> (forall a, keeps (f a)) -> keeps (bind m f).
Proof.
  intros Hm Hf d d' E. unfold bind in E.
  destruct (m d) as [a d1|e d1|] eqn:Em; [| |discriminate].
  - apply (R_trans _ d1); [apply Hm; now rewrite Em | now apply (Hf a)].
  - apply Hm. now rewrite Em.
Qed.

Lemma keeps_modify (f : PdfCreator -> PdfCreator) :
  (forall d, R d (f d)) -> keeps (modify f).
Proof. intros Hf d d' E. injection E as <-. apply Hf. Qed.

Lemma keeps_addText text x y options : keeps (addText text x y options).
Proof.
  intros d d'. rewrite addText_unfold. cbv zeta.
  set (d1 := if overflows _ y d then addPage d else d).
  assert (R1 : R d d1) by (subst d1; destruct (overflows _ y d); auto).
  destruct (pageAt (pages d1) (currentPageIndex d1)) as [p|] eqn:Hp; cbn [after];
    intros E; injection E as E; rewrite <- E.
  - apply (R_trans _ d1); [exact R1 | now apply R_text].
  - exact R1.
Qed.

Lemma keeps_addImageEnter y options d : R d (snd (addImageEnter y options d)).
Proof. rewrite addImageEnter_unfold. destruct (overflows _ y d); cbn [snd]; auto. Qed.

Lemma keeps_addImageResume processedData x y options :
  keeps (addImageResume processedData x y options).
Proof.
  intros d d'. rewrite addImageResume_unfold. cbv zeta.
  set (key := lit "I" ++ natToString (length (images d) + 1)).
  destruct (imagesGet (images d) key) as [img|] eqn:G.
  - destruct (pageAt (pages d) (currentPageIndex d)) as [p|] eqn:Hp; cbn [after];
      intros E; injection E as E; rewrite <- E; [|apply R_refl].
    apply R_image; [exact Hp | now rewrite G].
  - set (d2 := with_images _ _).
    assert (R2 : R d d2) by apply R_register.
    destruct (pageAt (pages d2) (currentPageIndex d2)) as [p|] eqn:Hp; cbn [after];
      intros E; injection E as E; rewrite <- E; [|exact R2].
    apply (R_trans _ d2); [exact R2|].
    apply R_image; [exact Hp | apply imagesGet_last].
Qed.

Lemma keeps_addImage imageData x y options :
  keeps (addImage imageData x y options).
Proof.
  intros d d'. rewrite addImage_unfold. cbv zeta.
  pose proof (keeps_addImageEnter y options d) as R1.
  destruct (processImage imageData) as [data|].
  - intros E. apply (R_trans _ _ _ R1). now apply (keeps_addImageResume data _ _ _ _ _ E).
  - cbn [after]. intros E; injection E as E. now rewrite <- E.
Qed.

Lemma keeps_runCalls cs : keeps (runCalls cs).
Proof.
  induction cs as [|c cs IH]; [apply keeps_ret|].
  cbn [runCalls]. apply keeps_bind; [|intros _; exact IH].
  destruct c as [text x y options|imageData x y options|]; cbn [runCall].
  - apply keeps_bind; [apply keeps_addText | intros _; apply keeps_ret].
  - apply keeps_modify. intros d. apply keeps_addImageEnter.
  - apply keeps_modify, R_addPage.
Qed.

Lemma keeps_headerStep pageNum : keeps (headerStep pageNum).
Proof.
  intros d d'. unfold headerStep.
  destruct (PdfConfig.onHeader (config d)) as [f|]; [apply keeps_runCalls|].
  destruct (PdfConfig.defaultHeader (config d)) as [h|];
    [|intros E; injection E as <-; apply R_refl].
  cbv zeta. destruct (default [] (DefaultHeaderConfig.text h));
    [intros E; injection E as <-; apply R_refl|].
  apply (keeps_bind (addText _ _ _ _) (fun _ => ret tt));
    [apply keeps_addText | intros _; apply keeps_ret].
Qed.

Lemma keeps_footerStep pageNum : keeps (footerStep pageNum).
Proof.
  intros d d'. unfold footerStep.
  destruct (PdfConfig.onFooter (config d)) as [f|]; [apply keeps_runCalls|].
  destruct (PdfConfig.defaultFooter (config d)) as [h|];
    [|intros E; injection E as <-; apply R_refl].
  cbv zeta. destruct (footerTextOf _ _ _);
    [intros E; injection E as <-; apply R_refl|].
  apply (keeps_bind (addText _ _ _ _) (fun _ => ret tt));
    [apply keeps_addText | intros _; apply keeps_ret].
Qed.

Lemma keeps_applyLoop fuel : forall i, keeps (applyLoop fuel i).
Proof.
  induction fuel as [|fuel IH]; intros i d d'; cbn [applyLoop];
    destruct (i <? length (pages d))%nat;
    try (intros E; injection E as <-; apply R_refl); try discriminate.
  cbv zeta.
  apply (keeps_bind (modify (setPage (Z.of_nat i)))
           (fun _ => headerStep (i + 1) ;; footerStep (i + 1) ;; applyLoop fuel (S i))).
  - apply keeps_modify. intros d0. unfold setPage.
    destruct (_ && _); [apply R_index | apply R_refl].
  - intros _. apply keeps_bind; [apply keeps_headerStep|].
    intros _. apply keeps_bind; [apply keeps_footerStep|].
    intros _. apply IH.
Qed.

Lemma keeps_applyHeaderFooter fuel : keeps (applyHeaderFooter fuel).
Proof.
  intros d d' E. unfold applyHeaderFooter in E. cbv zeta in E.
  apply (R_trans _ (with_isApplyingHeaderFooter true d)); [apply R_flag|].
  revert E.
  apply (keeps_bind (applyLoop fuel 0)
           (fun _ => modify (with_currentPageIndex _) ;;
                     modify (with_isApplyingHeaderFooter false))).
  - apply keeps_applyLoop.
  - intros _. apply keeps_bind; [apply keeps_modify, R_index|].
    intros _. apply keeps_modify, R_flag.
Qed.

Lemma keeps_perform c d d' : perform c d = Some d' -> R d d'.
Proof.
  destruct c as [|text x y options|imageData x y options|fuel]; cbn [perform];
    intros H.
  - injection H as <-. apply R_addPage.
  - now apply (keeps_addText text x y options).
  - now apply (keeps_addImage imageData x y options).
  - destruct (buildPdf_after _ _ _ H) as [[e E]|(d1 & E & ->)].
    + apply (keeps_applyHeaderFooter fuel). now rewrite E.
    + apply (R_trans _ d1); [|apply R_counter].
      apply (keeps_applyHeaderFooter fuel). now rewrite E.
Qed.

Lemma keeps_performAll cs : forall d, R d (performAll cs d).
Proof.
  induction cs as [|c cs IH]; intros d; [apply R_refl|].
  cbn [performAll]. destruct (perform c d) as [d'|] eqn:E; [|apply R_refl].
  apply (R_trans _ d'); [now apply (keeps_perform c) | apply IH].
Qed.

End Steps.


(** ** Drawing only appends *)

Lemma pageGrows_refl p : pageGrows p p.
Proof. repeat split; reflexivity. Qed.

Lemma pageGrows_trans p q r : pageGrows p q -> pageGrows q r -> pageGrows p r.
Proof.
  intros (I1 & C1 & T1 & F1 & M1) (I2 & C2 & T2 & F2 & M2).
  repeat split; try congruence; etrans; eassumption.
Qed.

Lemma pagesGrow_refl l : Forall2 pageGrows l l.
Proof. induction l; constructor; [apply pageGrows_refl | assumption]. Qed.

Lemma grows_refl d : grows d d.
Proof.
  split; [reflexivity|]. split; [lia|]. exists (pages d), [].
  rewrite app_nil_r. split; [reflexivity | apply pagesGrow_refl].
Qed.

Lemma grows_trans d1 d2 d3 : grows d1 d2 -> grows d2 d3 -> grows d1 d3.
Proof.
  intros (I1 & C1 & ps & m & E1 & F1) (I2 & C2 & qs & n & E2 & F2).
  split; [etrans; eassumption|]. split; [lia|].
  rewrite E1 in F2. apply Forall2_app_inv_l in F2 as (qs1 & qs2 & Fa & Fb & ->).
  exists qs1, (qs2 ++ n). split; [now rewrite E2, <- app_assoc|].
  apply (Forall2_trans pageGrows pageGrows pageGrows _ ps);
    [apply pageGrows_trans | exact F1 | exact Fa].
Qed.

Lemma grows_same_pages d d' :
  pages d' = pages d -> images d' = images d ->
  objectCounter d <= objectCounter d' -> grows d d'.
Proof.
  intros P I C. split; [now rewrite I|]. split; [exact C|].
  exists (pages d), []. rewrite app_nil_r. split; [exact P | apply pagesGrow_refl].
Qed.

Lemma grows_addPage d : grows d (addPage d).
Proof.
  split; [reflexivity|]. split; [rewrite addPage_counter; lia|].
  exists (pages d), [blankPage (objectCounter d)].
  split; [apply addPage_pages | apply pagesGrow_refl].
Qed.

Lemma grows_store i p p' d :
  pageAt (pages d) i = Some p -> pageGrows p p' -> grows d (storePage i p' d).
Proof.
  intros H G. apply pageAt_Some in H as [_ H].
  split; [reflexivity|]. split; [cbn; lia|].
  exists (<[Z.to_nat i := p']> (pages d)), []. rewrite app_nil_r.
  split; [reflexivity|].
  rewrite <- (list_insert_id (pages d) (Z.to_nat i) p H) at 1.
  apply Forall2_insert; [apply pagesGrow_refl | exact G].
Qed.

Lemma setAdd_prefix x (s : list jsstring) : s `prefix_of` setAdd x s.
Proof.
  unfold setAdd. destruct (decide (x ∈ s)); [reflexivity | now apply prefix_app_r].
Qed.

Lemma pageGrows_text {host : Host} text x y options p :
  pageGrows p (pageWithText text x y options p).
Proof.
  unfold pageWithText. cbv zeta. repeat split; cbn; try reflexivity.
  - now apply prefix_app_r.
  - apply setAdd_prefix.
Qed.

Lemma pageGrows_image {host : Host} key x y options p :
  pageGrows p (pageWithImage key x y options p).
Proof.
  unfold pageWithImage. repeat split; cbn; try reflexivity.
  - now apply prefix_app_r.
  - apply setAdd_prefix.
Qed.

(** X18: drawing only appends.  Across any sequence of public calls,
    builds and their header and footer passes included, the pages a
    document had stay where they were with their ids, and each keeps its
    fragments and its resource names as the first ones of what it holds
    afterwards; the images the registry had stay the first of the
    registry; the object counter does not go down. *)
Theorem drawing_only_appends {host : Host} (cs : list ApiCall) (d : PdfCreator) :
  grows d (performAll cs d).
Proof.
  apply (keeps_performAll grows grows_refl grows_trans grows_addPage).
  - intros i d0. now apply grows_same_pages.
  - intros f d0. now apply grows_same_pages.
  - intros d0. apply grows_same_pages; cbn; auto.
  - intros text x y options i p d0 H. apply (grows_store i p); [exact H|].
    apply pageGrows_text.
  - intros key x y options i p d0 H _. apply (grows_store i p); [exact H|].
    apply pageGrows_image.
  - intros w h data d0. split; [now apply prefix_app_r|]. split; [cbn; lia|].
    exists (pages d0), []. rewrite app_nil_r. split; [reflexivity | apply pagesGrow_refl].
Qed.

(** ** Image keys *)

Lemma lit_inj a : forall b, lit a = lit b -> a = b.
Proof.
  induction a as [|c a IH]; intros [|c' b] E; try discriminate; [reflexivity|].
  cbn [lit] in E. injection E as Ec E. f_equal; [|now apply IH].
  unfold unit_of_ascii in Ec. apply N2Z.inj in Ec.
  now rewrite <- (ascii_N_embedding c), <- (ascii_N_embedding c'), Ec.
Qed.

Lemma natToString_inj a b : natToString a = natToString b -> a = b.
Proof.
  unfold natToString. intros E. apply lit_inj in E.
  assert (N : forall n, Nat.to_uint n <> Decimal.Nil).
  { intros n. rewrite <- (DecimalNat.Unsigned.of_to n) at 1.
    rewrite DecimalNat.Unsigned.to_of. apply DecimalFacts.unorm_nonnil. }
  apply DecimalNat.Unsigned.to_uint_inj.
  pose proof (NilZero.usu _ (N a)) as Ua. pose proof (NilZero.usu _ (N b)) as Ub.
  rewrite E in Ua. congruence.
Qed.

Lemma imagesGet_None m key : ~ In key (map fst m) -> imagesGet m key = None.
Proof.
  induction m as [|[k v] m IH]; [reflexivity|]. cbn. intros N.
  destruct (decide (k = key)) as [->|_]; [tauto | apply IH; tauto].
Qed.

Lemma keys_NoDup m : forall n,
  NoDup (map (fun k => lit "I" ++ natToString k) (seq n m)).
Proof.
  induction m as [|m IH]; intros n; cbn [seq map]; constructor; [|apply IH].
  rewrite list_elem_of_In, in_map_iff. intros (k & E & Hk).
  apply app_inv_head, natToString_inj in E. apply in_seq in Hk. lia.
Qed.

Lemma keyed_fresh d :
  keyed d ->
  imagesGet (images d) (lit "I" ++ natToString (length (images d) + 1)) = None.
Proof.
  intros K. apply imagesGet_None. rewrite K, in_map_iff. intros (k & E & Hk).
  apply app_inv_head, natToString_inj in E. apply in_seq in Hk. lia.
Qed.

Lemma keyed_same_images d d' : images d' = images d -> keyed d -> keyed d'.
Proof. unfold keyed. now intros ->. Qed.

Lemma reachable_keyed {host : Host} cfg d : reachable cfg d -> keyed d.
Proof.
  induction 1 as [|d c d' _ IH P]; [reflexivity|]. revert IH.
  apply (keeps_perform (fun a b => keyed a -> keyed b)) with (c := c);
    try exact P; try (intros; now apply (keyed_same_images _ _ eq_refl)); auto.
  intros w h data d0 K. unfold keyed in *. cbn [images with_images].
  rewrite map_app, length_app, seq_app, map_app, K. cbn [length map fst seq].
  do 4 f_equal. lia.
Qed.

(** X19: on a document a client holds, an [addImage] whose image is
    processed always registers a new entry, under the key [I] followed by
    the number of images there are then, with an id not issued before;
    the test for a key already present never succeeds, so a picture added
    twice is stored twice, and the keys of the registry stay distinct. *)
Theorem image_registered_anew {host : Host}
    (cfg : PdfConfig.t) (d : PdfCreator)
    (imageData : jsstring) (x y : Q) (options : ImageOptions.t)
    (data : jsstring) :
  reachable cfg d ->
  processImage imageData = Some data ->
  exists y' d' id,
    addImage imageData x y options d = Return y' d'
    /\ images d'
       = images d
         ++ [(lit "I" ++ natToString (length (images d) + 1),
              ImageEntry.mk id (ImageOptions.width options)
                (ImageOptions.height options) (stripDataUrlPrefix data))]
    /\ objectCounter d <= id < objectCounter d'
    /\ NoDup (map fst (images d')).
Proof.
  intros R Hp. pose proof (reachable_validIndex cfg d R) as V.
  pose proof (reachable_keyed cfg d R) as K.
  assert (Ka : forall d', perform (ApiAddImage imageData x y options) d = Some d' ->
                          NoDup (map fst (images d'))).
  { intros d' P. rewrite (reachable_keyed cfg d' (reachable_call cfg d _ d' R P)).
    apply keys_NoDup. }
  cbn [perform] in Ka. revert Ka.
  rewrite addImage_unfold. cbv zeta. rewrite Hp, addImageEnter_unfold.
  set (d1 := snd (if overflows _ y d then _ else _)).
  set (y1 := fst (if overflows _ y d then _ else _)).
  assert (I1 : images d1 = images d) by (subst d1; now destruct (overflows _ y d)).
  assert (C1 : objectCounter d <= objectCounter d1).
  { subst d1. destruct (overflows _ y d); cbn [snd]; [rewrite addPage_counter|]; lia. }
  assert (V1 : validIndex d1).
  { subst d1. destruct (overflows _ y d); cbn [snd]; [apply addPage_validIndex | exact V]. }
  clearbody d1 y1. rewrite addImageResume_unfold. cbv zeta. rewrite I1, (keyed_fresh d K).
  set (d2 := with_images _ _).
  destruct (pageAt_valid (pages d2) (currentPageIndex d2) V1) as [p Hpage].
  rewrite Hpage. intros Ka. eexists _, _, (objectCounter d1).
  split; [reflexivity|]. split; [reflexivity|]. split; [cbn; lia|].
  now apply Ka.
Qed.

Lemma image_registered_anew_witness :
  exists y' d' id,
    @addImage sampleHost (lit "data:image/jpeg;base64,/9j/4AAQ") (20 # 1) (200 # 1)
      squareImage readmeDoc = Return y' d'
    /\ images d'
       = images readmeDoc
         ++ [(lit "I" ++ natToString (length (images readmeDoc) + 1),
              ImageEntry.mk id (100 # 1) (100 # 1)
                (stripDataUrlPrefix (lit "data:image/jpeg;base64,/9j/4AAQ")))]
    /\ objectCounter readmeDoc <= id < objectCounter d'
    /\ NoDup (map fst (images d')).
Proof.
  apply (@image_registered_anew sampleHost PdfConfig.none readmeDoc
           (lit "data:image/jpeg;base64,/9j/4AAQ") (20 # 1) (200 # 1) squareImage
           (lit "data:image/jpeg;base64,/9j/4AAQ")).
  - apply performAll_reachable, reachable_new.
  - reflexivity.
Defined.


(** ** An image [atob] rejects *)

Lemma imagesObjects_undecodable {host : Host} m key img :
  (key, img) ∈ m -> atob (ImageEntry.data img) = None -> imagesObjects m = None.
Proof.
  induction m as [|[k v] m IH]; intros H A; [now apply elem_of_nil in H|].
  cbn [imagesObjects]. apply elem_of_cons in H as [E|H].
  - injection E as <- <-. now rewrite A.
  - rewrite (IH H A). now destruct (atob (ImageEntry.data v)).
Qed.

(** X20: [addImage] does not look at the data it stores: when [atob]
    rejects the data of a registered image, the first build of the
    document throws the error of [atob], after the header and footer pass
    and with the two ids of the catalog and the page tree taken. *)
Theorem undecodable_image_fails_build {host : Host}
    (cfg : PdfConfig.t) (d : PdfCreator) (fuel : nat)
    (key : jsstring) (img : ImageEntry.t) :
  drawn cfg d -> callbacksPlaceOnly cfg -> length (pages d) <= fuel ->
  (key, img) ∈ images d -> atob (ImageEntry.data img) = None ->
  buildPdf fuel d
  = Throw InvalidCharacterError
      (with_objectCounter (S (S (objectCounter d))) (decorated d)).
Proof.
  intros D N B In A. destruct (drawn_invariants cfg d D) as (C & _ & R).
  rewrite <- C in N.
  pose proof (applyHeaderFooter_decorates fuel d N B) as Hp.
  apply decorated_imagesRegistered in R.
  unfold buildPdf, bind. rewrite Hp. cbn [getNextId].
  rewrite emitObjects_objects.
  set (d1 := decorated d) in *.
  set (d2 := with_objectCounter (S (objectCounter (with_objectCounter _ d1))) _).
  change (pages d2) with (pages d1). change (images d2) with (images d1).
  change (objectCounter (with_objectCounter (S (objectCounter d1)) d1))
    with (S (objectCounter d1)).
  destruct (pagesObjects_total (S (objectCounter d1)) (images d1) (pages d1))
    as [ps Ep]; [exact R|]. rewrite Ep.
  now rewrite (imagesObjects_undecodable (images d1) key img In A).
Qed.

Lemma undecodable_image_fails_build_witness :
  @buildPdf strictHost 1 brokenImageDoc
  = Throw InvalidCharacterError
      (with_objectCounter (S (S (objectCounter brokenImageDoc)))
         (@decorated strictHost brokenImageDoc)).
Proof.
  apply (@undecodable_image_fails_build strictHost PdfConfig.none brokenImageDoc 1
           (lit "I1") (ImageEntry.mk 3 (100 # 1) (100 # 1) (lit "not base64!"))).
  - apply performAll_drawn; [reflexivity | apply drawn_new].
  - split; exact I.
  - vm_compute. lia.
  - vm_compute. left.
  - reflexivity.
Defined.

(** ** A pass with nothing to draw *)

Lemma silent_decorate {host : Host} cfg pageNum p :
  silent cfg = true -> decorate cfg pageNum p = p.
Proof.
  unfold silent, decorate, footerOnPage, headerOnPage. intros S.
  destruct (PdfConfig.onHeader cfg); [discriminate|].
  destruct (PdfConfig.onFooter cfg); [discriminate|].
  apply andb_true_iff in S as [Sh Sf].
  assert (Eh : match PdfConfig.defaultHeader cfg with
               | Some h =>
                   match default [] (DefaultHeaderConfig.text h) with
                   | [] => p
                   | text =>
                       pageWithText text
                         (anchorX (default AlignCenter (DefaultHeaderConfig.align h)))
                         (20 # 1)
                         (bandOptions (default AlignCenter (DefaultHeaderConfig.align h))
                            (default (lit "#000000") (DefaultHeaderConfig.color h))) p
                   end
               | None => p
               end = p).
  { destruct (PdfConfig.defaultHeader cfg) as [h|]; [|reflexivity].
    now destruct (default [] (DefaultHeaderConfig.text h)). }
  cbv zeta. rewrite Eh.
  destruct (PdfConfig.defaultFooter cfg) as [f|]; [|reflexivity].
  unfold footerTextOf in *.
  destruct (default true (DefaultFooterConfig.showPageNumbers f)).
  - now destruct (default [] (DefaultFooterConfig.text f)).
  - now destruct (default [] (DefaultFooterConfig.text f)).
Qed.

(** X21: with a configuration that asks for no header and no footer (no
    callback, no default header text, no default footer or one without
    text and with page numbers turned off) the pass draws nothing: it
    returns and leaves every page, the registry, the counter and the
    current-page index as they were, with the guard flag off. *)
Theorem silent_pass_changes_nothing {host : Host} (fuel : nat) (d : PdfCreator) :
  silent (config d) = true ->
  length (pages d) <= fuel ->
  applyHeaderFooter fuel d = Return tt (with_isApplyingHeaderFooter false d).
Proof.
  intros S B. rewrite applyHeaderFooter_decorates; [|split|exact B].
  - f_equal. unfold decorated, with_isApplyingHeaderFooter. f_equal.
    rewrite (imap_ext _ (const id)); [|intros; now apply silent_decorate].
    rewrite imap_const. apply list_fmap_id.
  - unfold silent in S. now destruct (PdfConfig.onHeader (config d)).
  - unfold silent in S. destruct (PdfConfig.onHeader (config d)); [discriminate|].
    now destruct (PdfConfig.onFooter (config d)).
Qed.

Lemma silent_pass_changes_nothing_witness :
  @applyHeaderFooter sampleHost 2 readmeDoc
  = Return tt (with_isApplyingHeaderFooter false readmeDoc).
Proof.
  apply (@silent_pass_changes_nothing sampleHost 2 readmeDoc);
    [reflexivity | vm_compute; lia].
Defined.

(** ** Content that fits *)




(** In decimals [831.69 + 10.2] is [841.89] as well, but the double the
    code computes for the sum lies above the double [841.89]: that text
    starts a page. *)
Example decimal_boundary_starts_page :
  (83169 # 100) + (102 # 10) == 84189 # 100
  /\ (PAGE_HEIGHT < double (double (83169 # 100) + double (102 # 10)))%Q
  /\ exists d',
       @addText sampleHost (lit "Hi") (20 # 1) (double (83169 # 100))
         (TextOptions.mk (Some (double (102 # 10))) None None None None) plainDoc
       = Return (double (headerHeight plainDoc + 20)) d'
       /\ length (pages d') = 2.
Proof.
  split; [reflexivity|]. split; [vm_compute; reflexivity|].
  eexists. split; vm_compute; reflexivity.
Qed.

(** ** The footer of the editor *)

Lemma includes_at pat pre post :
  pat <> [] -> includes pat (pre ++ pat ++ post) = true.
Proof.
  intros Ne. induction pre as [|c pre IH].
  - destruct pat as [|a pat]; [contradiction|]. cbn [app includes].
    change (a :: pat ++ post) with ((a :: pat) ++ post). now rewrite startsWith_app.
  - cbn [app includes]. rewrite IH. apply orb_true_r.
Qed.

Lemma replaceFirst_at a pat by_ pre post :
  Forall (fun c => c <> a) pre ->
  replaceFirst (a :: pat) by_ (pre ++ (a :: pat) ++ post) = pre ++ by_ ++ post.
Proof.
  induction 1 as [|c pre Hc _ IH].
  - cbn [app replaceFirst].
    change (a :: pat ++ post) with ((a :: pat) ++ post).
    now rewrite startsWith_app, drop_app_length.
  - change ((c :: pre) ++ (a :: pat) ++ post) with (c :: (pre ++ (a :: pat) ++ post)).
    cbn [replaceFirst startsWith]. destruct (decide (a = c)) as [E|_]; [congruence|].
    now rewrite IH.
Qed.

Lemma replaceFirst_absent pat by_ s :
  includes pat s = false -> replaceFirst pat by_ s = s.
Proof.
  induction s as [|c s IH]; cbn [includes replaceFirst].
  - now intros ->.
  - intros H. apply orb_false_iff in H as [-> H]. now rewrite IH.
Qed.

(** X23: the footer of a document made by the editor.  When the footer
    field holds the mark [{pageNumber}] (after text without a brace), the
    mark is cut out and the number is not put in its place: the footer of
    page [n] is what is left of the field, then [ - Page n], and [Page n]
    alone when nothing is left; so the field [Page {pageNumber}] the
    editor starts with gives [Page  - Page n].  A field without the mark
    is printed as it is, without a number; both reserved heights are 40. *)
Theorem editor_footer_text (pre post plain headerText : jsstring) (n : nat) :
  Forall (fun c => c <> 123%Z) pre ->
  includes (lit "{pageNumber}") plain = false ->
  editorFooterText (pre ++ lit "{pageNumber}" ++ post) n
  = match pre ++ post with
    | [] => lit "Page " ++ natToString n
    | rest => rest ++ lit " - Page " ++ natToString n
    end
  /\ editorFooterText (lit "Page {pageNumber}") n
     = lit "Page  - Page " ++ natToString n
  /\ editorFooterText plain n = plain
  /\ headerHeight (constructor (editorConfig headerText plain)) = 40 # 1
  /\ footerHeight (constructor (editorConfig headerText plain)) = 40 # 1.
Proof.
  intros Hpre Hplain.
  assert (G : forall a b,
             Forall (fun c => c <> 123%Z) a ->
             editorFooterText (a ++ lit "{pageNumber}" ++ b) n
             = match a ++ b with
               | [] => lit "Page " ++ natToString n
               | rest => rest ++ lit " - Page " ++ natToString n
               end).
  { intros a b Ha. unfold editorFooterText, editorConfig. cbn [PdfConfig.defaultFooter].
    destruct (a ++ lit "{pageNumber}" ++ b) as [|c s] eqn:E.
    { destruct a; discriminate. }
    rewrite <- E. cbn [DefaultFooterConfig.text DefaultFooterConfig.showPageNumbers].
    rewrite includes_at by discriminate.
    change (lit "{pageNumber}") with (123%Z :: lit "pageNumber}").
    rewrite (replaceFirst_at 123%Z (lit "pageNumber}") [] a b Ha).
    cbv [default from_option id footerTextOf]. cbn [app].
    now destruct (a ++ b). }
  split; [now apply G|]. split; [exact (G (lit "Page ") [] ltac:(repeat constructor; discriminate))|].
  split; [|split; reflexivity].
  unfold editorFooterText, editorConfig. cbn [PdfConfig.defaultFooter].
  destruct plain as [|c s]; [reflexivity|].
  cbn [DefaultFooterConfig.text DefaultFooterConfig.showPageNumbers].
  rewrite Hplain, (replaceFirst_absent _ _ _ Hplain). reflexivity.
Qed.

Lemma editor_footer_text_witness :
  editorFooterText (lit "Total " ++ lit "{pageNumber}" ++ lit " pages") 3
  = lit "Total  pages - Page 3"
  /\ editorFooterText (lit "Page {pageNumber}") 3 = lit "Page  - Page 3"
  /\ editorFooterText (lit "Confidential") 3 = lit "Confidential"
  /\ headerHeight (constructor (editorConfig (lit "Draft") (lit "Confidential")))
     = 40 # 1
  /\ footerHeight (constructor (editorConfig (lit "Draft") (lit "Confidential")))
     = 40 # 1.
Proof.
  apply (editor_footer_text (lit "Total ") (lit " pages")
           (lit "Confidential") (lit "Draft") 3).
  - repeat constructor; discriminate.
  - reflexivity.
Defined.
